(** * albu: the photo pipeline of [tools/proc.py]

    A shallow embedding of [tools/proc.py] and the proofs of its
    specification.  The script reads every [*.jpg] of [assets/source],
    extracts the capture time and the orientation from the EXIF tags,
    writes three resized variants below [assets/_generated] (skipping a
    file whose bytes are already there) and dumps the metadata of all
    photos, sorted by time, to [assets/_generated/metas.json].

    Conventions of the embedding:
    - a path is the list of its components, innermost first, so that
      [Path.parent] is the tail and [p / c] is [c :: p]; the empty list is
      the working directory;
    - the file system is a finite map from paths to nodes;
    - code that touches the file system or logs runs in the monad [M]: it
      takes the file system and returns a result or a raised exception,
      the file system it leaves and the log records it emitted;
    - Pillow, [hashlib.md5] and [json.dump] are not part of the
      repository: they are parameters ([ImageCodec], [md5],
      [json_dumps]). *)

From Stdlib Require Import ZArith NArith List Ascii String Lia.
From Stdlib Require Import Strings.Byte.
From Stdlib Require Import Sorting.Sorted Sorting.Permutation.
From Stdlib Require Import DecimalString.
From stdpp Require Import base option list gmap strings.

Local Open Scope string_scope.
Local Open Scope list_scope.
Local Open Scope Z_scope.

#[local] Arguments String.append !s1 s2 : simpl nomatch.

(** ** Exceptions, results *)

Inductive Exc : Type :=
| FileNotFoundError
| IsADirectoryError
| NotADirectoryError
| FileExistsError
| UnidentifiedImageError
| ValueError
| TypeError.

Inductive Result (A : Type) : Type :=
| Ok (a : A)
| Raise (e : Exc).
Arguments Ok {A} a.
Arguments Raise {A} e.

Definition rbind {A B : Type} (r : Result A) (f : A -> Result B) : Result B :=
  match r with
  | Ok a => f a
  | Raise e => Raise e
  end.

(** ** Paths and the file system *)

Abbreviation Path := (list string).

Definition parent (p : Path) : Path := tail p.

Definition path_name (p : Path) : string :=
  match p with
  | [] => ""
  | c :: _ => c
  end.

(** [str(path)]: the components joined by a slash, outermost first. *)
Definition path_str (p : Path) : string :=
  match p with
  | [] => "."
  | _ => String.concat "/" (rev p)
  end.

Inductive Node : Type :=
| File (data : list byte)
| Dir.

Abbreviation FS := (gmap (list string) Node).

(** What is at [p]; the working directory always exists. *)
Definition node_at (fs : FS) (p : Path) : option Node :=
  match p with
  | [] => Some Dir
  | _ => fs !! p
  end.

Definition is_dir (fs : FS) (p : Path) : bool :=
  match node_at fs p with
  | Some Dir => true
  | _ => false
  end.

(** ** Log records *)

Inductive Level : Type := INFO | ERROR.

Record LogRecord : Type := mkLog { log_level : Level; log_msg : string }.

(** ** The monad of the script *)

Record Outcome (A : Type) : Type := mkOutcome {
  res : Result A;
  fs_after : FS;
  logged : list LogRecord
}.
Arguments mkOutcome {A} res fs_after logged.
Arguments res {A} o.
Arguments fs_after {A} o.
Arguments logged {A} o.

Definition M (A : Type) : Type := FS -> Outcome A.

Definition ret {A : Type} (a : A) : M A :=
  fun fs => mkOutcome (Ok a) fs [].

Definition raise {A : Type} (e : Exc) : M A :=
  fun fs => mkOutcome (Raise e) fs [].

(** The records of [o] come after those of [l]. *)
Definition after_log {A : Type} (l : list LogRecord) (o : Outcome A)
    : Outcome A :=
  match o with
  | mkOutcome r fs l' => mkOutcome r fs (l ++ l')
  end.

Definition bind {A B : Type} (m : M A) (f : A -> M B) : M B :=
  fun fs =>
    match m fs with
    | mkOutcome (Ok a) fs' l => after_log l (f a fs')
    | mkOutcome (Raise e) fs' l => mkOutcome (Raise e) fs' l
    end.

Definition lift {A : Type} (r : Result A) : M A :=
  fun fs => mkOutcome r fs [].

Declare Scope m_scope.
Delimit Scope m_scope with m.
Notation "'let*' x := m 'in' k" := (bind m (fun x => k))
  (at level 10, x name, m at level 100, k at level 200) : m_scope.
Notation "'exec' m 'in' k" := (bind m (fun _ => k))
  (at level 10, m at level 100, k at level 200) : m_scope.
Local Open Scope m_scope.

(** [logger.info] and [logger.error]. *)
Definition logger_info (msg : string) : M unit :=
  fun fs => mkOutcome (Ok tt) fs [mkLog INFO msg].

Definition logger_error (msg : string) : M unit :=
  fun fs => mkOutcome (Ok tt) fs [mkLog ERROR msg].

(** ** [pathlib] on the file system *)

(** Why nothing is reached at a path that is not there: the walk from the
    working directory ends at a regular file ([ENOTDIR]) or at a name
    that is missing ([ENOENT]). *)
Fixpoint missing_error (fs : FS) (p : Path) : Exc :=
  match p with
  | [] => FileNotFoundError
  | _ :: par =>
      match node_at fs par with
      | Some (File _) => NotADirectoryError
      | Some Dir => FileNotFoundError
      | None => missing_error fs par
      end
  end.

Definition path_exists (p : Path) : M bool :=
  fun fs => mkOutcome (Ok (bool_decide (is_Some (node_at fs p)))) fs [].

Definition read_bytes (p : Path) : M (list byte) :=
  fun fs =>
    match node_at fs p with
    | Some (File b) => mkOutcome (Ok b) fs []
    | Some Dir => mkOutcome (Raise IsADirectoryError) fs []
    | None => mkOutcome (Raise (missing_error fs p)) fs []
    end.

(** Opening [p] for writing and storing [b]: the parent must be a
    directory and [p] must not be one. *)
Definition write_bytes (p : Path) (b : list byte) : M unit :=
  fun fs =>
    match node_at fs p with
    | Some Dir => mkOutcome (Raise IsADirectoryError) fs []
    | _ =>
        match node_at fs (parent p) with
        | Some Dir => mkOutcome (Ok tt) (<[p := File b]> fs) []
        | Some (File _) => mkOutcome (Raise NotADirectoryError) fs []
        | None => mkOutcome (Raise (missing_error fs (parent p))) fs []
        end
    end.

(** [os.mkdir]: one level, the parent must be a directory. *)
Definition os_mkdir (p : Path) : M unit :=
  fun fs =>
    match node_at fs p with
    | Some _ => mkOutcome (Raise FileExistsError) fs []
    | None =>
        match node_at fs (parent p) with
        | Some Dir => mkOutcome (Ok tt) (<[p := Dir]> fs) []
        | Some (File _) => mkOutcome (Raise NotADirectoryError) fs []
        | None => mkOutcome (Raise (missing_error fs (parent p))) fs []
        end
    end.

(** [Path.mkdir(exist_ok=True)] without [parents]: a missing parent is
    raised; any other [OSError] is swallowed when the path is a
    directory. *)
Definition mkdir_exist_ok (p : Path) : M unit :=
  fun fs =>
    match os_mkdir p fs with
    | mkOutcome (Ok _) _ _ as o => o
    | mkOutcome (Raise FileNotFoundError) _ _ as o => o
    | mkOutcome (Raise _) _ _ as o =>
        if is_dir fs p then mkOutcome (Ok tt) fs [] else o
    end.

(** [Path.mkdir(parents=True, exist_ok=True)], as pathlib writes it: try
    [os.mkdir]; on [FileNotFoundError] make the parent first and try
    again without [parents]; on any other [OSError] succeed when the path
    is a directory. *)
Fixpoint mkdir_parents (p : Path) : M unit :=
  fun fs =>
    match os_mkdir p fs with
    | mkOutcome (Ok _) _ _ as o => o
    | mkOutcome (Raise FileNotFoundError) _ _ as o =>
        match p with
        | [] => o
        | _ :: par => (exec mkdir_parents par in mkdir_exist_ok p) fs
        end
    | mkOutcome (Raise _) _ _ as o =>
        if is_dir fs p then mkOutcome (Ok tt) fs [] else o
    end.

(** ** Characters, decimal numbers *)

Definition is_digit (c : ascii) : bool :=
  let n := N_of_ascii c in ((48 <=? n) && (n <=? 57))%N.

(** The characters [lo] to [hi] of a class such as [[0-5]]. *)
Definition in_range (lo hi : ascii) (c : ascii) : bool :=
  let n := N_of_ascii c in
  ((N_of_ascii lo <=? n) && (n <=? N_of_ascii hi))%N.

(** [\s] on text, for the code points below 256 (Pillow decodes the
    text tags as Latin-1): blank, tab to carriage return, the four
    separators 28 to 31, next line (133) and no-break space (160). *)
Definition is_space (c : ascii) : bool :=
  let n := N_of_ascii c in
  ((n =? 32) || ((9 <=? n) && (n <=? 13)) || ((28 <=? n) && (n <=? 31))
   || (n =? 133) || (n =? 160))%N.

Definition digit_val (c : ascii) : Z := Z.of_N (N_of_ascii c) - 48.

Fixpoint digits_val (acc : Z) (s : string) : option Z :=
  match s with
  | EmptyString => Some acc
  | String c s' =>
      if is_digit c then digits_val (10 * acc + digit_val c) s' else None
  end.

Fixpoint lstrip (s : string) : string :=
  match s with
  | String c s' => if is_space c then lstrip s' else s
  | EmptyString => s
  end.

(** [int(s)] on what the matcher hands over: optional leading blanks,
    then one or more decimal digits. *)
Definition py_int (s : string) : Result Z :=
  match lstrip s with
  | EmptyString => Raise ValueError
  | t => match digits_val 0 t with
         | Some n => Ok n
         | None => Raise ValueError
         end
  end.

(** [str(n)] for a number that is not negative. *)
Definition str_of_Z (n : Z) : string :=
  NilEmpty.string_of_uint (N.to_uint (Z.to_N n)).

Fixpoint zeros (n : nat) : string :=
  match n with
  | O => EmptyString
  | S n' => String "0" (zeros n')
  end.

(** ["%0wd" % n] for a number that is not negative. *)
Definition fmt_d0 (w : nat) (n : Z) : string :=
  let s := str_of_Z n in
  zeros (w - String.length s) ++ s.

(** ** The matcher behind [strptime] *)

Inductive regex : Type :=
| Eps
| Lit (c : ascii)
| Cls (p : ascii -> bool)
| Plus (p : ascii -> bool)
| Cat (r1 r2 : regex)
| Alt (r1 r2 : regex)
| Grp (name : ascii) (r : regex).

Abbreviation Groups := (list (ascii * string)).

Fixpoint take_str (n : nat) (s : string) : string :=
  match n, s with
  | S n', String c s' => String c (take_str n' s')
  | _, _ => EmptyString
  end.

(** Greedy repetition with backtracking: the longest run first. *)
Fixpoint match_star {R : Type} (p : ascii -> bool) (s : string)
    (k : string -> option R) : option R :=
  match s with
  | String c s' =>
      if p c then
        match match_star p s' k with
        | Some x => Some x
        | None => k s
        end
      else k s
  | EmptyString => k s
  end.

(** Backtracking matching in continuation-passing style: [k] is the
    rest of the pattern; the first alternative that lets the rest match
    wins, as in [re.match]. *)
Fixpoint re_match {R : Type} (r : regex) (s : string) (g : Groups)
    (k : string -> Groups -> option R) : option R :=
  match r with
  | Eps => k s g
  | Lit c =>
      match s with
      | String c' s' => if Ascii.eqb c c' then k s' g else None
      | EmptyString => None
      end
  | Cls p =>
      match s with
      | String c' s' => if p c' then k s' g else None
      | EmptyString => None
      end
  | Plus p =>
      match s with
      | String c' s' =>
          if p c' then match_star p s' (fun t => k t g) else None
      | EmptyString => None
      end
  | Cat r1 r2 => re_match r1 s g (fun t g' => re_match r2 t g' k)
  | Alt r1 r2 =>
      match re_match r1 s g k with
      | Some x => Some x
      | None => re_match r2 s g k
      end
  | Grp n r1 =>
      re_match r1 s g
        (fun t g' =>
           k t ((n, take_str (String.length s - String.length t) s) :: g'))
  end.

Definition digit : regex := Cls is_digit.
Definition rng (lo hi : ascii) : regex := Cls (in_range lo hi).

(** The directives of [_strptime.TimeRE] that the script uses. *)
Definition directive (d : ascii) : option regex :=
  if Ascii.eqb d "Y" then Some (Cat digit (Cat digit (Cat digit digit)))
  else if Ascii.eqb d "m" then
    Some (Alt (Cat (Lit "1") (rng "0" "2"))
         (Alt (Cat (Lit "0") (rng "1" "9")) (rng "1" "9")))
  else if Ascii.eqb d "d" then
    Some (Alt (Cat (Lit "3") (rng "0" "1"))
         (Alt (Cat (rng "1" "2") digit)
         (Alt (Cat (Lit "0") (rng "1" "9"))
         (Alt (rng "1" "9") (Cat (Lit " ") (rng "1" "9"))))))
  else if Ascii.eqb d "H" then
    Some (Alt (Cat (Lit "2") (rng "0" "3"))
         (Alt (Cat (rng "0" "1") digit) digit))
  else if Ascii.eqb d "M" then
    Some (Alt (Cat (rng "0" "5") digit) digit)
  else if Ascii.eqb d "S" then
    Some (Alt (Cat (Lit "6") (rng "0" "1"))
         (Alt (Cat (rng "0" "5") digit) digit))
  else None.

(** [TimeRE.pattern]: a run of blanks of the format stands for [\s+], a
    percent sign and a letter for the directive's group, any other
    character for itself.  [sp] tells that the previous character was a
    blank. *)
Fixpoint compile_format (sp : bool) (fmt : string) : option regex :=
  match fmt with
  | EmptyString => Some Eps
  | String c rest =>
      if Ascii.eqb c "%" then
        match rest with
        | String d rest' =>
            match directive d, compile_format false rest' with
            | Some r, Some rs => Some (Cat (Grp d r) rs)
            | _, _ => None
            end
        | EmptyString => None
        end
      else if is_space c then
        match compile_format true rest with
        | Some rs => Some (if sp then rs else Cat (Plus is_space) rs)
        | None => None
        end
      else
        match compile_format false rest with
        | Some rs => Some (Cat (Lit c) rs)
        | None => None
        end
  end.

Fixpoint group (n : ascii) (g : Groups) : option string :=
  match g with
  | [] => None
  | (m, v) :: g' => if Ascii.eqb n m then Some v else group n g'
  end.

(** ** [datetime] *)

Record datetime : Type := mkDatetime {
  year : Z; month : Z; day : Z;
  hour : Z; minute : Z; second : Z; microsecond : Z;
  tzinfo : option Z  (* the offset from UTC, in seconds *)
}.

Definition is_leap (y : Z) : bool :=
  (y mod 4 =? 0) && (negb (y mod 100 =? 0) || (y mod 400 =? 0)).

Definition days_in_month (y m : Z) : Z :=
  if m =? 2 then (if is_leap y then 29 else 28)
  else if (m =? 4) || (m =? 6) || (m =? 9) || (m =? 11) then 30
  else 31.

(** The constructor, with the range checks of [_check_date_fields] and
    [_check_time_fields]. *)
Definition datetime_new (y mo d h mi s us : Z) : Result datetime :=
  if negb ((1 <=? y) && (y <=? 9999)) then Raise ValueError
  else if negb ((1 <=? mo) && (mo <=? 12)) then Raise ValueError
  else if negb ((1 <=? d) && (d <=? days_in_month y mo)) then Raise ValueError
  else if negb ((0 <=? h) && (h <=? 23)) then Raise ValueError
  else if negb ((0 <=? mi) && (mi <=? 59)) then Raise ValueError
  else if negb ((0 <=? s) && (s <=? 59)) then Raise ValueError
  else if negb ((0 <=? us) && (us <=? 999999)) then Raise ValueError
  else Ok (mkDatetime y mo d h mi s us None).

Definition replace_tzinfo (dt : datetime) (tz : option Z) : datetime :=
  mkDatetime (year dt) (month dt) (day dt) (hour dt) (minute dt)
    (second dt) (microsecond dt) tz.

(** A group that did not take part keeps the default of [_strptime]. *)
Definition field (n : ascii) (dflt : Z) (g : Groups) : Result Z :=
  match group n g with
  | Some v => py_int v
  | None => Ok dflt
  end.

(** [datetime.datetime.strptime(s, fmt)]: match the whole of [s], then
    build the date from the groups. *)
Definition strptime (s fmt : string) : Result datetime :=
  match compile_format false fmt with
  | None => Raise ValueError
  | Some r =>
      match re_match r s [] (fun t g => Some (t, g)) with
      | None => Raise ValueError
      | Some (String _ _, _) => Raise ValueError
      | Some (EmptyString, g) =>
          rbind (field "Y" 1900 g) (fun y =>
          rbind (field "m" 1 g) (fun mo =>
          rbind (field "d" 1 g) (fun d =>
          rbind (field "H" 0 g) (fun h =>
          rbind (field "M" 0 g) (fun mi =>
          rbind (field "S" 0 g) (fun sec =>
          datetime_new y mo d h mi sec 0))))))
      end
  end.

Definition format_time (dt : datetime) : string :=
  fmt_d0 2 (hour dt) ++ ":" ++ fmt_d0 2 (minute dt) ++ ":"
    ++ fmt_d0 2 (second dt)
    ++ (if microsecond dt =? 0 then ""
        else "." ++ fmt_d0 6 (microsecond dt)).

Definition format_offset (tz : option Z) : string :=
  match tz with
  | None => ""
  | Some off =>
      let sign := if off <? 0 then "-" else "+" in
      let a := Z.abs off in
      let hh := a / 3600 in
      let mm := (a mod 3600) / 60 in
      let ss := (a mod 3600) mod 60 in
      sign ++ fmt_d0 2 hh ++ ":" ++ fmt_d0 2 mm
        ++ (if ss =? 0 then "" else ":" ++ fmt_d0 2 ss)
  end.

Definition isoformat (dt : datetime) : string :=
  fmt_d0 4 (year dt) ++ "-" ++ fmt_d0 2 (month dt) ++ "-"
    ++ fmt_d0 2 (day dt) ++ "T" ++ format_time dt
    ++ format_offset (tzinfo dt).

(** ** EXIF values and [parse_time] *)

Inductive ExifValue : Type :=
| EInt (n : Z)
| EStr (s : string)
| EBytes (b : list byte).

Definition parse_time (datestr : ExifValue) : Result string :=
  match datestr with
  | EStr s =>
      rbind (strptime s "%Y:%m:%d %H:%M:%S") (fun dt =>
        let dt :=
          match tzinfo dt with
          | None => replace_tzinfo dt (Some (8 * 3600))
          | Some _ => dt
          end in
        Ok (isoformat dt))
  | _ => Raise TypeError
  end.

Example parse_time_ex :
  parse_time (EStr "2023:05:01 10:00:00") = Ok "2023-05-01T10:00:00+08:00".
Proof. vm_compute. reflexivity. Qed.

(** ** The image library *)

(** What the script uses of Pillow.  [image_decode] is [Image.open] on
    the bytes of a file ([None]: the image cannot be identified);
    [thumbnail] returns the shrunk image instead of changing it in place.
    The two laws are the sizes of a turned image: with [expand=True] a
    quarter turn swaps width and height, a half turn keeps them. *)
Class ImageCodec : Type := {
  Image : Type;
  image_decode : list byte -> option Image;
  getexif : Image -> option (gmap Z ExifValue);
  height : Image -> Z;
  width : Image -> Z;
  rotate : Image -> Z -> bool -> Image;
  copy : Image -> Image;
  thumbnail : Image -> Z * Z -> Image;
  save_jpeg : Image -> bool -> Z -> list byte;
  rotate_half_turn : forall im,
    height (rotate im 180 true) = height im /\
    width (rotate im 180 true) = width im;
  rotate_quarter_turn : forall im d, d = 90 \/ d = 270 ->
    height (rotate im d true) = width im /\
    width (rotate im d true) = height im
}.

#[global] Instance byte_eq_dec : EqDecision byte := Byte.byte_eq_dec.

(** ** Metadata, dictionaries, sorting *)

Record PhotoMeta : Type := mkMeta {
  hw : Z * Z;
  time : string;
  name : string
}.

(** [d[k] = v] on a dictionary that keeps insertion order. *)
Fixpoint dict_set {V : Type} (k : string) (v : V) (d : list (string * V))
    : list (string * V) :=
  match d with
  | [] => [(k, v)]
  | (k', v') :: d' =>
      if String.eqb k k' then (k, v) :: d' else (k', v') :: dict_set k v d'
  end.

(** [sorted(l, key=key)]: a stable sort that compares keys with [<];
    [x] goes in front of the first element whose key is not below its
    own. *)
Fixpoint insert_by {A : Type} (key : A -> string) (x : A) (l : list A)
    : list A :=
  match l with
  | [] => [x]
  | y :: l' =>
      if String.ltb (key y) (key x) then y :: insert_by key x l'
      else x :: y :: l'
  end.

Definition sorted {A : Type} (key : A -> string) (l : list A) : list A :=
  foldr (insert_by key) [] l.

(** [[meta for meta in metas if meta is not None]] *)
Definition not_none {A : Type} (l : list (option A)) : list A :=
  omap id l.

(** The manifest of a list of results, as the script computes it. *)
Definition manifest (metas : list (option PhotoMeta)) : list PhotoMeta :=
  sorted time (not_none metas).

(** ** Command line *)

Record Args : Type := mkArgs {
  assets_dir : Path;
  quality : Z;
  nproc : Z
}.

Record Argv : Type := mkArgv {
  opt_assets_dir : option Path;
  opt_quality : option Z;
  opt_nproc : option Z
}.

(** [parser.parse_args()], with [cpu_count] the value of
    [multiprocessing.cpu_count()]. *)
Definition parse_args (cpu_count : Z) (argv : Argv) : Args :=
  mkArgs (default ["assets"] (opt_assets_dir argv))
         (default 85 (opt_quality argv))
         (default (cpu_count / 2) (opt_nproc argv)).

(** ** The worker pool *)

(** [list(map(f, l))], what a worker does with its chunk: the calls one
    after the other, up to the first exception. *)
Fixpoint mapM {A B : Type} (f : A -> M B) (l : list A) : M (list B) :=
  match l with
  | [] => ret []
  | x :: l' =>
      let* y := f x in
      let* ys := mapM f l' in
      ret (y :: ys)
  end.

(** [Pool(processes=n)]: the constructor refuses a pool without
    workers. *)
Definition Pool (processes : Z) : M unit :=
  if processes <? 1 then raise ValueError else ret tt.

(** The size of the chunks of [Pool.map]: the length of the list over
    four times the number of workers, rounded up. *)
Definition chunksize (len workers : nat) : nat :=
  if (len mod (workers * 4) =? 0)%nat then (len / (workers * 4))%nat
  else S (len / (workers * 4)).

(** [Pool._get_tasks]: the list cut into chunks of [size], the last one
    possibly shorter. *)
Fixpoint get_tasks {A : Type} (fuel size : nat) (l : list A)
    : list (list A) :=
  match fuel, l with
  | S fuel', _ :: _ => take size l :: get_tasks fuel' size (drop size l)
  | _, _ => []
  end.

(** What a worker hands back for a task: the result or the exception. *)
Definition attempt {A : Type} (m : M A) : M (Result A) :=
  fun fs =>
    match m fs with
    | mkOutcome r fs' l => mkOutcome (Ok r) fs' l
    end.

(** The order in which the tasks get done is not fixed by the script:
    [turn i] is the moment at which task [i] is done, and tasks of the
    same moment are done in the order of the list. *)
Fixpoint place (turn : nat -> nat) (i : nat) (order : list nat)
    : list nat :=
  match order with
  | [] => [i]
  | j :: order' =>
      if (turn j <? turn i)%nat then j :: place turn i order'
      else i :: j :: order'
  end.

Definition completion_order (turn : nat -> nat) (k : nat) : list nat :=
  foldr (place turn) [] (seq 0 k).

(** [MapResult]: the first failure that arrives is kept and raised once
    all tasks are done; without a failure the results go to the places
    of their tasks. *)
Fixpoint first_failure {B : Type} (done : list (Result B)) : option Exc :=
  match done with
  | [] => None
  | Raise e :: _ => Some e
  | Ok _ :: done' => first_failure done'
  end.

Fixpoint result_of {B : Type} (i : nat) (order : list nat)
    (done : list (Result (list B))) : list B :=
  match order, done with
  | j :: order', r :: done' =>
      if (i =? j)%nat then
        match r with
        | Ok ys => ys
        | Raise _ => []
        end
      else result_of i order' done'
  | _, _ => []
  end.

Definition map_result {B : Type} (order : list nat)
    (done : list (Result (list B))) : Result (list B) :=
  match first_failure done with
  | Some e => Raise e
  | None =>
      Ok (concat (map (fun i => result_of i order done)
                    (seq 0 (length order))))
  end.

(** [Pool(processes).map(f, l)]: the list is cut into chunks, every
    chunk is a task, all tasks are run, whatever the others do, and then
    the results are put together.  A task is run as a whole: the tasks
    of the script write different files and make the same directories,
    so that the way the workers take turns shows only in the order of
    the log records of different tasks. *)
Definition Pool_map {A B : Type} (processes : Z) (turn : nat -> nat)
    (f : A -> M B) (l : list A) : M (list B) :=
  let tasks :=
    get_tasks (length l) (chunksize (length l) (Z.to_nat processes)) l in
  let order := completion_order turn (length tasks) in
  let* done := mapM (fun i => attempt (mapM f (nth i tasks []))) order in
  lift (map_result order done).

(** ** Directory listing *)

Definition ends_with (suffix s : string) : bool :=
  let n := String.length s in
  let m := String.length suffix in
  (m <=? n)%nat && String.eqb (substring (n - m) m s) suffix.

(** The entries of [dir] whose name ends in [.jpg], in the order the
    map lists them. *)
Definition jpg_entries (dir : Path) (fs : FS) : list Path :=
  filter (fun p => p <> [] /\ parent p = dir /\
                   ends_with ".jpg" (path_name p) = true)
         (map fst (map_to_list fs)).

(** [dir.glob('*.jpg')] *)
Definition glob_jpg (dir : Path) : M (list Path) :=
  fun fs => mkOutcome (Ok (jpg_entries dir fs)) fs [].

(** ** The processor *)

Section Script.

Context `{codec : ImageCodec}.
Variable md5 : list byte -> list byte.
Variable json_dumps : list PhotoMeta -> list byte.
Variable args : Args.
Variable turn : nat -> nat.

Record Processor : Type := mkProcessor {
  file_path : Path;
  meta : option PhotoMeta;
  imgs : list (string * Image)
}.

(** [Image.open(str(path))] *)
Definition Image_open (p : Path) : M Image :=
  let* b := read_bytes p in
  match image_decode b with
  | Some im => ret im
  | None => raise UnidentifiedImageError
  end.

Definition resize (image : Image) (bbox : option (Z * Z)) : Image :=
  match bbox with
  | None => image
  | Some b => thumbnail (copy image) b
  end.

(** [{3: 180, 6: 270, 8: 90}.get(orientation)] *)
Definition degrees : gmap Z Z := {[ 3 := 180; 6 := 270; 8 := 90 ]}.

Definition degree_of (orientation : ExifValue) : option Z :=
  match orientation with
  | EInt n => degrees !! n
  | _ => None
  end.

Definition variants : list (string * option (Z * Z)) :=
  [("xs", Some (10, 10)); ("s", Some (800, 800)); ("ori", None)].

Definition open_image (self : Processor) : M Processor :=
  let* image := Image_open (file_path self) in
  let skipped :=
    exec logger_error
      (path_str (file_path self) ++ " SKIPPED: Time not found in EXIF")
    in ret self in
  match getexif image with
  | None => skipped
  | Some exif =>
      match exif !! 0x0132 with
      | None => skipped
      | Some datestr =>
          let* time := lift (parse_time datestr) in
          let image :=
            match exif !! 0x0112 with
            | Some orientation =>
                match degree_of orientation with
                | Some degree => rotate image degree true
                | None => image
                end
            | None => image
            end in
          let meta :=
            mkMeta (height image, width image) time
                   (path_name (file_path self)) in
          let imgs :=
            fold_left (fun imgs '(name, bbox) =>
                         dict_set name (resize image bbox) imgs)
                      variants [] in
          ret (mkProcessor (file_path self) (Some meta) imgs)
      end
  end.

(** [Processor(file_path)] *)
Definition Processor_init (file_path : Path) : M Processor :=
  open_image (mkProcessor file_path None []).

Definition _save_file (self : Processor) (dest_file_path : Path)
    (image : Image) : M unit :=
  let buffer := save_jpeg image true (quality args) in
  let saving :=
    let* time :=
      match meta self with
      | Some m => ret (time m)
      | None => raise TypeError
      end in
    exec logger_info
      ("Saving " ++ path_str dest_file_path ++ " [" ++ time ++ "]") in
    write_bytes dest_file_path buffer in
  let* found := path_exists dest_file_path in
  if found then
    let* local := read_bytes dest_file_path in
    if decide (md5 buffer = md5 local) then
      logger_info
        ("Skipping " ++ path_str dest_file_path ++ " (File unchanged)")
    else
      exec logger_info (path_str dest_file_path ++ " TRUNCATED") in
      saving
  else saving.

Fixpoint for_each {A : Type} (f : A -> M unit) (l : list A) : M unit :=
  match l with
  | [] => ret tt
  | x :: l' => exec f x in for_each f l'
  end.

Definition save (self : Processor) : M unit :=
  for_each
    (fun '(name, img) =>
       let dest_dir :=
         name :: "_generated" :: parent (parent (file_path self)) in
       exec mkdir_parents dest_dir in
       let dest_file_path := path_name (file_path self) :: dest_dir in
       _save_file self dest_file_path img)
    (imgs self).

Definition process_and_get_meta (file_path : Path)
    : M (option PhotoMeta) :=
  let* processor := Processor_init file_path in
  exec (match meta processor with
        | Some _ => save processor
        | None => ret tt
        end) in
  ret (meta processor).

(** The body of the script, once the arguments are parsed. *)
Definition main : M unit :=
  exec Pool (nproc args) in
  let* files := glob_jpg ("source" :: assets_dir args) in
  let* metas := Pool_map (nproc args) turn process_and_get_meta files in
  let meta_file_path := "metas.json" :: "_generated" :: assets_dir args in
  exec logger_info
    (str_of_Z (Z.of_nat (length metas)) ++ " photos processed") in
  exec logger_info ("Saving meta to " ++ path_str meta_file_path) in
  let metas := manifest metas in
  write_bytes meta_file_path (json_dumps metas).

End Script.

Arguments mkProcessor {codec} file_path meta imgs.
Arguments file_path {codec} p.
Arguments meta {codec} p.
Arguments imgs {codec} p.

(** ** A small codec

    An instance of the interface, used to run the script on concrete
    files.  A file is three bytes (height, width, orientation) followed
    by the capture time; orientation byte 0 means that the file carries
    no EXIF block, an empty capture time that the block has no time
    tag. *)
Module Raster.

Record t : Type := mk {
  r_height : Z;
  r_width : Z;
  r_exif : option (gmap Z ExifValue);
  r_data : list byte
}.

Definition byteZ (b : byte) : Z := Z.of_N (Byte.to_N b).

Definition decode (b : list byte) : option t :=
  match b with
  | h :: w :: o :: rest =>
      let tags : gmap Z ExifValue :=
        match rest with
        | [] => {[ 0x0112 := EInt (byteZ o) ]}
        | _ => {[ 0x0112 := EInt (byteZ o);
                  0x0132 := EStr (string_of_list_byte rest) ]}
        end in
      Some (mk (byteZ h) (byteZ w)
               (if byteZ o =? 0 then None else Some tags) rest)
  | _ => None
  end.

Definition turn (im : t) (d : Z) (expand : bool) : t :=
  if (d =? 90) || (d =? 270)
  then mk (r_width im) (r_height im) (r_exif im) (r_data im)
  else im.

Definition shrink (im : t) (box : Z * Z) : t :=
  mk (Z.min (r_height im) (snd box)) (Z.min (r_width im) (fst box))
     (r_exif im) (r_data im).

Definition encode (im : t) (optimize : bool) (q : Z) : list byte :=
  default x00 (Byte.of_N (Z.to_N (r_height im mod 256)))
  :: default x00 (Byte.of_N (Z.to_N (r_width im mod 256)))
  :: default x00 (Byte.of_N (Z.to_N (q mod 256)))
  :: r_data im.

#[export] Program Instance codec : ImageCodec := {|
  Image := t;
  image_decode := decode;
  getexif := r_exif;
  height := r_height;
  width := r_width;
  rotate := turn;
  copy := fun im => im;
  thumbnail := shrink;
  save_jpeg := encode
|}.
Next Obligation. intros im. split; reflexivity. Qed.
Next Obligation.
  intros im d [-> | ->]; split; reflexivity.
Qed.

(** A hash for the examples: the bytes themselves. *)
Definition digest (b : list byte) : list byte := b.

Definition dumps (l : list PhotoMeta) : list byte :=
  list_byte_of_string
    (String.concat ","
       (map (fun m => (name m ++ "@" ++ time m)%string) l)).

End Raster.

(** ** Vocabulary of the specification *)

(** A capture time in the pattern [YYYY:MM:DD HH:MM:SS]. *)
Definition exif_time (y mo d h mi s : Z) : string :=
  fmt_d0 4 y ++ ":" ++ fmt_d0 2 mo ++ ":" ++ fmt_d0 2 d ++ " "
    ++ fmt_d0 2 h ++ ":" ++ fmt_d0 2 mi ++ ":" ++ fmt_d0 2 s.

(** The same instant in ISO 8601 with the zone offset [+08:00]. *)
Definition iso_time (y mo d h mi s : Z) : string :=
  fmt_d0 4 y ++ "-" ++ fmt_d0 2 mo ++ "-" ++ fmt_d0 2 d ++ "T"
    ++ fmt_d0 2 h ++ ":" ++ fmt_d0 2 mi ++ ":" ++ fmt_d0 2 s ++ "+08:00".

(** The fields of a date and a time of day of the calendar. *)
Definition valid_fields (y mo d h mi s : Z) : Prop :=
  1 <= y <= 9999 /\ 1 <= mo <= 12 /\ 1 <= d <= days_in_month y mo /\
  0 <= h <= 23 /\ 0 <= mi <= 59 /\ 0 <= s <= 59.

(** The image as displayed, in the words of the specification:
    orientation 3 is a turn of 180 degrees, 6 of 270, 8 of 90, with the
    canvas expanded; anything else leaves the image alone. *)
Definition oriented `{codec : ImageCodec} (exif : gmap Z ExifValue)
    (image : Image) : Image :=
  match exif !! 0x0112 with
  | Some (EInt 3) => rotate image 180 true
  | Some (EInt 6) => rotate image 270 true
  | Some (EInt 8) => rotate image 90 true
  | _ => image
  end.

(** The tag set is absent or has no capture time. *)
Definition lacks_time `{codec : ImageCodec} (image : Image) : Prop :=
  match getexif image with
  | Some exif => exif !! 0x0132 = None
  | None => True
  end.

(** [d.get(k)] on a dictionary that keeps insertion order. *)
Fixpoint dict_get {V : Type} (k : string) (d : list (string * V))
    : option V :=
  match d with
  | [] => None
  | (k', v) :: d' => if String.eqb k k' then Some v else dict_get k d'
  end.

(** The metadata of the file at [f], when it decodes and carries a
    capture time that parses. *)
Definition meta_of `{codec : ImageCodec} (fs : FS) (f : Path)
    : option PhotoMeta :=
  match node_at fs f with
  | Some (File b) =>
      match image_decode b with
      | Some im =>
          match getexif im with
          | Some exif =>
              match exif !! 0x0132 with
              | Some datestr =>
                  match parse_time datestr with
                  | Ok t =>
                      let o := oriented exif im in
                      Some (mkMeta (height o, width o) t (path_name f))
                  | Raise _ => None
                  end
              | None => None
              end
          | None => None
          end
      | None => None
      end
  | _ => None
  end.

(** The file at [f] decodes, and its capture time, if it has one,
    parses. *)
Definition processable `{codec : ImageCodec} (fs : FS) (f : Path) : Prop :=
  exists b im,
    node_at fs f = Some (File b) /\ image_decode b = Some im /\
    (lacks_time im \/
     exists exif datestr t,
       getexif im = Some exif /\ exif !! 0x0132 = Some datestr /\
       parse_time datestr = Ok t).

Definition variant_names : list string := map fst variants.

(** Every entry of the file system lies in a directory. *)
Definition consistent (fs : FS) : Prop :=
  forall c p, is_Some (fs !! (c :: p)) -> is_dir fs p = true.

(** Nothing is in the way below [a/_generated] of the photos whose names
    are [saved] and of the manifest: no file on the way to [_generated];
    when a photo is saved, no file where a variant directory has to be
    and no directory where a variant of that photo has to be; no
    directory where the manifest has to be. *)
Definition generated_free (saved : string -> Prop) (fs : FS) (a : Path)
    : Prop :=
  (forall q x, q `suffix_of` ("_generated" :: a) ->
               node_at fs q <> Some (File x)) /\
  (forall n v x, saved n -> v ∈ variant_names ->
               node_at fs (v :: "_generated" :: a) <> Some (File x)) /\
  (forall n v, saved n -> v ∈ variant_names ->
               node_at fs (n :: v :: "_generated" :: a) <> Some Dir) /\
  node_at fs ("metas.json" :: "_generated" :: a) <> Some Dir.

(** The photo called [n] is one that the run saves: it is listed and it
    has a capture time that parses. *)
Definition is_saved `{codec : ImageCodec} (fs : FS) (a : Path) (n : string)
    : Prop :=
  (n :: "source" :: a) ∈ jpg_entries ("source" :: a) fs /\
  is_Some (meta_of fs (n :: "source" :: a)).

(** [fs'] is [fs] after some photos of [a/source] were processed: new
    directories on the way to a variant directory, and files in the
    variant directories. *)
Definition extends (a : Path) (fs fs' : FS) : Prop :=
  forall q,
    node_at fs' q = node_at fs q \/
    (node_at fs q = None /\ node_at fs' q = Some Dir /\
     exists v, v ∈ variant_names /\ q `suffix_of` (v :: "_generated" :: a)) \/
    (exists n v b, v ∈ variant_names /\ q = n :: v :: "_generated" :: a /\
                   node_at fs' q = Some (File b)).

(** The log record of a skipped photo. *)
Definition skip_record (f : Path) : LogRecord :=
  mkLog ERROR (path_str f ++ " SKIPPED: Time not found in EXIF").

(** The order of [sorted]: by key, not decreasing. *)
Definition key_le {A : Type} (key : A -> string) (x y : A) : Prop :=
  String.le (key x) (key y).

(** A number prints as two (four) digits that read back as the number. *)
Definition two_digits (n : Z) : bool :=
  match fmt_d0 2 n with
  | String c1 (String c2 EmptyString) =>
      is_digit c1 && is_digit c2
      && match py_int (fmt_d0 2 n) with Ok m => m =? n | Raise _ => false end
  | _ => false
  end.

Definition four_digits (n : Z) : bool :=
  match fmt_d0 4 n with
  | String c1 (String c2 (String c3 (String c4 EmptyString))) =>
      is_digit c1 && is_digit c2 && is_digit c3 && is_digit c4
      && match py_int (fmt_d0 4 n) with Ok m => m =? n | Raise _ => false end
  | _ => false
  end.

(** The action [m] leaves what is at [q] as it is, whatever it
    returns. *)
Definition preserves {A : Type} (q : Path) (m : M A) : Prop :=
  forall fs, node_at (fs_after (m fs)) q = node_at fs q.

(** The whole of [s] matches the format of the capture time, as
    [strptime] matches it. *)
Definition matches_pattern (s : string) : bool :=
  match compile_format false "%Y:%m:%d %H:%M:%S" with
  | Some r =>
      match re_match r s [] (fun t g => Some (t, g)) with
      | Some (EmptyString, _) => true
      | _ => false
      end
  | None => false
  end.

Definition time_matches (datestr : ExifValue) : bool :=
  match datestr with
  | EStr s => matches_pattern s
  | _ => false
  end.

(** What [strptime] raises on a value that does not match. *)
Definition mismatch_error (datestr : ExifValue) : Exc :=
  match datestr with
  | EStr _ => ValueError
  | _ => TypeError
  end.

(** The fields that the directives of the format accept when they are
    zero-padded: a year of four digits, a month, a day up to 31, an
    hour, a minute, and a second up to 61. *)
Definition in_format (y mo d h mi s : Z) : Prop :=
  0 <= y <= 9999 /\ 1 <= mo <= 12 /\ 1 <= d <= 31 /\
  0 <= h <= 23 /\ 0 <= mi <= 59 /\ 0 <= s <= 61.

(** Lexicographic comparison. *)
Definition then_cmp (c1 c2 : comparison) : comparison :=
  match c1 with
  | Eq => c2
  | _ => c1
  end.

(** The order of two instants of the same zone, field by field. *)
Definition chrono_compare (y1 mo1 d1 h1 mi1 s1 y2 mo2 d2 h2 mi2 s2 : Z)
    : comparison :=
  then_cmp (y1 ?= y2) (then_cmp (mo1 ?= mo2) (then_cmp (d1 ?= d2)
    (then_cmp (h1 ?= h2) (then_cmp (mi1 ?= mi2) (s1 ?= s2))))).

(** Pairs of two-digit numbers: they print in the order of the
    numbers. *)
Definition two_digits_ordered (nm : Z * Z) : bool :=
  match String.compare (fmt_d0 2 (fst nm)) (fmt_d0 2 (snd nm)),
        (fst nm ?= snd nm) with
  | Eq, Eq | Lt, Lt | Gt, Gt => true
  | _, _ => false
  end.

(** Four digits are two and two. *)
Definition four_is_two_two (n : Z) : bool :=
  String.eqb (fmt_d0 4 n) (fmt_d0 2 (n / 100) ++ fmt_d0 2 (n mod 100)).

(** Nothing of [fs] is gone in [fs']: a directory is still a directory,
    a file is still a file (its bytes may have changed). *)
Definition persists (fs fs' : FS) : Prop :=
  forall q,
    match node_at fs q with
    | Some Dir => node_at fs' q = Some Dir
    | Some (File _) => exists b, node_at fs' q = Some (File b)
    | None => True
    end.

(** The action [m] removes nothing, whatever it returns. *)
Definition keeps {A : Type} (m : M A) : Prop :=
  forall fs, persists fs (fs_after (m fs)).

(** The variant [v] of the photo called [n] is stored below [a]: its
    directory is there and the file has the digest of [bytes]. *)
Definition stored (md5 : list byte -> list byte) (fs : FS) (a : Path)
    (n v : string) (bytes : list byte) : Prop :=
  is_dir fs (v :: "_generated" :: a) = true /\
  exists b, node_at fs (n :: v :: "_generated" :: a) = Some (File b) /\
            md5 bytes = md5 b.

(** The record of a variant that is already there. *)
Definition skipping_record (dest : Path) : LogRecord :=
  mkLog INFO ("Skipping " ++ path_str dest ++ " (File unchanged)").

(** The action [m] changes nothing that is there: it may add entries. *)
Definition adds_only {A : Type} (m : M A) : Prop :=
  forall fs q,
    node_at fs q <> None -> node_at (fs_after (m fs)) q = node_at fs q.

(** The action [m] changes nothing that is there and not below [g]. *)
Definition changes_only_below {A : Type} (g : Path) (m : M A) : Prop :=
  forall fs q,
    ~ g `suffix_of` q -> node_at fs q <> None ->
    node_at (fs_after (m fs)) q = node_at fs q.

(** The records of the end of a run over [n] files. *)
Definition count_record (n : nat) : LogRecord :=
  mkLog INFO (str_of_Z (Z.of_nat n) ++ " photos processed").

Definition manifest_record (a : Path) : LogRecord :=
  mkLog INFO
    ("Saving meta to " ++ path_str ("metas.json" :: "_generated" :: a)).

(** A capture time whose month, day, hour, minute and second are written
    without a leading zero. *)
Definition loose_time (y mo d h mi s : Z) : string :=
  fmt_d0 4 y ++ ":" ++ str_of_Z mo ++ ":" ++ str_of_Z d ++ " "
    ++ str_of_Z h ++ ":" ++ str_of_Z mi ++ ":" ++ str_of_Z s.

(** A number prints as digits that read back as the number. *)
Definition reads_back (n : Z) : bool :=
  match py_int (str_of_Z n) with Ok m => m =? n | Raise _ => false end.

(** ** Files for the examples *)
Module Demo.

Definition photo (h w o : byte) (t : string) : list byte :=
  h :: w :: o :: list_byte_of_string t.

Definition args : Args := mkArgs ["assets"] 85 2.

Definition a_jpg : Path := ["a.jpg"; "source"; "assets"].
Definition b_jpg : Path := ["b.jpg"; "source"; "assets"].
Definition c_jpg : Path := ["c.jpg"; "source"; "assets"].

(** [a.jpg]: 3 high, 4 wide, orientation 6, taken on May 2;
    [b.jpg]: orientation 1, taken on May 1; [c.jpg]: no capture time. *)
Definition a_bytes : list byte := photo x03 x04 x06 "2023:05:02 09:00:00".
Definition b_bytes : list byte := photo x03 x04 x01 "2023:05:01 10:00:00".
Definition c_bytes : list byte := photo x03 x04 x01 "".

Definition photos : FS :=
  list_to_map
    [ (["assets"], Dir);
      (["source"; "assets"], Dir);
      (a_jpg, File a_bytes);
      (b_jpg, File b_bytes);
      (c_jpg, File c_bytes) ].

(** A source directory whose only file is not an image. *)
Definition corrupt : FS :=
  list_to_map
    [ (["assets"], Dir);
      (["source"; "assets"], Dir);
      (a_jpg, File []) ].

(** A photo whose capture time is written with dashes. *)
Definition dashed : FS :=
  list_to_map
    [ (["assets"], Dir);
      (["source"; "assets"], Dir);
      (a_jpg, File (photo x03 x04 x01 "2023-05-01 10:00:00")) ].

(** The three photos, and an output tree that holds a directory that is
    in the way of none of them. *)
Definition cluttered : FS :=
  list_to_map
    [ (["assets"], Dir);
      (["source"; "assets"], Dir);
      (a_jpg, File a_bytes);
      (b_jpg, File b_bytes);
      (c_jpg, File c_bytes);
      (["_generated"; "assets"], Dir);
      (["xs"; "_generated"; "assets"], Dir);
      (["unrelated"; "xs"; "_generated"; "assets"], Dir) ].

(** A photo whose capture time is written without leading zeros. *)
Definition unpadded : FS :=
  list_to_map
    [ (["assets"], Dir);
      (["source"; "assets"], Dir);
      (a_jpg, File (photo x03 x04 x01 "2023:5:1 9:0:0")) ].

(** A source directory whose only photo has no capture time, and no
    output tree yet. *)
Definition untimed : FS :=
  list_to_map
    [ (["assets"], Dir);
      (["source"; "assets"], Dir);
      (c_jpg, File c_bytes) ].

(** A source directory without photos, and no output tree yet. *)
Definition empty_source : FS :=
  list_to_map [ (["assets"], Dir); (["source"; "assets"], Dir) ].

(** The output directory of the [xs] variant exists and holds an older
    [a.jpg]. *)
Definition xs_a_jpg : Path := ["a.jpg"; "xs"; "_generated"; "assets"].

Definition with_old_variant : FS :=
  list_to_map
    [ (["assets"], Dir);
      (["_generated"; "assets"], Dir);
      (["xs"; "_generated"; "assets"], Dir);
      (xs_a_jpg, File [x01; x02]) ].

Definition a_image : Raster.t :=
  Raster.mk 3 4 None (list_byte_of_string "2023:05:02 09:00:00").

(** The three photos, decoded. *)
Definition a_exif : gmap Z ExifValue :=
  {[ 0x0112 := EInt 6; 0x0132 := EStr "2023:05:02 09:00:00" ]}.
Definition a_decoded : Raster.t :=
  Raster.mk 3 4 (Some a_exif) (list_byte_of_string "2023:05:02 09:00:00").
Definition b_exif : gmap Z ExifValue :=
  {[ 0x0112 := EInt 1; 0x0132 := EStr "2023:05:01 10:00:00" ]}.
Definition b_decoded : Raster.t :=
  Raster.mk 3 4 (Some b_exif) (list_byte_of_string "2023:05:01 10:00:00").
Definition c_decoded : Raster.t :=
  Raster.mk 3 4 (Some {[ 0x0112 := EInt 1 ]}) [].
Definition dashed_exif : gmap Z ExifValue :=
  {[ 0x0112 := EInt 1; 0x0132 := EStr "2023-05-01 10:00:00" ]}.
Definition dashed_decoded : Raster.t :=
  Raster.mk 3 4 (Some dashed_exif)
    (list_byte_of_string "2023-05-01 10:00:00").

Definition a_meta : PhotoMeta :=
  mkMeta (4, 3) "2023-05-02T09:00:00+08:00" "a.jpg".
Definition b_meta : PhotoMeta :=
  mkMeta (3, 4) "2023-05-01T10:00:00+08:00" "b.jpg".

Definition a_processor : @Processor Raster.codec :=
  @mkProcessor Raster.codec a_jpg
    (Some (mkMeta (4, 3) "2023-05-02T09:00:00+08:00" "a.jpg"))
    [("ori", a_image : @Image Raster.codec)].

(** Two photos taken in the same second. *)
Definition burst1 : PhotoMeta :=
  mkMeta (3, 4) "2023-05-01T10:00:00+08:00" "a.jpg".
Definition burst2 : PhotoMeta :=
  mkMeta (3, 4) "2023-05-01T10:00:00+08:00" "b.jpg".

End Demo.

(** * Proofs *)

(** ** Strings *)

Lemma str_app_assoc (a b c : string) :
  ((a ++ b) ++ c = a ++ (b ++ c))%string.
Proof. induction a as [|x a IH]; simpl; [reflexivity | now rewrite IH]. Qed.

Lemma str_app_nil_r (a : string) : (a ++ "")%string = a.
Proof. induction a as [|x a IH]; simpl; [reflexivity | now rewrite IH]. Qed.

Lemma str_length_app (a b : string) :
  String.length (a ++ b)%string
  = (String.length a + String.length b)%nat.
Proof. induction a as [|x a IH]; simpl; [reflexivity | now rewrite IH]. Qed.

Lemma take_str_app (a b : string) :
  take_str (String.length (a ++ b)%string - String.length b)
    (a ++ b)%string = a.
Proof.
  rewrite str_length_app.
  replace (String.length a + String.length b - String.length b)%nat
    with (String.length a) by lia.
  induction a as [|x a IH]; simpl.
  - destruct b; reflexivity.
  - now rewrite IH.
Qed.

(** ** Bounded case analysis *)

Lemma Z_range_forallb (P : Z -> bool) (n : Z) :
  forallb P (map Z.of_nat (seq 0 (Z.to_nat n))) = true ->
  forall z, 0 <= z < n -> P z = true.
Proof.
  intros H z Hz.
  rewrite forallb_forall in H. apply H.
  apply in_map_iff. exists (Z.to_nat z). split; [lia|].
  apply in_seq. lia.
Qed.

(** ** Decimal fields *)

Lemma two_digits_ok n : 0 <= n <= 99 -> two_digits n = true.
Proof.
  intros Hn. apply (Z_range_forallb two_digits 100); [|lia].
  vm_compute. reflexivity.
Qed.

Lemma four_digits_ok n : 0 <= n <= 9999 -> four_digits n = true.
Proof.
  intros Hn. apply (Z_range_forallb four_digits 10000); [|lia].
  vm_compute. reflexivity.
Qed.

Lemma py_int_fmt2 n : 0 <= n <= 99 -> py_int (fmt_d0 2 n) = Ok n.
Proof.
  intros Hn. pose proof (two_digits_ok n Hn) as H. unfold two_digits in H.
  destruct (fmt_d0 2 n) as [|c1 [|c2 [|]]]; try discriminate.
  destruct (py_int _) as [m|]; [|now rewrite andb_false_r in H].
  apply andb_prop in H as [_ H]. apply Z.eqb_eq in H. now subst.
Qed.

Lemma py_int_fmt4 n : 0 <= n <= 9999 -> py_int (fmt_d0 4 n) = Ok n.
Proof.
  intros Hn. pose proof (four_digits_ok n Hn) as H. unfold four_digits in H.
  destruct (fmt_d0 4 n) as [|c1 [|c2 [|c3 [|c4 [|]]]]]; try discriminate.
  destruct (py_int _) as [m|]; [|now rewrite andb_false_r in H].
  apply andb_prop in H as [_ H]. apply Z.eqb_eq in H. now subst.
Qed.

Lemma digit_not_space c : is_digit c = true -> is_space c = false.
Proof.
  unfold is_digit, is_space. intros H.
  apply andb_prop in H as [H1 H2].
  apply N.leb_le in H1. apply N.leb_le in H2.
  repeat match goal with
  | |- context [(?a =? ?b)%N] => destruct (N.eqb_spec a b); [lia|]
  | |- context [(?a <=? ?b)%N] => destruct (N.leb_spec a b); try lia
  end; reflexivity.
Qed.

Lemma fmt2_chars n : 0 <= n <= 99 ->
  exists c1 c2, fmt_d0 2 n = String c1 (String c2 EmptyString) /\
                is_digit c1 = true /\ is_digit c2 = true.
Proof.
  intros Hn. pose proof (two_digits_ok n Hn) as H. unfold two_digits in H.
  destruct (fmt_d0 2 n) as [|c1 [|c2 [|]]]; try discriminate.
  exists c1, c2.
  apply andb_prop in H as [H _]. apply andb_prop in H as [H1 H2]. auto.
Qed.

Lemma fmt4_chars n : 0 <= n <= 9999 ->
  exists c1 c2 c3 c4,
    fmt_d0 4 n = String c1 (String c2 (String c3 (String c4 EmptyString))) /\
    is_digit c1 = true /\ is_digit c2 = true /\
    is_digit c3 = true /\ is_digit c4 = true.
Proof.
  intros Hn. pose proof (four_digits_ok n Hn) as H. unfold four_digits in H.
  destruct (fmt_d0 4 n) as [|c1 [|c2 [|c3 [|c4 [|]]]]]; try discriminate.
  exists c1, c2, c3, c4.
  apply andb_prop in H as [H _]. apply andb_prop in H as [H H4].
  apply andb_prop in H as [H H3]. apply andb_prop in H as [H1 H2]. auto.
Qed.

(** ** The directives on zero-padded fields *)

Section Fields.

Context {R : Type}.
Implicit Types (k : string -> Groups -> option R) (g : Groups).

(** A group records the text it consumed. *)
Lemma re_match_group d r pre rest g k x :
  (forall k', k' rest g = Some x ->
              re_match r (pre ++ rest)%string g k' = Some x) ->
  k rest ((d, pre) :: g) = Some x ->
  re_match (Grp d r) (pre ++ rest)%string g k = Some x.
Proof.
  intros Hr Hk. simpl. apply Hr. now rewrite take_str_app.
Qed.

Ltac by_value n :=
  let m := fresh "m" in
  let Hm := fresh "Hm" in
  assert (exists m, n = Z.of_nat m)
    as [m Hm] by (exists (Z.to_nat n); lia);
  subst n.

Ltac this_value H :=
  first [ exfalso; lia
        | cbv; exact H
        | cbv; rewrite H; reflexivity ].

Lemma match_Y y rest g k x r :
  directive "Y" = Some r -> 0 <= y <= 9999 ->
  k rest (("Y"%char, fmt_d0 4 y) :: g) = Some x ->
  re_match (Grp "Y" r) (fmt_d0 4 y ++ rest)%string g k = Some x.
Proof.
  intros Hd Hy Hk. injection Hd as <-.
  apply re_match_group; [|exact Hk].
  intros k' Hk'.
  destruct (fmt4_chars y Hy) as (c1 & c2 & c3 & c4 & -> & H1 & H2 & H3 & H4).
  simpl. unfold digit. simpl. now rewrite H1, H2, H3, H4.
Qed.

Lemma match_m n rest g k x r :
  directive "m" = Some r -> 1 <= n <= 12 ->
  k rest (("m"%char, fmt_d0 2 n) :: g) = Some x ->
  re_match (Grp "m" r) (fmt_d0 2 n ++ rest)%string g k = Some x.
Proof.
  intros Hd Hn Hk. injection Hd as <-.
  apply re_match_group; [|exact Hk].
  clear Hk. intros k' Hk'. by_value n.
  do 13 (destruct m as [|m]; [this_value Hk'|]). lia.
Qed.

Lemma match_d n rest g k x r :
  directive "d" = Some r -> 1 <= n <= 31 ->
  k rest (("d"%char, fmt_d0 2 n) :: g) = Some x ->
  re_match (Grp "d" r) (fmt_d0 2 n ++ rest)%string g k = Some x.
Proof.
  intros Hd Hn Hk. injection Hd as <-.
  apply re_match_group; [|exact Hk].
  clear Hk. intros k' Hk'. by_value n.
  do 32 (destruct m as [|m]; [this_value Hk'|]). lia.
Qed.

Lemma match_H n rest g k x r :
  directive "H" = Some r -> 0 <= n <= 23 ->
  k rest (("H"%char, fmt_d0 2 n) :: g) = Some x ->
  re_match (Grp "H" r) (fmt_d0 2 n ++ rest)%string g k = Some x.
Proof.
  intros Hd Hn Hk. injection Hd as <-.
  apply re_match_group; [|exact Hk].
  clear Hk. intros k' Hk'. by_value n.
  do 24 (destruct m as [|m]; [this_value Hk'|]). lia.
Qed.

Lemma match_M n rest g k x r :
  directive "M" = Some r -> 0 <= n <= 59 ->
  k rest (("M"%char, fmt_d0 2 n) :: g) = Some x ->
  re_match (Grp "M" r) (fmt_d0 2 n ++ rest)%string g k = Some x.
Proof.
  intros Hd Hn Hk. injection Hd as <-.
  apply re_match_group; [|exact Hk].
  clear Hk. intros k' Hk'. by_value n.
  do 60 (destruct m as [|m]; [this_value Hk'|]). lia.
Qed.

Lemma match_S n rest g k x r :
  directive "S" = Some r -> 0 <= n <= 59 ->
  k rest (("S"%char, fmt_d0 2 n) :: g) = Some x ->
  re_match (Grp "S" r) (fmt_d0 2 n ++ rest)%string g k = Some x.
Proof.
  intros Hd Hn Hk. injection Hd as <-.
  apply re_match_group; [|exact Hk].
  clear Hk. intros k' Hk'. by_value n.
  do 60 (destruct m as [|m]; [this_value Hk'|]). lia.
Qed.

(** The blank of the format, in front of a digit. *)
Lemma match_blank n rest g k x :
  0 <= n <= 99 ->
  k (fmt_d0 2 n ++ rest)%string g = Some x ->
  re_match (Plus is_space) (" " ++ fmt_d0 2 n ++ rest)%string g k = Some x.
Proof.
  intros Hn Hk.
  destruct (fmt2_chars n Hn) as (c1 & c2 & E & H1 & _).
  rewrite E in *. simpl. change (is_space " ") with true. simpl.
  now rewrite (digit_not_space c1 H1).
Qed.

Lemma re_match_cat r1 r2 s g k :
  re_match (Cat r1 r2) s g k
  = re_match r1 s g (fun t g' => re_match r2 t g' k).
Proof. reflexivity. Qed.

Lemma re_match_lit c s g k :
  re_match (Lit c) (String c EmptyString ++ s)%string g k = k s g.
Proof. simpl. now rewrite Ascii.eqb_refl. Qed.

Lemma re_match_eps s g k : re_match Eps s g k = k s g.
Proof. reflexivity. Qed.

End Fields.

(** ** [strptime] and [parse_time] on a capture time *)

Lemma days_in_month_le y mo : days_in_month y mo <= 31.
Proof.
  unfold days_in_month.
  repeat match goal with |- context [if ?b then _ else _] => destruct b end;
    lia.
Qed.

Lemma datetime_new_ok y mo d h mi s :
  valid_fields y mo d h mi s ->
  datetime_new y mo d h mi s 0 = Ok (mkDatetime y mo d h mi s 0 None).
Proof.
  intros (Hy & Hmo & Hd & Hh & Hmi & Hs). unfold datetime_new.
  repeat match goal with
  | |- context [negb (?a && ?b)] =>
      replace (a && b) with true
        by (symmetry; apply andb_true_intro; split; apply Z.leb_le; lia);
      cbn [negb]
  end.
  reflexivity.
Qed.

Lemma strptime_exif_time y mo d h mi s :
  valid_fields y mo d h mi s ->
  strptime (exif_time y mo d h mi s) "%Y:%m:%d %H:%M:%S"
  = Ok (mkDatetime y mo d h mi s 0 None).
Proof.
  intros Hv. pose proof Hv as (Hy & Hmo & Hd & Hh & Hmi & Hs).
  pose proof (days_in_month_le y mo) as Hdm.
  unfold strptime.
  change (compile_format false "%Y:%m:%d %H:%M:%S") with
    (match directive "Y", directive "m", directive "d",
           directive "H", directive "M", directive "S" with
     | Some rY, Some rm, Some rd, Some rH, Some rM, Some rS =>
         Some (Cat (Grp "Y" rY) (Cat (Lit ":") (Cat (Grp "m" rm)
              (Cat (Lit ":") (Cat (Grp "d" rd) (Cat (Plus is_space)
              (Cat (Grp "H" rH) (Cat (Lit ":") (Cat (Grp "M" rM)
              (Cat (Lit ":") (Cat (Grp "S" rS) Eps)))))))))))
     | _, _, _, _, _, _ => None
     end).
  destruct (directive "Y") as [rY|] eqn:EY; [|discriminate EY].
  destruct (directive "m") as [rm|] eqn:Em; [|discriminate Em].
  destruct (directive "d") as [rd|] eqn:Ed; [|discriminate Ed].
  destruct (directive "H") as [rH|] eqn:EH; [|discriminate EH].
  destruct (directive "M") as [rM|] eqn:EM; [|discriminate EM].
  destruct (directive "S") as [rS|] eqn:ES; [|discriminate ES].
  assert (re_match
    (Cat (Grp "Y" rY) (Cat (Lit ":") (Cat (Grp "m" rm)
      (Cat (Lit ":") (Cat (Grp "d" rd) (Cat (Plus is_space)
      (Cat (Grp "H" rH) (Cat (Lit ":") (Cat (Grp "M" rM)
      (Cat (Lit ":") (Cat (Grp "S" rS) Eps)))))))))))
    (exif_time y mo d h mi s) []
    (fun t g => Some (t, g))
    = Some (EmptyString,
            [("S"%char, fmt_d0 2 s); ("M"%char, fmt_d0 2 mi);
             ("H"%char, fmt_d0 2 h); ("d"%char, fmt_d0 2 d);
             ("m"%char, fmt_d0 2 mo); ("Y"%char, fmt_d0 4 y)])) as ->.
  { unfold exif_time.
    rewrite re_match_cat. apply match_Y; [assumption | lia |].
    cbv beta. rewrite re_match_cat, re_match_lit, re_match_cat.
    apply match_m; [assumption | lia |].
    cbv beta. rewrite re_match_cat, re_match_lit, re_match_cat.
    apply match_d; [assumption | lia |].
    cbv beta. rewrite re_match_cat.
    apply match_blank; [lia|].
    rewrite re_match_cat. apply match_H; [assumption | lia |].
    cbv beta. rewrite re_match_cat, re_match_lit, re_match_cat.
    apply match_M; [assumption | lia |].
    cbv beta. rewrite re_match_cat, re_match_lit, re_match_cat.
    rewrite <- (str_app_nil_r (fmt_d0 2 s)) at 1.
    apply match_S; [assumption | lia |].
    reflexivity. }
  unfold field. cbn [group Ascii.eqb Bool.eqb].
  rewrite (py_int_fmt4 y) by lia.
  rewrite !py_int_fmt2 by lia.
  cbn [rbind]. now apply datetime_new_ok.
Qed.

(** C5, as the script has it: a capture time [YYYY:MM:DD HH:MM:SS] whose
    fields are a date of the calendar (a year from 1 to 9999, a month, a
    day of that month) and a time of day (a second up to 59) is parsed,
    put in the zone UTC+8 and rendered in ISO 8601 as
    [YYYY-MM-DDTHH:MM:SS+08:00]. *)
Theorem parse_time_iso8601 y mo d h mi s :
  valid_fields y mo d h mi s ->
  parse_time (EStr (exif_time y mo d h mi s))
  = Ok (iso_time y mo d h mi s).
Proof.
  intros Hv. unfold parse_time.
  rewrite (strptime_exif_time _ _ _ _ _ _ Hv). cbn [rbind tzinfo].
  unfold isoformat, replace_tzinfo, format_time, iso_time.
  cbn [year month day hour minute second microsecond tzinfo].
  change (0 =? 0) with true. cbv iota.
  change (format_offset (Some (8 * 3600))) with "+08:00".
  f_equal. rewrite !str_app_assoc. reflexivity.
Qed.

Lemma parse_time_iso8601_witness :
  valid_fields 2023 5 1 10 0 0 /\
  parse_time (EStr "2023:05:01 10:00:00") = Ok "2023-05-01T10:00:00+08:00".
Proof.
  assert (Hv : valid_fields 2023 5 1 10 0 0).
  { unfold valid_fields. vm_compute. intuition discriminate. }
  split; [exact Hv|].
  exact (parse_time_iso8601 2023 5 1 10 0 0 Hv).
Defined.

(** C5 as stated fails: a value in the pattern [YYYY:MM:DD HH:MM:SS]
    whose fields are not a date of the calendar, here February 30, is
    not rendered at all: [parse_time] raises [ValueError]. *)
Lemma pattern_without_calendar_date_raises :
  exif_time 2023 2 30 10 0 0 = "2023:02:30 10:00:00" /\
  parse_time (EStr "2023:02:30 10:00:00") = Raise ValueError.
Proof. split; vm_compute; reflexivity. Qed.

(** ** The file system primitives *)

Lemma path_exists_eq p fs :
  path_exists p fs
  = mkOutcome (Ok (match node_at fs p with Some _ => true | None => false end))
      fs [].
Proof.
  unfold path_exists. f_equal. f_equal.
  destruct (node_at fs p); [apply bool_decide_eq_true_2; eauto|].
  apply bool_decide_eq_false_2. intros [x Hx]. discriminate.
Qed.

Lemma node_at_insert fs p q x :
  p <> [] ->
  node_at (<[p := x]> fs) q = if decide (p = q) then Some x else node_at fs q.
Proof.
  intros Hp. unfold node_at. destruct q as [|c q].
  - destruct (decide (p = [])); [contradiction | reflexivity].
  - apply lookup_insert.
Qed.

Lemma write_bytes_ok p b fs :
  is_dir fs (parent p) = true -> node_at fs p <> Some Dir ->
  write_bytes p b fs = mkOutcome (Ok tt) (<[p := File b]> fs) [].
Proof.
  unfold write_bytes, is_dir. intros Hpar Hp.
  destruct (node_at fs p) as [[|]|]; try contradiction;
    destruct (node_at fs (parent p)) as [[|]|]; try discriminate; reflexivity.
Qed.

(** ** The writer *)

Section Writer.

Context `{codec : ImageCodec}.
Variable md5 : list byte -> list byte.
Variable args : Args.

(** The writer, case by case. *)
Lemma save_file_eq self dest image fs m :
  meta self = Some m ->
  is_dir fs (parent dest) = true ->
  let buffer := save_jpeg image true (quality args) in
  let saving :=
    mkLog INFO ("Saving " ++ path_str dest ++ " [" ++ time m ++ "]") in
  _save_file md5 args self dest image fs =
  match node_at fs dest with
  | None => mkOutcome (Ok tt) (<[dest := File buffer]> fs) [saving]
  | Some (File old) =>
      if decide (md5 buffer = md5 old) then
        mkOutcome (Ok tt) fs
          [mkLog INFO ("Skipping " ++ path_str dest ++ " (File unchanged)")]
      else
        mkOutcome (Ok tt) (<[dest := File buffer]> fs)
          [mkLog INFO (path_str dest ++ " TRUNCATED"); saving]
  | Some Dir => mkOutcome (Raise IsADirectoryError) fs []
  end.
Proof.
  intros Hm Hpar buffer saving. subst buffer saving.
  unfold _save_file. cbv zeta. unfold bind at 1.
  rewrite path_exists_eq.
  destruct (node_at fs dest) as [[old|]|] eqn:Hd.
  - unfold bind at 1, read_bytes. rewrite Hd.
    destruct (decide (_ = md5 old)) as [Heq|Hne].
    + reflexivity.
    + rewrite Hm. unfold bind, logger_info, ret.
      rewrite write_bytes_ok by (assumption || congruence). reflexivity.
  - unfold bind at 1, read_bytes. rewrite Hd. reflexivity.
  - rewrite Hm. unfold bind, logger_info, ret.
    rewrite write_bytes_ok by (assumption || congruence). reflexivity.
Qed.

End Writer.

(** ** Opening an image *)

Section Opening.

Context `{codec : ImageCodec}.

Lemma Image_open_eq p fs :
  Image_open p fs =
  match node_at fs p with
  | Some (File b) =>
      match image_decode b with
      | Some im => mkOutcome (Ok im) fs []
      | None => mkOutcome (Raise UnidentifiedImageError) fs []
      end
  | Some Dir => mkOutcome (Raise IsADirectoryError) fs []
  | None => mkOutcome (Raise (missing_error fs p)) fs []
  end.
Proof.
  unfold Image_open, bind, read_bytes.
  destruct (node_at fs p) as [[b|]|]; try reflexivity.
  destruct (image_decode b); reflexivity.
Qed.

Lemma degree_of_cases v :
  degree_of v =
  match v with
  | EInt 3 => Some 180
  | EInt 6 => Some 270
  | EInt 8 => Some 90
  | _ => None
  end.
Proof.
  destruct v as [n| |]; try reflexivity. unfold degree_of, degrees.
  destruct (decide (n = 3)) as [->|H3]; [reflexivity|].
  destruct (decide (n = 6)) as [->|H6]; [reflexivity|].
  destruct (decide (n = 8)) as [->|H8]; [reflexivity|].
  rewrite !lookup_insert_ne, lookup_singleton_ne by congruence.
  destruct n as [|q|q]; try reflexivity.
  repeat (destruct q as [q|q|]; try reflexivity; try congruence).
Qed.

Lemma oriented_eq exif im :
  match exif !! 0x0112 with
  | Some orientation =>
      match degree_of orientation with
      | Some degree => rotate im degree true
      | None => im
      end
  | None => im
  end = oriented exif im.
Proof.
  unfold oriented. destruct (exif !! 0x0112) as [v|]; [|reflexivity].
  rewrite degree_of_cases.
  destruct v as [n| |]; try reflexivity.
  destruct n as [|q|q]; try reflexivity.
  repeat (destruct q as [q|q|]; try reflexivity).
Qed.

(** What [open_image] does, case by case. *)
Lemma open_image_eq self fs :
  open_image self fs =
  let skipped :=
    mkOutcome (Ok self) fs
      [mkLog ERROR
         (path_str (file_path self) ++ " SKIPPED: Time not found in EXIF")] in
  match node_at fs (file_path self) with
  | Some (File b) =>
      match image_decode b with
      | Some im =>
          match getexif im with
          | Some exif =>
              match exif !! 0x0132 with
              | Some datestr =>
                  match parse_time datestr with
                  | Ok t =>
                      let o := oriented exif im in
                      mkOutcome
                        (Ok (mkProcessor (file_path self)
                               (Some (mkMeta (height o, width o) t
                                        (path_name (file_path self))))
                               [("xs", thumbnail (copy o) (10, 10));
                                ("s", thumbnail (copy o) (800, 800));
                                ("ori", o)]))
                        fs []
                  | Raise e => mkOutcome (Raise e) fs []
                  end
              | None => skipped
              end
          | None => skipped
          end
      | None => mkOutcome (Raise UnidentifiedImageError) fs []
      end
  | Some Dir => mkOutcome (Raise IsADirectoryError) fs []
  | None => mkOutcome (Raise (missing_error fs (file_path self))) fs []
  end.
Proof.
  unfold open_image. cbv zeta. unfold bind at 1. rewrite Image_open_eq.
  destruct (node_at fs (file_path self)) as [[b|]|]; try reflexivity.
  destruct (image_decode b) as [im|]; [|reflexivity].
  destruct (getexif im) as [exif|]; [|reflexivity].
  destruct (exif !! 0x0132) as [datestr|]; [|reflexivity].
  unfold bind, lift. destruct (parse_time datestr) as [t|e]; [|reflexivity].
  rewrite oriented_eq. reflexivity.
Qed.

End Opening.

(** ** One file *)

Section OneFile.

Context `{codec : ImageCodec}.
Variable md5 : list byte -> list byte.
Variable args : Args.

Local Abbreviation process := (process_and_get_meta md5 args).

(** A file without capture time: nothing but a log record. *)
Lemma process_skipped f fs b im :
  node_at fs f = Some (File b) ->
  image_decode b = Some im ->
  lacks_time im ->
  process f fs = mkOutcome (Ok None) fs [skip_record f].
Proof.
  intros Hf Hb Hx. unfold process_and_get_meta, Processor_init, bind.
  rewrite open_image_eq. cbn [file_path]. rewrite Hf, Hb.
  unfold lacks_time in Hx.
  destruct (getexif im) as [exif|]; [|reflexivity].
  rewrite Hx. reflexivity.
Qed.


(** A capture time that cannot be parsed: the parser's exception. *)
Lemma process_bad_time f fs b im exif datestr e :
  node_at fs f = Some (File b) ->
  image_decode b = Some im ->
  getexif im = Some exif ->
  exif !! 0x0132 = Some datestr ->
  parse_time datestr = Raise e ->
  process f fs = mkOutcome (Raise e) fs [].
Proof.
  intros Hf Hb Hx Ht He. unfold process_and_get_meta, Processor_init, bind.
  rewrite open_image_eq. cbn [file_path]. now rewrite Hf, Hb, Hx, Ht, He.
Qed.

(** The constructor on a file with a capture time that parses. *)
Lemma Processor_init_ok f fs b im exif datestr t :
  node_at fs f = Some (File b) ->
  image_decode b = Some im ->
  getexif im = Some exif ->
  exif !! 0x0132 = Some datestr ->
  parse_time datestr = Ok t ->
  let o := oriented exif im in
  Processor_init f fs =
  mkOutcome
    (Ok (mkProcessor f
           (Some (mkMeta (height o, width o) t (path_name f)))
           [("xs", thumbnail (copy o) (10, 10));
            ("s", thumbnail (copy o) (800, 800));
            ("ori", o)]))
    fs [].
Proof.
  intros Hf Hb Hx Ht He. unfold Processor_init.
  rewrite open_image_eq. cbn [file_path]. now rewrite Hf, Hb, Hx, Ht, He.
Qed.

(** What a returned record says about the file. *)
Lemma process_returns f fs m :
  res (process f fs) = Ok (Some m) ->
  exists b im exif datestr,
    node_at fs f = Some (File b) /\
    image_decode b = Some im /\
    getexif im = Some exif /\
    exif !! 0x0132 = Some datestr /\
    parse_time datestr = Ok (time m) /\
    hw m = (height (oriented exif im), width (oriented exif im)) /\
    name m = path_name f.
Proof.
  unfold process_and_get_meta, Processor_init, bind.
  rewrite open_image_eq. cbn [file_path].
  destruct (node_at fs f) as [[b|]|]; try discriminate.
  destruct (image_decode b) as [im|] eqn:Hb; [|discriminate].
  destruct (getexif im) as [exif|] eqn:Hx; [|discriminate].
  destruct (exif !! 0x0132) as [datestr|] eqn:Ht; [|discriminate].
  destruct (parse_time datestr) as [t|e] eqn:He; [|discriminate].
  cbn [after_log meta].
  destruct (save _ _ _ _) as [[[]|e] fs' l]; [|discriminate].
  cbn. intros [= <-]. exists b, im, exif, datestr. cbn. auto 10.
Qed.

End OneFile.

(** ** Sorting *)

Section Sorting.

Context {A : Type} (key : A -> string).

Lemma ltb_false_le (a b : string) : String.ltb a b = false -> String.le b a.
Proof.
  unfold String.ltb, String.le, String.leb.
  rewrite (String.compare_antisym a b).
  destruct (String.compare b a); simpl; intros H; (discriminate || exact I).
Qed.

Lemma ltb_true_le (a b : string) : String.ltb a b = true -> String.le a b.
Proof.
  unfold String.ltb, String.le, String.leb.
  destruct (String.compare a b); simpl; intros H; (discriminate || exact I).
Qed.

Lemma ltb_irrefl (a : string) : String.ltb a a = false.
Proof.
  unfold String.ltb.
  assert (String.compare a a = Eq) as ->.
  { induction a as [|c a IH]; simpl; [reflexivity|].
    unfold Ascii.compare. now rewrite N.compare_refl. }
  reflexivity.
Qed.

Lemma key_le_trans x y z : key_le key x y -> key_le key y z -> key_le key x z.
Proof. unfold key_le. intros H1 H2. now transitivity (key y). Qed.

Lemma insert_by_perm x l : Permutation (insert_by key x l) (x :: l).
Proof.
  induction l as [|y l IH]; simpl; [reflexivity|].
  destruct (String.ltb (key y) (key x)); [|reflexivity].
  rewrite IH. apply perm_swap.
Qed.

Lemma sorted_perm l : Permutation (sorted key l) l.
Proof.
  induction l as [|x l IH]; simpl; [reflexivity|].
  unfold sorted in *. simpl. rewrite insert_by_perm. now constructor.
Qed.

Lemma insert_by_sorted x l :
  StronglySorted (key_le key) l -> StronglySorted (key_le key) (insert_by key x l).
Proof.
  induction 1 as [|y l Hs IH Hy]; simpl.
  - repeat constructor.
  - destruct (String.ltb (key y) (key x)) eqn:E.
    + constructor; [exact IH|].
      apply Forall_forall. intros z Hz.
      rewrite (insert_by_perm x l) in Hz.
      apply elem_of_cons in Hz as [-> | Hz].
      * now apply ltb_true_le.
      * rewrite Forall_forall in Hy. now apply Hy.
    + apply ltb_false_le in E. constructor.
      * now constructor.
      * constructor; [exact E|].
        apply Forall_forall. intros z Hz. rewrite Forall_forall in Hy.
        apply key_le_trans with y; [exact E | now apply Hy].
Qed.

Lemma sorted_sorted l : StronglySorted (key_le key) (sorted key l).
Proof.
  induction l as [|x l IH]; [constructor|].
  unfold sorted in *. simpl. now apply insert_by_sorted.
Qed.

(** Stability: the elements with one key keep their order. *)
Lemma insert_by_stable t x l :
  filter (fun z => key z = t) (insert_by key x l)
  = filter (fun z => key z = t) (x :: l).
Proof.
  induction l as [|y l IH]; simpl; [reflexivity|].
  destruct (String.ltb (key y) (key x)) eqn:E; [|reflexivity].
  rewrite filter_cons, IH, !filter_cons.
  destruct (decide (key y = t)) as [Hy|Hy]; [|reflexivity].
  destruct (decide (key x = t)) as [Hx|Hx]; [|reflexivity].
  rewrite Hy, Hx, ltb_irrefl in E. discriminate.
Qed.

Lemma sorted_stable t l :
  filter (fun z => key z = t) (sorted key l) = filter (fun z => key z = t) l.
Proof.
  induction l as [|x l IH]; [reflexivity|].
  unfold sorted in *. simpl. rewrite insert_by_stable, !filter_cons.
  now rewrite IH.
Qed.

(** Two sorted arrangements of the same elements agree when no two
    elements have the same key. *)
Lemma sorted_unique l1 l2 :
  StronglySorted (key_le key) l1 -> StronglySorted (key_le key) l2 ->
  Permutation l1 l2 -> NoDup (map key l1) -> l1 = l2.
Proof.
  intros H1. revert l2.
  induction H1 as [|x l1 Hs IH Hx]; intros l2 H2 Hp Hn.
  - apply Permutation_nil in Hp. now subst.
  - destruct H2 as [|y l2 Hs2 Hy].
    { symmetry in Hp. now apply Permutation_nil in Hp. }
    assert (x = y) as <-.
    { assert (Hxin : x ∈ y :: l2) by (rewrite <- Hp; left).
      assert (Hyin : y ∈ x :: l1) by (rewrite Hp; left).
      apply elem_of_cons in Hxin as [E | Hxin]; [exact E|].
      apply elem_of_cons in Hyin as [E | Hyin]; [now symmetry|].
      rewrite Forall_forall in Hx, Hy.
      assert (Hk : key x = key y).
      { apply (anti_symm String.le); [now apply Hx | now apply Hy]. }
      exfalso. simpl in Hn. apply NoDup_cons in Hn as [Hn _].
      apply Hn. rewrite Hk. now apply list_elem_of_fmap_2. }
    f_equal. apply IH; [exact Hs2 | now apply Permutation_cons_inv in Hp |].
    simpl in Hn. now apply NoDup_cons in Hn as [_ Hn].
Qed.

Lemma sorted_permutation_invariant l l' :
  Permutation l l' -> NoDup (map key l) -> sorted key l' = sorted key l.
Proof.
  intros Hp Hn. apply sorted_unique.
  - apply sorted_sorted.
  - apply sorted_sorted.
  - now rewrite !sorted_perm.
  - assert (Hm : Permutation (map key (sorted key l')) (map key l))
      by (apply Permutation_map; now rewrite sorted_perm).
    now rewrite Hm.
Qed.

End Sorting.

Lemma not_none_perm {A : Type} (l l' : list (option A)) :
  Permutation l l' -> Permutation (not_none l) (not_none l').
Proof.
  unfold not_none.
  induction 1 as [|x l l' H IH|x y l|l l' l'' H1 IH1 H2 IH2]; simpl.
  - constructor.
  - destruct x; simpl; [now constructor | exact IH].
  - destruct x, y; simpl; try reflexivity. apply perm_swap.
  - now transitivity (omap id l').
Qed.

(** ** Making directories *)

Lemma suffix_length_lt (p q : Path) c : ~ (c :: q) `suffix_of` q.
Proof. intros H. apply suffix_length in H. simpl in H. lia. Qed.

Lemma os_mkdir_fresh p fs :
  node_at fs p = None -> is_dir fs (parent p) = true ->
  os_mkdir p fs = mkOutcome (Ok tt) (<[p := Dir]> fs) [].
Proof.
  unfold os_mkdir, is_dir. intros -> H.
  destruct (node_at fs (parent p)) as [[|]|]; (discriminate || reflexivity).
Qed.

Lemma missing_error_free fs p :
  (forall q x, q `suffix_of` p -> node_at fs q <> Some (File x)) ->
  missing_error fs p = FileNotFoundError.
Proof.
  induction p as [|c par IH]; intros Hfree; [reflexivity|].
  cbn [missing_error].
  destruct (node_at fs par) as [[x|]|] eqn:Hpar; [| reflexivity |].
  - exfalso. apply (Hfree par x); [|exact Hpar]. now apply suffix_cons_r.
  - apply IH. intros q x Hq. apply Hfree. now apply suffix_cons_r.
Qed.

(** [mkdir -p] succeeds when no file is in the way; it only adds
    directories, on the way to [p]. *)
Lemma mkdir_parents_spec p : forall fs,
  (forall q x, q `suffix_of` p -> node_at fs q <> Some (File x)) ->
  exists fs',
    mkdir_parents p fs = mkOutcome (Ok tt) fs' [] /\
    is_dir fs' p = true /\
    (forall q, node_at fs' q = node_at fs q \/
               (node_at fs q = None /\ node_at fs' q = Some Dir /\
                q `suffix_of` p)).
Proof.
  induction p as [|c par IH]; intros fs Hfree.
  - exists fs. repeat split; auto.
  - assert (Hpne : c :: par <> []) by discriminate.
    assert (Hadd : forall fs0, node_at fs0 (c :: par) = None ->
              forall q,
                node_at (<[c :: par := Dir]> fs0) q = node_at fs0 q \/
                (node_at fs0 q = None /\
                 node_at (<[c :: par := Dir]> fs0) q = Some Dir /\
                 q = c :: par)).
    { intros fs0 Hnone q. rewrite node_at_insert by exact Hpne.
      destruct (decide (c :: par = q)) as [<-|]; auto. }
    unfold mkdir_parents; fold mkdir_parents. unfold os_mkdir.
    destruct (node_at fs (c :: par)) as [[x|]|] eqn:Hp.
    + exfalso. now apply (Hfree (c :: par) x).
    + unfold is_dir. rewrite Hp. exists fs.
      repeat split; auto. unfold is_dir. now rewrite Hp.
    + cbn [parent tail].
      destruct (node_at fs par) as [[x|]|] eqn:Hpar.
      * exfalso. apply (Hfree par x); [|exact Hpar]. now apply suffix_cons_r.
      * exists (<[c :: par := Dir]> fs). split; [reflexivity|]. split.
        { unfold is_dir. rewrite node_at_insert by exact Hpne.
          now rewrite decide_True. }
        intros q. destruct (Hadd fs Hp q) as [H | (H1 & H2 & ->)]; auto.
      * destruct (IH fs) as (fs1 & E1 & Hd1 & Hch1).
        { intros q x Hq. apply Hfree. now apply suffix_cons_r. }
        rewrite (missing_error_free fs par)
          by (intros q x Hq; apply Hfree; now apply suffix_cons_r).
        unfold bind. rewrite E1. cbn [after_log].
        assert (Hp1 : node_at fs1 (c :: par) = None).
        { destruct (Hch1 (c :: par)) as [H | (_ & _ & H)]; [congruence|].
          now apply suffix_length_lt in H. }
        unfold mkdir_exist_ok.
        rewrite (os_mkdir_fresh _ _ Hp1 Hd1).
        exists (<[c :: par := Dir]> fs1). split; [reflexivity|]. split.
        { unfold is_dir. rewrite node_at_insert by exact Hpne.
          now rewrite decide_True. }
        intros q.
        destruct (Hadd fs1 Hp1 q) as [H | (H1 & H2 & ->)].
        { rewrite H. destruct (Hch1 q) as [H' | (H1 & H2 & H3)]; auto.
          right. repeat split; auto. now apply suffix_cons_r. }
        right. repeat split; auto.
Qed.

(** ** The output tree *)

Lemma consistent_insert_dir fs p :
  consistent fs -> p <> [] -> is_dir fs (parent p) = true ->
  consistent (<[p := Dir]> fs).
Proof.
  intros Hc Hp Hpar c q Hq. unfold is_dir.
  rewrite node_at_insert by exact Hp.
  destruct (decide (p = q)) as [|Hne]; [reflexivity|].
  rewrite lookup_insert in Hq.
  destruct (decide (p = c :: q)) as [->|]; [exact Hpar|].
  now apply (Hc c q).
Qed.

Lemma consistent_insert_file fs p b :
  consistent fs -> p <> [] -> is_dir fs (parent p) = true ->
  node_at fs p <> Some Dir ->
  consistent (<[p := File b]> fs).
Proof.
  intros Hc Hp Hpar Hnd c q Hq. unfold is_dir.
  rewrite node_at_insert by exact Hp.
  rewrite lookup_insert in Hq.
  destruct (decide (p = c :: q)) as [->|Hne].
  - destruct (decide (c :: q = q)) as [E|]; [|exact Hpar].
    exfalso. apply (f_equal length) in E. simpl in E. lia.
  - pose proof (Hc c q Hq) as Hd.
    destruct (decide (p = q)) as [->|]; [|exact Hd].
    unfold is_dir in Hd. destruct (node_at fs q) as [[|]|]; congruence.
Qed.

Lemma mkdir_parents_consistent p : forall fs fs' l,
  consistent fs ->
  mkdir_parents p fs = mkOutcome (Ok tt) fs' l ->
  consistent fs'.
Proof.
  assert (Hflat : forall p fs fs' l, consistent fs ->
            mkdir_exist_ok p fs = mkOutcome (Ok tt) fs' l -> consistent fs').
  { intros q fs fs' l Hc. unfold mkdir_exist_ok, os_mkdir.
    destruct (node_at fs q) as [x|] eqn:Hq.
    - destruct (is_dir fs q); [|discriminate]. intros [= <- _]. exact Hc.
    - destruct q as [|c q]; [discriminate Hq|]. cbn [parent tail].
      destruct (node_at fs q) as [[|]|] eqn:Hpar.
      + destruct (is_dir fs (c :: q)); [|discriminate].
        intros [= <- _]. exact Hc.
      + intros [= <- _]. apply consistent_insert_dir; [exact Hc | discriminate |].
        unfold is_dir. cbn [parent tail]. now rewrite Hpar.
      + destruct (missing_error fs q); try discriminate;
          unfold is_dir; rewrite Hq; discriminate. }
  induction p as [|c par IH]; intros fs fs' l Hc.
  - cbn. intros [= <- _]. exact Hc.
  - unfold mkdir_parents; fold mkdir_parents. unfold os_mkdir.
    destruct (node_at fs (c :: par)) as [x|] eqn:Hp.
    + destruct (is_dir fs (c :: par)); [|discriminate].
      intros [= <- _]. exact Hc.
    + cbn [parent tail].
      destruct (node_at fs par) as [[|]|] eqn:Hpar.
      * destruct (is_dir fs (c :: par)); [|discriminate].
        intros [= <- _]. exact Hc.
      * intros [= <- _]. apply consistent_insert_dir; [exact Hc | discriminate |].
        unfold is_dir. cbn [parent tail]. now rewrite Hpar.
      * destruct (missing_error fs par);
          try (unfold is_dir; rewrite Hp; discriminate).
        unfold bind.
        destruct (mkdir_parents par fs) as [[[]|e] fs1 l1] eqn:E1;
          [|discriminate].
        cbn [after_log].
        destruct (mkdir_exist_ok (c :: par) fs1) as [r fs2 l2] eqn:E2.
        cbn [after_log]. intros [= -> -> _].
        apply (Hflat _ _ _ _ (IH _ _ _ Hc E1) E2).
Qed.

Lemma extends_refl a fs : extends a fs fs.
Proof. intros q. now left. Qed.

Lemma extends_trans a fs1 fs2 fs3 :
  extends a fs1 fs2 -> extends a fs2 fs3 -> extends a fs1 fs3.
Proof.
  intros H12 H23 q.
  destruct (H23 q) as [E | [(N2 & D3 & Hv) | Hw]].
  - rewrite E. destruct (H12 q) as [E' | [(N1 & D2 & Hv) | Hw]]; auto.
  - destruct (H12 q) as [E' | [(N1 & D2 & _) | Hw]].
    + right; left. rewrite <- E'. auto.
    + congruence.
    + destruct Hw as (n & v & b & _ & _ & Hb). congruence.
  - right; right. exact Hw.
Qed.

Lemma extends_source a fs fs' n :
  extends a fs fs' ->
  node_at fs' (n :: "source" :: a) = node_at fs (n :: "source" :: a).
Proof.
  intros H. destruct (H (n :: "source" :: a))
    as [E | [(_ & _ & v & Hv & Hs) | (n' & v & b & _ & E & _)]].
  - exact E.
  - exfalso. apply suffix_cons_inv in Hs as [E | Hs].
    + injection E as _ E _. discriminate E.
    + apply suffix_length in Hs. simpl in Hs. lia.
  - exfalso. apply (f_equal length) in E. simpl in E. lia.
Qed.

Lemma extends_is_dir_generated a fs fs' :
  extends a fs fs' ->
  is_dir fs ("_generated" :: a) = true ->
  is_dir fs' ("_generated" :: a) = true.
Proof.
  intros H. unfold is_dir.
  destruct (H ("_generated" :: a))
    as [E | [(N & D & _) | (n' & v & b & _ & E & _)]].
  - now rewrite E.
  - now rewrite D.
  - exfalso. apply (f_equal length) in E. simpl in E. lia.
Qed.

Lemma extends_generated_free saved a fs fs' :
  extends a fs fs' -> generated_free saved fs a -> generated_free saved fs' a.
Proof.
  intros H (F1 & F2 & F3 & F4). repeat split.
  - intros q x Hq.
    destruct (H q) as [E | [(_ & D & _) | (n' & v & b & _ & E & _)]].
    + rewrite E. now apply F1.
    + congruence.
    + exfalso. subst q. apply suffix_length in Hq. simpl in Hq. lia.
  - intros n v x Hn Hv.
    destruct (H (v :: "_generated" :: a))
      as [E | [(_ & D & _) | (n' & v' & b & _ & E & _)]].
    + rewrite E. now apply (F2 n).
    + congruence.
    + exfalso. apply (f_equal length) in E. simpl in E. lia.
  - intros n v Hn Hv.
    destruct (H (n :: v :: "_generated" :: a))
      as [E | [(_ & _ & v' & _ & Hs) | (n' & v' & b & _ & _ & Hb)]].
    + rewrite E. now apply F3.
    + exfalso. apply suffix_length in Hs. simpl in Hs. lia.
    + congruence.
  - destruct (H ("metas.json" :: "_generated" :: a))
      as [E | [(_ & _ & v' & Hv & Hs) | (n' & v' & b & _ & E & _)]].
    + now rewrite E.
    + exfalso. apply suffix_cons_inv in Hs as [E | Hs].
      * injection E as <-. revert Hv. unfold variant_names. cbn.
        rewrite !elem_of_cons, elem_of_nil.
        intros [E | [E | [E | []]]]; discriminate E.
      * apply suffix_length in Hs. simpl in Hs. lia.
    + exfalso. apply (f_equal length) in E. simpl in E. lia.
Qed.

(** ** The pool *)

Lemma fs_after_after_log {A : Type} l (o : Outcome A) :
  fs_after (after_log l o) = fs_after o.
Proof. now destruct o. Qed.

Lemma res_after_log {A : Type} l (o : Outcome A) :
  res (after_log l o) = res o.
Proof. now destruct o. Qed.

Lemma after_log_nil {A : Type} (o : Outcome A) : after_log [] o = o.
Proof. now destruct o. Qed.

Lemma bind_ok {A B : Type} (m : M A) (f : A -> M B) fs b fs' l :
  bind m f fs = mkOutcome (Ok b) fs' l ->
  exists a fs1 l1 l2,
    m fs = mkOutcome (Ok a) fs1 l1 /\
    f a fs1 = mkOutcome (Ok b) fs' l2 /\
    l = l1 ++ l2.
Proof.
  unfold bind. destruct (m fs) as [[a|e] fs1 l1]; [|discriminate].
  destruct (f a fs1) as [r fs2 l2] eqn:E. cbn [after_log].
  intros [= -> <- <-]. exists a, fs1, l1, l2. auto.
Qed.

(** An exception of the first action is the exception of the whole. *)
Lemma bind_raises {A B : Type} (m : M A) (f : A -> M B) fs e :
  res (m fs) = Raise e ->
  res (bind m f fs) = Raise e /\ fs_after (bind m f fs) = fs_after (m fs).
Proof.
  unfold bind. destruct (m fs) as [[a|e'] fs1 l1]; cbn [res fs_after];
    [discriminate|].
  intros [= ->]. split; reflexivity.
Qed.

Lemma attempt_eq {A : Type} (m : M A) fs :
  attempt m fs
  = mkOutcome (Ok (res (m fs))) (fs_after (m fs)) (logged (m fs)).
Proof. unfold attempt. now destruct (m fs). Qed.

(** *** The order of the tasks *)

Lemma place_perm turn i order : Permutation (place turn i order) (i :: order).
Proof.
  induction order as [|j order IH]; cbn [place]; [reflexivity|].
  destruct (turn j <? turn i)%nat; [|reflexivity].
  rewrite IH. apply perm_swap.
Qed.

Lemma completion_order_perm turn k :
  Permutation (completion_order turn k) (seq 0 k).
Proof.
  unfold completion_order.
  induction (seq 0 k) as [|i l IH]; simpl; [reflexivity|].
  rewrite place_perm. now rewrite IH.
Qed.

Lemma completion_order_length turn k : length (completion_order turn k) = k.
Proof.
  rewrite (Permutation_length (completion_order_perm turn k)).
  apply length_seq.
Qed.

Lemma completion_order_elem turn k i :
  (i < k)%nat -> i ∈ completion_order turn k.
Proof.
  intros Hi. rewrite (completion_order_perm turn k).
  apply elem_of_seq. lia.
Qed.

(** *** The chunks *)

Lemma get_tasks_concat {A : Type} size : forall fuel (l : list A),
  (0 < size)%nat -> (length l <= fuel)%nat ->
  concat (get_tasks fuel size l) = l.
Proof.
  induction fuel as [|fuel IH]; intros l Hs Hl.
  - destruct l; [reflexivity | simpl in Hl; lia].
  - destruct l as [|x l]; [reflexivity|]. cbn [get_tasks concat].
    rewrite IH; [apply take_drop | exact Hs |].
    rewrite length_drop. simpl in *. lia.
Qed.

Lemma chunksize_pos len w : (0 < len)%nat -> (0 < chunksize len w)%nat.
Proof.
  unfold chunksize. intros H.
  destruct (len mod (w * 4) =? 0)%nat eqn:E; [|lia].
  apply Nat.eqb_eq in E.
  pose proof (Nat.div_mod_eq len (w * 4)) as D. rewrite E in D.
  destruct (len / (w * 4))%nat; lia.
Qed.

Lemma tasks_concat {A : Type} (l : list A) w :
  concat (get_tasks (length l) (chunksize (length l) w) l) = l.
Proof.
  destruct l as [|x l]; [reflexivity|].
  apply get_tasks_concat; [apply chunksize_pos; simpl; lia | lia].
Qed.

Lemma nth_elem {A : Type} (tasks : list (list A)) i x :
  x ∈ nth i tasks [] -> x ∈ concat tasks.
Proof.
  revert i. induction tasks as [|c tasks IH]; intros [|i] H; cbn in *;
    try (now apply elem_of_nil in H).
  - apply elem_of_app. now left.
  - apply elem_of_app. right. eauto.
Qed.

Lemma elem_nth {A : Type} (tasks : list (list A)) x :
  x ∈ concat tasks ->
  exists i, (i < length tasks)%nat /\ x ∈ nth i tasks [].
Proof.
  induction tasks as [|c tasks IH]; cbn; intros H.
  - now apply elem_of_nil in H.
  - apply elem_of_app in H as [H|H].
    + exists 0%nat. split; [lia | exact H].
    + destruct (IH H) as (i & Hi & Hx). exists (S i). split; [lia | exact Hx].
Qed.

Lemma map_nth_seq {A B : Type} (F : A -> B) d (l : list A) :
  map (fun i => F (nth i l d)) (seq 0 (length l)) = map F l.
Proof.
  induction l as [|x l IH]; [reflexivity|].
  cbn [length seq map nth]. f_equal.
  rewrite <- seq_shift, map_map. exact IH.
Qed.

(** *** Putting the results together *)

Lemma result_of_map {B : Type} (h : nat -> list B) i order :
  i ∈ order -> result_of i order (map (fun j => Ok (h j)) order) = h i.
Proof.
  induction order as [|j order IH]; intros Hi;
    [now apply elem_of_nil in Hi|].
  cbn [map result_of]. destruct (Nat.eqb_spec i j) as [->|Hne];
    [reflexivity|].
  apply IH. apply elem_of_cons in Hi as [?|?]; [contradiction | assumption].
Qed.

Lemma first_failure_map_ok {B : Type} (h : nat -> B) order :
  first_failure (map (fun j => Ok (h j)) order) = None.
Proof. induction order; [reflexivity | exact IHorder]. Qed.

Lemma map_result_ok {A B : Type} (g : A -> B) turn (tasks : list (list A)) :
  let order := completion_order turn (length tasks) in
  map_result order (map (fun i => Ok (map g (nth i tasks []))) order)
  = Ok (map g (concat tasks)).
Proof.
  intros order. unfold map_result. rewrite first_failure_map_ok.
  f_equal. unfold order at 3. rewrite completion_order_length.
  rewrite concat_map, <- (map_nth_seq (map g) [] tasks). f_equal.
  apply map_ext_in. intros i Hi. apply in_seq in Hi.
  apply (result_of_map (fun j => map g (nth j tasks []))).
  apply completion_order_elem. lia.
Qed.

Lemma concat_length_eq {A B : Type} (xs : list (list A)) :
  forall ys : list (list B),
  map length xs = map length ys -> length (concat xs) = length (concat ys).
Proof.
  induction xs as [|x xs IH]; intros [|y ys] H; try discriminate H;
    [reflexivity|].
  cbn in *. injection H as H1 H2. rewrite !length_app, H1.
  f_equal. now apply IH.
Qed.

Lemma concat_map_perm {A B : Type} (L : A -> list B) l l' :
  Permutation l l' -> Permutation (concat (map L l)) (concat (map L l')).
Proof.
  induction 1 as [|x l l' _ IH|x y l|l1 l2 l3 _ IH1 _ IH2]; cbn.
  - reflexivity.
  - now rewrite IH.
  - rewrite !app_assoc. f_equiv. apply Permutation_app_comm.
  - now rewrite IH1.
Qed.

Lemma concat_singletons {A B : Type} (r : A -> B) l :
  concat (map (fun x => [r x]) l) = map r l.
Proof. induction l as [|x l IH]; cbn; [reflexivity | now rewrite IH]. Qed.

(** *** The calls of a task, the tasks of a batch *)

Lemma mapM_length {A B : Type} (f : A -> M B) l : forall fs ys fs' lg,
  mapM f l fs = mkOutcome (Ok ys) fs' lg -> length ys = length l.
Proof.
  induction l as [|x l IH]; cbn [mapM]; intros fs ys fs' lg E.
  - injection E as <- _ _. reflexivity.
  - apply bind_ok in E as (y & fs1 & l1 & l2 & _ & E & _).
    apply bind_ok in E as (ys' & fs2 & l3 & l4 & E2 & E & _).
    injection E as <- _ _. cbn [length]. f_equal. eapply IH. eassumption.
Qed.

(** What every call respects, the whole list respects. *)
Lemma mapM_respects {A B : Type} (R : FS -> FS -> Prop) (f : A -> M B) l :
  (forall fs, R fs fs) ->
  (forall fs1 fs2 fs3, R fs1 fs2 -> R fs2 fs3 -> R fs1 fs3) ->
  (forall x fs, x ∈ l -> R fs (fs_after (f x fs))) ->
  forall fs, R fs (fs_after (mapM f l fs)).
Proof.
  intros Hr Ht. induction l as [|x l IH]; intros Hf fs; cbn [mapM].
  - apply Hr.
  - unfold bind at 1. pose proof (Hf x fs ltac:(left)) as H1.
    destruct (f x fs) as [[y|e] fs1 l1]; cbn [fs_after] in *; [|exact H1].
    rewrite fs_after_after_log. unfold bind.
    pose proof (IH (fun z fs' Hz => Hf z fs' (list_elem_of_further _ _ _ Hz))
                  fs1) as H2.
    destruct (mapM f l fs1) as [[ys|e] fs2 l2]; cbn in *; eauto.
Qed.

(** Calls that return known values, and keep [I]. *)
Lemma mapM_total {A B : Type} (I P : FS -> Prop) (W : A -> Prop)
    (f : A -> M B) (g : A -> B) l :
  (forall x fs, x ∈ l -> I fs ->
     exists fs' lg,
       f x fs = mkOutcome (Ok (g x)) fs' lg /\ I fs' /\
       (P fs \/ W x -> P fs')) ->
  forall fs, I fs ->
  exists fs' lg,
    mapM f l fs = mkOutcome (Ok (map g l)) fs' lg /\ I fs' /\
    (P fs \/ (exists x, x ∈ l /\ W x) -> P fs').
Proof.
  induction l as [|a l IH]; intros Hf fs HI.
  - exists fs, []. split; [reflexivity|]. split; [exact HI|].
    intros [H | (x & Hx & _)]; [exact H | now apply elem_of_nil in Hx].
  - destruct (Hf a fs) as (fs1 & l1 & E1 & I1 & P1); [left | exact HI |].
    destruct (IH (fun x fs' Hx => Hf x fs' (list_elem_of_further _ _ _ Hx))
                fs1 I1) as (fs2 & l2 & E2 & I2 & P2).
    cbn [mapM]. unfold bind at 1. rewrite E1. cbn [after_log].
    unfold bind at 1. rewrite E2. cbn [after_log ret map].
    eexists _, _. split; [reflexivity|]. split; [exact I2|].
    intros [H | (x & Hx & Hw)]; apply P2.
    + left. apply P1. now left.
    + apply elem_of_cons in Hx as [-> | Hx];
        [left; apply P1; now right | right; eauto].
Qed.

(** Calls that only log. *)
Lemma mapM_quiet {A B : Type} (f : A -> M B) (g : A -> B)
    (L : A -> list LogRecord) l fs :
  (forall x, x ∈ l -> f x fs = mkOutcome (Ok (g x)) fs (L x)) ->
  mapM f l fs = mkOutcome (Ok (map g l)) fs (concat (map L l)).
Proof.
  induction l as [|x l IH]; intros Hf; cbn [mapM map concat];
    [reflexivity|].
  unfold bind at 1. rewrite (Hf x) by left. cbn [after_log].
  unfold bind at 1. rewrite IH by (intros z Hz; apply Hf; now right).
  unfold ret. cbn [after_log]. now rewrite app_nil_r.
Qed.

Section Steps.

Context {A B : Type}.
Variable I : FS -> Prop.
Variable f : A -> M B.
Variable l : list A.
Hypothesis I_kept : forall x fs, x ∈ l -> I fs -> I (fs_after (f x fs)).

Lemma mapM_keeps_I c :
  (forall x, x ∈ c -> x ∈ l) ->
  forall fs, I fs -> I (fs_after (mapM f c fs)).
Proof.
  intros Hc fs.
  apply (mapM_respects (fun fs1 fs2 => I fs1 -> I fs2)); auto.
Qed.


(** A call that raises makes the list raise. *)
Lemma mapM_fails x c :
  (forall y, y ∈ c -> y ∈ l) ->
  (forall fs, I fs -> exists e, res (f x fs) = Raise e) ->
  x ∈ c ->
  forall fs, I fs -> exists e, res (mapM f c fs) = Raise e.
Proof.
  intros Hc Hx. induction c as [|a c IH]; intros Hin fs HI.
  - now apply elem_of_nil in Hin.
  - cbn [mapM]. unfold bind at 1.
    pose proof (I_kept a fs (Hc a ltac:(left)) HI) as I1.
    destruct (f a fs) as [[y|e'] fs1 l1] eqn:E1; cbn [fs_after] in I1;
      [|cbn; eauto].
    apply elem_of_cons in Hin as [-> | Hin].
    { destruct (Hx fs HI) as [e He]. rewrite E1 in He. discriminate He. }
    destruct (IH (fun z Hz => Hc z (list_elem_of_further _ _ _ Hz)) Hin
                fs1 I1) as [e He].
    rewrite res_after_log. unfold bind.
    destruct (mapM f c fs1) as [[ys|e''] fs2 l2]; cbn in He |- *;
      [discriminate He | eauto].
Qed.

Variable ts : nat -> list A.
Hypothesis ts_in : forall i x, x ∈ ts i -> x ∈ l.

Local Abbreviation run := (mapM (fun i => attempt (mapM f (ts i)))).

(** The tasks never raise: their exceptions are handed back. *)
Lemma run_returns order : forall fs,
  exists done fs' lg, run order fs = mkOutcome (Ok done) fs' lg.
Proof.
  induction order as [|j order IH]; intros fs; cbn [mapM].
  - eexists _, _, _. reflexivity.
  - unfold bind at 1. rewrite attempt_eq. cbn [after_log].
    destruct (IH (fs_after (mapM f (ts j) fs))) as (done & fs' & lg & E).
    unfold bind at 1. rewrite E. cbn [after_log ret].
    eexists _, _, _. reflexivity.
Qed.

Lemma run_cons j order fs done fs' lg :
  run (j :: order) fs = mkOutcome (Ok done) fs' lg ->
  exists done' lg',
    done = res (mapM f (ts j) fs) :: done' /\
    run order (fs_after (mapM f (ts j) fs)) = mkOutcome (Ok done') fs' lg'.
Proof.
  cbn [mapM]. intros E.
  apply bind_ok in E as (r & fs1 & l1 & l2 & E1 & E & _).
  rewrite attempt_eq in E1. injection E1 as <- <- _.
  apply bind_ok in E as (done' & fs2 & l3 & l4 & E2 & E & _).
  injection E as <- <- _. eauto.
Qed.


Lemma run_fails x i order :
  (forall fs, I fs -> exists e, res (f x fs) = Raise e) ->
  x ∈ ts i ->
  i ∈ order ->
  forall fs, I fs ->
  exists done fs' lg e,
    run order fs = mkOutcome (Ok done) fs' lg /\
    first_failure done = Some e.
Proof.
  intros Hx Hxi. induction order as [|j order IH]; intros Hi fs HI.
  - now apply elem_of_nil in Hi.
  - cbn [mapM]. unfold bind at 1. rewrite attempt_eq. cbn [after_log].
    destruct (res (mapM f (ts j) fs)) as [ys|e'] eqn:Er.
    + apply elem_of_cons in Hi as [-> | Hi].
      { destruct (mapM_fails x (ts j) (ts_in j) Hx Hxi fs HI) as [e He].
        rewrite Er in He. discriminate He. }
      destruct (IH Hi _ (mapM_keeps_I (ts j) (ts_in j) fs HI))
        as (done & fs' & lg & e & E & Hff).
      unfold bind at 1. rewrite E. cbn [after_log ret].
      eexists _, _, _, e. split; [reflexivity | exact Hff].
    + destruct (run_returns order (fs_after (mapM f (ts j) fs)))
        as (done & fs' & lg & E).
      unfold bind at 1. rewrite E. cbn [after_log ret].
      eexists _, _, _, e'. split; reflexivity.
Qed.

End Steps.

Lemma run_lengths {A B : Type} (f : A -> M B) (ts : nat -> list A) order :
  forall fs done fs' lg,
  mapM (fun i => attempt (mapM f (ts i))) order fs
  = mkOutcome (Ok done) fs' lg ->
  first_failure done = None ->
  forall i, i ∈ order ->
  length (result_of i order done) = length (ts i).
Proof.
  induction order as [|j order IH]; intros fs done fs' lg E Hff i Hi.
  - now apply elem_of_nil in Hi.
  - apply (run_cons f ts) in E as (done' & lg' & -> & E).
    cbn [first_failure] in Hff. cbn [result_of].
    destruct (mapM f (ts j) fs) as [[ys|e] fs1 l1] eqn:Ej;
      cbn [res fs_after] in *; [|discriminate Hff].
    destruct (Nat.eqb_spec i j) as [->|Hne].
    + exact (mapM_length _ _ _ _ _ _ Ej).
    + apply (IH _ _ _ _ E Hff).
      apply elem_of_cons in Hi as [?|?]; [contradiction | assumption].
Qed.

Section PoolMap.

Context {A B : Type}.
Variable processes : Z.
Variable turn : nat -> nat.
Variable f : A -> M B.
Variable l : list A.

Local Abbreviation tasks :=
  (get_tasks (length l) (chunksize (length l) (Z.to_nat processes)) l).
Local Abbreviation order := (completion_order turn (length tasks)).
Local Abbreviation run :=
  (mapM (fun i => attempt (mapM f (nth i tasks []))) order).

Lemma task_in i x : x ∈ nth i tasks [] -> x ∈ l.
Proof. intros H. apply nth_elem in H. now rewrite tasks_concat in H. Qed.

Lemma in_task x :
  x ∈ l -> exists i, i ∈ order /\ x ∈ nth i tasks [].
Proof.
  intros H. rewrite <- (tasks_concat l (Z.to_nat processes)) in H.
  apply elem_nth in H as (i & Hi & Hx). exists i.
  split; [now apply completion_order_elem | exact Hx].
Qed.

Lemma Pool_map_eq fs done fs' lg :
  run fs = mkOutcome (Ok done) fs' lg ->
  Pool_map processes turn f l fs
  = mkOutcome (map_result order done) fs' lg.
Proof.
  intros E. unfold Pool_map. cbv zeta. unfold bind. rewrite E.
  unfold lift. cbn [after_log]. now rewrite app_nil_r.
Qed.

(** What every call respects, the batch respects. *)
Lemma Pool_map_respects (R : FS -> FS -> Prop) :
  (forall fs, R fs fs) ->
  (forall fs1 fs2 fs3, R fs1 fs2 -> R fs2 fs3 -> R fs1 fs3) ->
  (forall x fs, x ∈ l -> R fs (fs_after (f x fs))) ->
  forall fs, R fs (fs_after (Pool_map processes turn f l fs)).
Proof.
  intros Hr Ht Hf fs.
  destruct (run_returns f (fun i => nth i tasks []) order fs)
    as (done & fs' & lg & E).
  rewrite (Pool_map_eq _ _ _ _ E). cbn [fs_after].
  change fs' with (fs_after (mkOutcome (Ok done) fs' lg)). rewrite <- E.
  apply mapM_respects; auto. intros i fs1 _. rewrite attempt_eq.
  cbn [fs_after]. apply mapM_respects; auto.
  intros x fs2 Hx. apply Hf. now apply task_in in Hx.
Qed.

(** Calls that return known values: the batch returns them in the order
    of the list. *)
Lemma Pool_map_total (I P : FS -> Prop) (W : A -> Prop) (g : A -> B) :
  (forall x fs, x ∈ l -> I fs ->
     exists fs' lg,
       f x fs = mkOutcome (Ok (g x)) fs' lg /\ I fs' /\
       (P fs \/ W x -> P fs')) ->
  forall fs, I fs ->
  exists fs' lg,
    Pool_map processes turn f l fs = mkOutcome (Ok (map g l)) fs' lg /\
    I fs' /\
    (P fs \/ (exists x, x ∈ l /\ W x) -> P fs').
Proof.
  intros Hf fs HI.
  destruct (mapM_total I P (fun i => exists x, x ∈ nth i tasks [] /\ W x)
              (fun i => attempt (mapM f (nth i tasks [])))
              (fun i => Ok (map g (nth i tasks []))) order) with (fs := fs)
    as (fs' & lg & E & HI' & HP).
  { intros i fs1 _ I1.
    destruct (mapM_total I P W f g (nth i tasks [])) with (fs := fs1)
      as (fs2 & l2 & E2 & I2 & P2).
    { intros x fs2 Hx. apply Hf. now apply task_in in Hx. }
    { exact I1. }
    rewrite attempt_eq, E2. cbn [res fs_after logged]. eauto 10. }
  { exact HI. }
  exists fs', lg. rewrite (Pool_map_eq _ _ _ _ E).
  rewrite (map_result_ok g turn tasks), tasks_concat.
  split; [reflexivity|]. split; [exact HI'|].
  intros [H | (x & Hx & Hw)]; apply HP; [now left|].
  right. destruct (in_task x Hx) as (i & Hi & Hxi). eauto.
Qed.

(** Calls that only log: the batch only logs, in the order in which the
    tasks get done. *)
Lemma Pool_map_quiet (g : A -> B) (r : A -> LogRecord) fs :
  (forall x, x ∈ l -> f x fs = mkOutcome (Ok (g x)) fs [r x]) ->
  exists lg,
    Pool_map processes turn f l fs = mkOutcome (Ok (map g l)) fs lg /\
    Permutation lg (map r l).
Proof.
  intros Hf.
  assert (E : run fs
              = mkOutcome
                  (Ok (map (fun i => Ok (map g (nth i tasks []))) order)) fs
                  (concat (map (fun i => map r (nth i tasks [])) order))).
  { apply mapM_quiet. intros i _. rewrite attempt_eq.
    rewrite (mapM_quiet f g (fun x => [r x])).
    - cbn [res fs_after logged]. now rewrite concat_singletons.
    - intros x Hx. apply Hf. now apply task_in in Hx. }
  eexists. rewrite (Pool_map_eq _ _ _ _ E).
  rewrite (map_result_ok g turn tasks), tasks_concat.
  split; [reflexivity|].
  rewrite (concat_map_perm _ _ _ (completion_order_perm turn (length tasks))).
  rewrite (map_nth_seq (map r) [] tasks), <- concat_map.
  now rewrite tasks_concat.
Qed.

Lemma Pool_map_length fs ys :
  res (Pool_map processes turn f l fs) = Ok ys -> length ys = length l.
Proof.
  destruct (run_returns f (fun i => nth i tasks []) order fs)
    as (done & fs' & lg & E).
  rewrite (Pool_map_eq _ _ _ _ E). cbn [res]. unfold map_result.
  destruct (first_failure done) as [e|] eqn:Hff; [discriminate|].
  intros [= <-].
  transitivity (length (concat tasks)); [|now rewrite tasks_concat].
  apply concat_length_eq. rewrite completion_order_length, map_map.
  rewrite <- (map_nth_seq length [] tasks).
  apply map_ext_in. intros i Hi. apply in_seq in Hi.
  apply (run_lengths f (fun j => nth j tasks []) order _ _ _ _ E Hff).
  apply completion_order_elem. lia.
Qed.

Section Invariant.

Variable I : FS -> Prop.
Hypothesis I_kept : forall x fs, x ∈ l -> I fs -> I (fs_after (f x fs)).


(** One call that raises makes the batch raise. *)
Lemma Pool_map_fails x fs :
  (forall fs', I fs' -> exists e, res (f x fs') = Raise e) ->
  x ∈ l -> I fs ->
  exists e, res (Pool_map processes turn f l fs) = Raise e.
Proof.
  intros Hx Hin HI. destruct (in_task x Hin) as (i & Hi & Hxi).
  destruct (run_fails I f l I_kept (fun i => nth i tasks []) task_in
              x i order Hx Hxi Hi fs HI)
    as (done & fs' & lg & e & E & Hff).
  exists e. rewrite (Pool_map_eq _ _ _ _ E). cbn [res].
  unfold map_result. now rewrite Hff.
Qed.

End Invariant.

End PoolMap.

Lemma Pool_map_nil {A B : Type} processes turn (f : A -> M B) fs :
  Pool_map processes turn f [] fs = mkOutcome (Ok []) fs [].
Proof. reflexivity. Qed.

(** ** Writing the variants of one photo *)

Section Batch.

Context `{codec : ImageCodec}.
Variable md5 : list byte -> list byte.
Variable json_dumps : list PhotoMeta -> list byte.
Variable args : Args.
Variable turn : nat -> nat.
Variable saved : string -> Prop.

Local Abbreviation process := (process_and_get_meta md5 args).

(** One round of the loop of [save]. *)
Lemma save_variant a n v self m img fs :
  meta self = Some m ->
  v ∈ variant_names ->
  saved n ->
  consistent fs -> generated_free saved fs a ->
  exists fs' l,
    (exec mkdir_parents (v :: "_generated" :: a) in
     _save_file md5 args self (n :: v :: "_generated" :: a) img) fs
    = mkOutcome (Ok tt) fs' l /\
    extends a fs fs' /\ consistent fs' /\
    is_dir fs' ("_generated" :: a) = true.
Proof.
  intros Hm Hv Hsv Hc (F1 & F2 & F3 & F4).
  destruct (mkdir_parents_spec (v :: "_generated" :: a) fs)
    as (fs1 & E1 & Hd1 & Hch1).
  { intros q x Hq. destruct q as [|c q]; [discriminate|].
    apply suffix_cons_inv in Hq as [-> | Hq].
    - now apply (F2 n).
    - now apply F1. }
  pose proof (mkdir_parents_consistent _ _ _ _ Hc E1) as Hc1.
  assert (Hext1 : extends a fs fs1).
  { intros q. destruct (Hch1 q) as [E | (N & D & Hs)]; [now left|].
    right; left. eauto. }
  assert (Hgen1 : is_dir fs1 ("_generated" :: a) = true).
  { apply (Hc1 v). unfold is_dir in Hd1. cbn [node_at] in Hd1.
    destruct (fs1 !! (v :: "_generated" :: a)); [eauto | discriminate]. }
  set (dest := n :: v :: "_generated" :: a).
  assert (Hdest : node_at fs1 dest = node_at fs dest).
  { destruct (Hch1 dest) as [E | (_ & _ & Hs)]; [exact E|].
    exfalso. apply suffix_length in Hs. simpl in Hs. lia. }
  assert (Hnd : node_at fs1 dest <> Some Dir)
    by (rewrite Hdest; now apply F3).
  assert (Hw : extends a fs (<[dest := File (save_jpeg img true
                                               (quality args))]> fs1)).
  { apply extends_trans with fs1; [exact Hext1|].
    intros q. rewrite node_at_insert by discriminate.
    destruct (decide (dest = q)) as [<-|]; [|now left].
    right; right. exists n, v, (save_jpeg img true (quality args)).
    repeat split; auto. }
  assert (Hcw : consistent (<[dest := File (save_jpeg img true
                                             (quality args))]> fs1)).
  { apply consistent_insert_file; auto; discriminate. }
  assert (Hgw : is_dir (<[dest := File (save_jpeg img true
                                         (quality args))]> fs1)
                  ("_generated" :: a) = true).
  { unfold is_dir. rewrite node_at_insert by discriminate.
    rewrite decide_False; [exact Hgen1|].
    intros E. apply (f_equal length) in E. simpl in E. lia. }
  unfold bind. rewrite E1. cbn [after_log].
  rewrite (save_file_eq md5 args self dest img fs1 m Hm Hd1).
  destruct (node_at fs1 dest) as [[old|]|] eqn:Hn.
  - destruct (decide (_ = md5 old)); cbn [after_log]; eauto 10.
  - congruence.
  - cbn [after_log]. eauto 10.
Qed.

(** [save] on a processor as [open_image] leaves it. *)
Lemma save_ok a n m i1 i2 i3 fs :
  let self :=
    mkProcessor (n :: "source" :: a) (Some m)
      [("xs", i1); ("s", i2); ("ori", i3)] in
  saved n ->
  consistent fs -> generated_free saved fs a ->
  exists fs' l,
    save md5 args self fs = mkOutcome (Ok tt) fs' l /\
    extends a fs fs' /\ consistent fs' /\
    is_dir fs' ("_generated" :: a) = true.
Proof.
  intros self Hn Hc Hg.
  assert (Hm : meta self = Some m) by reflexivity.
  unfold save. cbn [imgs file_path self for_each parent tail path_name].
  assert (Hxs : "xs" ∈ variant_names) by (cbn; repeat constructor).
  assert (Hs : "s" ∈ variant_names) by (cbn; repeat constructor).
  assert (Hori : "ori" ∈ variant_names) by (cbn; repeat constructor).
  destruct (save_variant a n "xs" self m i1 fs Hm Hxs Hn Hc Hg)
    as (fs1 & l1 & E1 & X1 & C1 & D1).
  pose proof (extends_generated_free _ _ _ _ X1 Hg) as G1.
  destruct (save_variant a n "s" self m i2 fs1 Hm Hs Hn C1 G1)
    as (fs2 & l2 & E2 & X2 & C2 & D2).
  pose proof (extends_generated_free _ _ _ _ X2 G1) as G2.
  destruct (save_variant a n "ori" self m i3 fs2 Hm Hori Hn C2 G2)
    as (fs3 & l3 & E3 & X3 & C3 & D3).
  unfold bind at 1. rewrite E1. cbn [after_log].
  unfold bind at 1. rewrite E2. cbn [after_log].
  unfold bind at 1. rewrite E3. cbn [after_log ret].
  eexists _, _. split; [reflexivity|].
  split; [|auto].
  eauto using extends_trans.
Qed.

(** ** One photo, then all of them *)

Lemma meta_of_node fs fs' f :
  node_at fs' f = node_at fs f -> meta_of fs' f = meta_of fs f.
Proof. unfold meta_of. now intros ->. Qed.

Lemma processable_node fs fs' f :
  node_at fs' f = node_at fs f -> processable fs f -> processable fs' f.
Proof. unfold processable. now intros ->. Qed.

(** A photo that decodes is processed without an exception when nothing
    is in the way in the output tree. *)
Lemma process_ok a n fs :
  processable fs (n :: "source" :: a) ->
  (is_Some (meta_of fs (n :: "source" :: a)) -> saved n) ->
  consistent fs -> generated_free saved fs a ->
  exists fs' l,
    process (n :: "source" :: a) fs
    = mkOutcome (Ok (meta_of fs (n :: "source" :: a))) fs' l /\
    extends a fs fs' /\ consistent fs' /\
    (is_Some (meta_of fs (n :: "source" :: a)) ->
     is_dir fs' ("_generated" :: a) = true).
Proof.
  intros (b & im & Hf & Hb & Ht) Hs Hc Hg.
  destruct Ht as [Hl | (exif & datestr & t & Hx & Ht & Hp)].
  - exists fs, [skip_record (n :: "source" :: a)].
    rewrite (process_skipped md5 args _ _ _ _ Hf Hb Hl).
    assert (meta_of fs (n :: "source" :: a) = None) as ->.
    { unfold meta_of. rewrite Hf, Hb. unfold lacks_time in Hl.
      destruct (getexif im); [now rewrite Hl | reflexivity]. }
    repeat split; auto using extends_refl. intros [? [=]].
  - assert (Hmeta : meta_of fs (n :: "source" :: a)
            = Some (mkMeta (height (oriented exif im),
                            width (oriented exif im)) t n)).
    { unfold meta_of. now rewrite Hf, Hb, Hx, Ht, Hp. }
    rewrite Hmeta in Hs |- *.
    unfold process_and_get_meta, bind.
    rewrite (Processor_init_ok _ _ _ _ _ _ _ Hf Hb Hx Ht Hp).
    cbn [meta after_log path_name].
    destruct (save_ok a n
                (mkMeta (height (oriented exif im),
                         width (oriented exif im)) t n)
                (thumbnail (copy (oriented exif im)) (10, 10))
                (thumbnail (copy (oriented exif im)) (800, 800))
                (oriented exif im) fs (Hs (mk_is_Some _ _ eq_refl)) Hc Hg)
      as (fs' & l & E & X & C & D).
    cbv zeta in E. rewrite E. cbn [after_log ret]. eauto 10.
Qed.

Lemma jpg_entries_source a fs f :
  f ∈ jpg_entries ("source" :: a) fs -> exists n, f = n :: "source" :: a.
Proof.
  unfold jpg_entries. intros H.
  apply list_elem_of_filter in H as [(Hne & Hpar & _) _].
  destruct f as [|n f]; [contradiction|]. cbn in Hpar. subst f. eauto.
Qed.

(** The photos of [a/source], in the chunks and the order of the
    pool. *)
Lemma Pool_map_ok a files fs :
  (forall f, f ∈ files ->
     exists n, f = n :: "source" :: a /\ processable fs f /\
               (is_Some (meta_of fs f) -> saved n)) ->
  consistent fs -> generated_free saved fs a ->
  exists fs' l,
    Pool_map (nproc args) turn process files fs
    = mkOutcome (Ok (map (meta_of fs) files)) fs' l /\
    extends a fs fs' /\ consistent fs' /\
    (is_dir fs ("_generated" :: a) = true \/
     (exists f, f ∈ files /\ is_Some (meta_of fs f)) ->
     is_dir fs' ("_generated" :: a) = true).
Proof.
  intros Hfiles Hc Hg.
  destruct (Pool_map_total (nproc args) turn process files
              (fun fs' => extends a fs fs' /\ consistent fs' /\
                          generated_free saved fs' a)
              (fun fs' => is_dir fs' ("_generated" :: a) = true)
              (fun f => is_Some (meta_of fs f))
              (meta_of fs)) with (fs := fs)
    as (fs' & l & E & (X & C & _) & D).
  - intros f fs1 Hf (X1 & C1 & G1).
    destruct (Hfiles f Hf) as (n & -> & Hp & Hs).
    pose proof (extends_source _ _ _ n X1) as Hn.
    destruct (process_ok a n fs1 (processable_node _ _ _ Hn Hp))
      as (fs2 & l2 & E2 & X2 & C2 & D2); auto.
    { rewrite (meta_of_node _ _ _ Hn). exact Hs. }
    rewrite (meta_of_node _ _ _ Hn) in E2, D2.
    exists fs2, l2. split; [exact E2|]. split.
    { eauto using extends_trans, extends_generated_free. }
    intros [H | H]; [eauto using extends_is_dir_generated | auto].
  - auto using extends_refl.
  - eauto 10.
Qed.

End Batch.

Section Run.

Context `{codec : ImageCodec}.
Variable md5 : list byte -> list byte.
Variable json_dumps : list PhotoMeta -> list byte.
Variable args : Args.
Variable turn : nat -> nat.

Local Abbreviation process := (process_and_get_meta md5 args).

(** The whole run. *)
Lemma main_ok fs :
  let a := assets_dir args in
  let files := jpg_entries ("source" :: a) fs in
  1 <= nproc args ->
  consistent fs -> generated_free (is_saved fs a) fs a ->
  (forall f, f ∈ files -> processable fs f) ->
  (is_dir fs ("_generated" :: a) = true \/
   exists f, f ∈ files /\ is_Some (meta_of fs f)) ->
  exists fs' l,
    main md5 json_dumps args turn fs = mkOutcome (Ok tt) fs' l /\
    node_at fs' ("metas.json" :: "_generated" :: a)
    = Some (File (json_dumps (manifest (map (meta_of fs) files)))).
Proof.
  intros a files Hn Hc Hg Hp Hd.
  destruct (Pool_map_ok md5 args turn (is_saved fs a) a files fs)
    as (fs1 & l1 & E1 & X1 & C1 & D1).
  { intros f Hf. destruct (jpg_entries_source _ _ _ Hf) as (n & ->).
    exists n. split; [reflexivity|]. split; [now apply Hp|].
    intros Hs. split; assumption. }
  { exact Hc. }
  { exact Hg. }
  pose proof (extends_generated_free _ _ _ _ X1 Hg) as (_ & _ & _ & G4).
  specialize (D1 Hd).
  unfold main. unfold bind at 1. unfold Pool.
  replace (nproc args <? 1) with false by (symmetry; apply Z.ltb_ge; lia).
  cbn [ret after_log].
  unfold bind at 1, glob_jpg. cbn [after_log].
  unfold bind at 1. fold a. fold files. rewrite E1. cbn [after_log].
  unfold bind, logger_info. cbn [after_log].
  rewrite write_bytes_ok by (cbn [parent tail]; assumption).
  cbn [after_log]. eexists _, _. split; [reflexivity|].
  rewrite node_at_insert by discriminate. now rewrite decide_True.
Qed.

End Run.

(** ** What a photo leaves alone *)

Lemma preserves_ret {A : Type} q (a : A) : preserves q (ret a).
Proof. intros fs. reflexivity. Qed.

Lemma preserves_raise {A : Type} q e : preserves q (@raise A e).
Proof. intros fs. reflexivity. Qed.

Lemma preserves_lift {A : Type} q (r : Result A) : preserves q (lift r).
Proof. intros fs. reflexivity. Qed.

Lemma preserves_logger_info q msg : preserves q (logger_info msg).
Proof. intros fs. reflexivity. Qed.

Lemma preserves_logger_error q msg : preserves q (logger_error msg).
Proof. intros fs. reflexivity. Qed.

Lemma preserves_bind {A B : Type} q (m : M A) (f : A -> M B) :
  preserves q m -> (forall a, preserves q (f a)) -> preserves q (bind m f).
Proof.
  intros Hm Hf fs. unfold bind. specialize (Hm fs).
  destruct (m fs) as [[a|e] fs1 l1]; cbn in *; [|exact Hm].
  rewrite fs_after_after_log, Hf. exact Hm.
Qed.

Lemma preserves_path_exists q p : preserves q (path_exists p).
Proof. intros fs. reflexivity. Qed.

Lemma preserves_read_bytes q p : preserves q (read_bytes p).
Proof.
  intros fs. unfold read_bytes.
  destruct (node_at fs p) as [[|]|]; reflexivity.
Qed.

Lemma preserves_write_bytes q p b : q <> p -> preserves q (write_bytes p b).
Proof.
  intros Hq fs. unfold write_bytes.
  assert (Hins : node_at (<[p := File b]> fs) q = node_at fs q).
  { destruct p as [|c p].
    - destruct q; [contradiction | cbn; now rewrite lookup_insert_ne].
    - rewrite node_at_insert by discriminate.
      now rewrite decide_False by congruence. }
  destruct (node_at fs p) as [[|]|];
    destruct (node_at fs (parent p)) as [[|]|]; cbn; auto.
Qed.

Lemma preserves_os_mkdir q p : q <> p -> preserves q (os_mkdir p).
Proof.
  intros Hq fs. unfold os_mkdir.
  assert (Hins : node_at (<[p := Dir]> fs) q = node_at fs q).
  { destruct p as [|c p].
    - destruct q; [contradiction | cbn; now rewrite lookup_insert_ne].
    - rewrite node_at_insert by discriminate.
      now rewrite decide_False by congruence. }
  destruct (node_at fs p) as [[|]|];
    destruct (node_at fs (parent p)) as [[|]|]; cbn; auto.
Qed.

Lemma preserves_mkdir_exist_ok q p : q <> p -> preserves q (mkdir_exist_ok p).
Proof.
  intros Hq fs. unfold mkdir_exist_ok.
  pose proof (preserves_os_mkdir q p Hq fs) as H.
  destruct (os_mkdir p fs) as [[[]|e] fs1 l1]; cbn in *; [exact H|].
  destruct e; try exact H; destruct (is_dir fs p); cbn; auto.
Qed.

Lemma preserves_mkdir_parents q p :
  ~ q `suffix_of` p -> preserves q (mkdir_parents p).
Proof.
  induction p as [|c par IH]; intros Hq fs.
  - reflexivity.
  - assert (Hne : q <> c :: par) by (intros ->; now apply Hq).
    assert (Hpar : ~ q `suffix_of` par)
      by (intros H; apply Hq; now apply suffix_cons_r).
    unfold mkdir_parents; fold mkdir_parents.
    pose proof (preserves_os_mkdir q _ Hne fs) as H.
    destruct (os_mkdir (c :: par) fs) as [[[]|e] fs1 l1]; cbn in *;
      [exact H|].
    destruct e; try (destruct (is_dir fs (c :: par)); cbn; auto; fail).
    apply (preserves_bind q (mkdir_parents par)
             (fun _ => mkdir_exist_ok (c :: par))).
    + now apply IH.
    + intros _. now apply preserves_mkdir_exist_ok.
Qed.

Section Frame.

Context `{codec : ImageCodec}.
Variable md5 : list byte -> list byte.
Variable args : Args.

Local Abbreviation process := (process_and_get_meta md5 args).

Lemma preserves_save_file q self dest image :
  q <> dest -> preserves q (_save_file md5 args self dest image).
Proof.
  intros Hq. unfold _save_file. cbv zeta.
  assert (Hsaving : preserves q
    (let* time := match meta self with
                  | Some m => ret (time m)
                  | None => raise TypeError
                  end in
     exec logger_info
       ("Saving " ++ path_str dest ++ " [" ++ time ++ "]") in
     write_bytes dest (save_jpeg image true (quality args)))).
  { apply preserves_bind.
    - destruct (meta self); [apply preserves_ret | apply preserves_raise].
    - intros t. apply preserves_bind; [apply preserves_logger_info|].
      intros _. now apply preserves_write_bytes. }
  apply preserves_bind; [apply preserves_path_exists|].
  intros [|]; [|exact Hsaving].
  apply preserves_bind; [apply preserves_read_bytes|].
  intros local. destruct (decide _); [apply preserves_logger_info|].
  apply preserves_bind; [apply preserves_logger_info|].
  intros _. exact Hsaving.
Qed.

Lemma preserves_for_each {A : Type} q (f : A -> M unit) l :
  (forall x, preserves q (f x)) -> preserves q (for_each f l).
Proof.
  intros Hf. induction l as [|x l IH]; cbn [for_each].
  - apply preserves_ret.
  - apply preserves_bind; [apply Hf | intros _; exact IH].
Qed.

(** [save] touches the destinations of the photo and the directories on
    the way to them, nothing else. *)
Lemma preserves_save q self :
  (forall v, ~ q `suffix_of`
       (path_name (file_path self) :: v :: "_generated"
          :: parent (parent (file_path self)))) ->
  preserves q (save md5 args self).
Proof.
  intros Hq. unfold save. apply preserves_for_each.
  intros [v img]. apply preserves_bind.
  - apply preserves_mkdir_parents. intros H. apply (Hq v).
    now apply suffix_cons_r.
  - intros _. apply preserves_save_file. intros ->. now apply (Hq v).
Qed.

Lemma preserves_open_image q self : preserves q (open_image self).
Proof.
  intros fs. rewrite open_image_eq. cbv zeta.
  repeat match goal with
  | |- context [match ?x with _ => _ end] => destruct x
  end; reflexivity.
Qed.

Lemma file_path_open_image self fs p :
  res (open_image self fs) = Ok p -> file_path p = file_path self.
Proof.
  rewrite open_image_eq. cbv zeta.
  repeat match goal with
  | |- context [match ?x with _ => _ end] => destruct x
  end; cbn; intros [= <-]; reflexivity.
Qed.

Lemma preserves_process q f :
  (forall v, ~ q `suffix_of`
       (path_name f :: v :: "_generated" :: parent (parent f))) ->
  preserves q (process f).
Proof.
  intros Hq fs. unfold process_and_get_meta, Processor_init, bind.
  pose proof (preserves_open_image q (mkProcessor f None []) fs) as H.
  pose proof (file_path_open_image (mkProcessor f None []) fs) as Hp.
  destruct (open_image (mkProcessor f None []) fs)
    as [[p|e] fs1 l1]; cbn in *; [|exact H].
  specialize (Hp p eq_refl).
  rewrite fs_after_after_log.
  destruct (meta p).
  - pose proof (preserves_save q p) as Hs. rewrite Hp in Hs.
    specialize (Hs Hq fs1).
    destruct (save md5 args p fs1) as [[[]|e] fs2 l2]; cbn in *; congruence.
  - cbn. exact H.
Qed.

(** A photo of [a/source] leaves the photos of [a/source] alone. *)
Lemma process_source a n n' fs :
  node_at (fs_after (process (n' :: "source" :: a) fs)) (n :: "source" :: a)
  = node_at fs (n :: "source" :: a).
Proof.
  apply preserves_process. cbn [path_name parent tail].
  intros v H. apply suffix_cons_inv in H as [E | H].
  - apply (f_equal length) in E. simpl in E. lia.
  - apply suffix_cons_inv in H as [E | H].
    + injection E as _ E _. discriminate E.
    + apply suffix_length in H. simpl in H. lia.
Qed.

Lemma Pool_map_preserves {A B : Type} q processes turn (f : A -> M B) l :
  (forall x, x ∈ l -> preserves q (f x)) ->
  preserves q (Pool_map processes turn f l).
Proof.
  intros Hf fs.
  apply (Pool_map_respects processes turn f l
           (fun fs1 fs2 => node_at fs2 q = node_at fs1 q)); try congruence.
  intros x fs1 Hx. now apply Hf.
Qed.

(** A file that cannot be processed raises, and nothing is written. *)
Lemma process_unprocessable f fs :
  ~ processable fs f ->
  exists e, process f fs = mkOutcome (Raise e) fs [].
Proof.
  intros Hn. unfold process_and_get_meta, Processor_init, bind.
  rewrite open_image_eq. cbn [file_path]. cbv zeta.
  destruct (node_at fs f) as [[b|]|] eqn:Hf; [|eauto|eauto].
  destruct (image_decode b) as [im|] eqn:Hb; [|eauto].
  destruct (getexif im) as [exif|] eqn:Hx.
  2: { exfalso. apply Hn. exists b, im. split; [exact Hf|].
       split; [exact Hb|]. left. unfold lacks_time. now rewrite Hx. }
  destruct (exif !! 0x0132) as [datestr|] eqn:Ht.
  2: { exfalso. apply Hn. exists b, im. split; [exact Hf|].
       split; [exact Hb|]. left. unfold lacks_time. now rewrite Hx. }
  destruct (parse_time datestr) as [t|e] eqn:He; [|eauto].
  exfalso. apply Hn. exists b, im. split; [exact Hf|].
  split; [exact Hb|]. right. exists exif, datestr, t. auto.
Qed.

(** A photo of [a/source] is what it was, whatever photos of [a/source]
    the pool has processed. *)
Lemma source_kept a n l :
  Forall (fun g => exists n', g = n' :: "source" :: a) l ->
  forall fs0 g fs, g ∈ l ->
    node_at fs (n :: "source" :: a) = node_at fs0 (n :: "source" :: a) ->
    node_at (fs_after (process g fs)) (n :: "source" :: a)
    = node_at fs0 (n :: "source" :: a).
Proof.
  intros Hl fs0 g fs Hg H. rewrite Forall_forall in Hl.
  destruct (Hl g Hg) as [n' ->]. now rewrite process_source.
Qed.

(** One photo that cannot be processed makes the batch raise. *)
Lemma Pool_map_unprocessable a n processes turn l fs :
  (n :: "source" :: a) ∈ l ->
  Forall (fun g => exists n', g = n' :: "source" :: a) l ->
  ~ processable fs (n :: "source" :: a) ->
  exists e, res (Pool_map processes turn process l fs) = Raise e.
Proof.
  intros Hin Hl Hn.
  apply (Pool_map_fails processes turn process l
           (fun fs' => node_at fs' (n :: "source" :: a)
                       = node_at fs (n :: "source" :: a))
           (fun g fs' Hg => source_kept a n l Hl fs g fs' Hg)
           (n :: "source" :: a)); [|exact Hin | reflexivity].
  intros fs' Hfs'.
  destruct (process_unprocessable (n :: "source" :: a) fs') as [e He].
  { intros H. apply Hn. now apply (processable_node fs' fs). }
  exists e. now rewrite He.
Qed.


End Frame.

(** * The specification, claim by claim *)

(** ** The writer *)

(** C1: the writer on a destination whose directory exists.  A path that
    does not exist is written; an existing file is read and the MD5
    digests of the new and the old bytes are compared: when they are
    equal the file system is left as it is, when they differ the file is
    overwritten with the new bytes.  (A destination that is itself a
    directory cannot be read: the writer raises.) *)
Theorem save_file_by_content_hash `{codec : ImageCodec}
    (md5 : list byte -> list byte) (args : Args)
    (self : Processor) (dest : Path) (image : Image) (fs : FS)
    (m : PhotoMeta) :
  meta self = Some m ->
  is_dir fs (parent dest) = true ->
  let buffer := save_jpeg image true (quality args) in
  let saving :=
    mkLog INFO ("Saving " ++ path_str dest ++ " [" ++ time m ++ "]") in
  _save_file md5 args self dest image fs =
  match node_at fs dest with
  | None => mkOutcome (Ok tt) (<[dest := File buffer]> fs) [saving]
  | Some (File old) =>
      if decide (md5 buffer = md5 old) then
        mkOutcome (Ok tt) fs
          [mkLog INFO ("Skipping " ++ path_str dest ++ " (File unchanged)")]
      else
        mkOutcome (Ok tt) (<[dest := File buffer]> fs)
          [mkLog INFO (path_str dest ++ " TRUNCATED"); saving]
  | Some Dir => mkOutcome (Raise IsADirectoryError) fs []
  end.
Proof. exact (save_file_eq md5 args self dest image fs m). Qed.

(** ** Photos without capture time *)



(** ** The order of the manifest *)

(** C3, as the script has it: the manifest holds exactly the records
    that are not [None], sorted by [time], not decreasing; records with
    the same [time] keep the order of the enumeration; and the manifest
    is the same for every order of the enumeration when no two records
    have the same [time]. *)
Theorem manifest_sorted_by_time (metas : list (option PhotoMeta)) :
  Permutation (manifest metas) (not_none metas) /\
  StronglySorted (key_le time) (manifest metas) /\
  (forall t,
     filter (fun m => time m = t) (manifest metas)
     = filter (fun m => time m = t) (not_none metas)) /\
  (forall metas',
     Permutation metas metas' ->
     NoDup (map time (not_none metas)) ->
     manifest metas' = manifest metas).
Proof.
  unfold manifest. repeat split.
  - apply sorted_perm.
  - apply sorted_sorted.
  - intros t. apply sorted_stable.
  - intros metas' Hp Hn. apply sorted_permutation_invariant; [|exact Hn].
    now apply not_none_perm.
Qed.

(** C3 as stated fails: two photos taken in the same second come out in
    the order of the enumeration. *)
Lemma manifest_order_depends_on_ties :
  Permutation [Some Demo.burst1; Some Demo.burst2]
              [Some Demo.burst2; Some Demo.burst1] /\
  manifest [Some Demo.burst1; Some Demo.burst2]
  <> manifest [Some Demo.burst2; Some Demo.burst1].
Proof.
  split; [apply perm_swap|]. vm_compute. discriminate.
Qed.

(** ** Files that are not images *)



(** ** Orientation *)

(** C6: in a photo that is processed, tag [0x0112] decides the turn: 180
    degrees for 3, 270 for 6, 90 for 8, each with the canvas expanded;
    any other value, a value that is not a number, or no tag at all leave
    the image as decoded.  The constructor returns in every case. *)
Theorem orientation_rotation `{codec : ImageCodec}
    (f : Path) (fs : FS) (b : list byte) (im : Image)
    (exif : gmap Z ExifValue) (datestr : ExifValue) (t : string) :
  node_at fs f = Some (File b) ->
  image_decode b = Some im ->
  getexif im = Some exif ->
  exif !! 0x0132 = Some datestr ->
  parse_time datestr = Ok t ->
  exists p,
    Processor_init f fs = mkOutcome (Ok p) fs [] /\
    dict_get "ori" (imgs p)
    = Some match exif !! 0x0112 with
           | Some (EInt 3) => rotate im 180 true
           | Some (EInt 6) => rotate im 270 true
           | Some (EInt 8) => rotate im 90 true
           | _ => im
           end.
Proof.
  intros Hf Hb Hx Ht Hp.
  eexists. split.
  - exact (Processor_init_ok f fs b im exif datestr t Hf Hb Hx Ht Hp).
  - reflexivity.
Qed.

(** C7: the [hw] of a returned record is the height and the width of
    the oriented image, the one that is stored unresized as [ori]; with
    orientation 6 that is the width and the height of the decoded
    image. *)
Theorem hw_after_rotation `{codec : ImageCodec}
    (md5 : list byte -> list byte) (args : Args)
    (f : Path) (fs : FS) (m : PhotoMeta) :
  res (process_and_get_meta md5 args f fs) = Ok (Some m) ->
  exists b im exif,
    node_at fs f = Some (File b) /\
    image_decode b = Some im /\
    getexif im = Some exif /\
    hw m = (height (oriented exif im), width (oriented exif im)) /\
    (exif !! 0x0112 = Some (EInt 6) -> hw m = (width im, height im)).
Proof.
  intros H.
  destruct (process_returns md5 args f fs m H)
    as (b & im & exif & datestr & Hf & Hb & Hx & _ & _ & Hhw & _).
  exists b, im, exif. repeat split; auto.
  intros H6. rewrite Hhw. unfold oriented. rewrite H6.
  destruct (rotate_quarter_turn im 270) as [-> ->]; auto.
Qed.

(** ** The batch *)

(** C8, as the script has it: with at least one worker, whatever the
    order in which the tasks get done, in a file system where nothing is
    in the way of the photos that are saved and of the manifest, when every
    enumerated file decodes and every capture time parses, and when the
    directory [_generated] exists already or at least one photo has a
    capture time, the run returns and [_generated/metas.json] holds the
    records of the photos with a capture time, sorted by time. *)
Theorem batch_writes_manifest `{codec : ImageCodec}
    (md5 : list byte -> list byte)
    (json_dumps : list PhotoMeta -> list byte) (args : Args)
    (turn : nat -> nat) (fs : FS) :
  let a := assets_dir args in
  let files := jpg_entries ("source" :: a) fs in
  1 <= nproc args ->
  consistent fs -> generated_free (is_saved fs a) fs a ->
  (forall f, f ∈ files -> processable fs f) ->
  (is_dir fs ("_generated" :: a) = true \/
   exists f, f ∈ files /\ is_Some (meta_of fs f)) ->
  exists fs' l,
    main md5 json_dumps args turn fs = mkOutcome (Ok tt) fs' l /\
    node_at fs' ("metas.json" :: "_generated" :: a)
    = Some (File (json_dumps (manifest (map (meta_of fs) files)))).
Proof. exact (main_ok md5 json_dumps args turn fs). Qed.

(** C8 as stated fails: one file that is not an image ends the run with
    the decoder's exception, and no manifest is written. *)
Lemma batch_aborts_on_undecodable_file :
  let o := main (codec := Raster.codec) Raster.digest Raster.dumps
             Demo.args (fun i => i) Demo.corrupt in
  res o = Raise UnidentifiedImageError /\
  node_at (fs_after o) ["metas.json"; "_generated"; "assets"] = None.
Proof.
  vm_compute. split; reflexivity.
Qed.

(** A source directory without photos and no output tree yet: the
    manifest cannot be opened, since only [save] makes [_generated]. *)
Lemma batch_without_output_tree :
  res (main (codec := Raster.codec) Raster.digest Raster.dumps
         Demo.args (fun i => i) Demo.empty_source)
  = Raise FileNotFoundError.
Proof. vm_compute. reflexivity. Qed.

(** C9: on a machine with one core the default pool size is 0, and the
    pool refuses to start. *)
Theorem default_pool_size_on_one_core :
  nproc (parse_args 1 (mkArgv None None None)) = 0 /\
  forall (codec : ImageCodec) md5 json_dumps turn fs,
    res (main md5 json_dumps (parse_args 1 (mkArgv None None None)) turn fs)
    = Raise ValueError.
Proof.
  split; [reflexivity|]. intros codec md5 json_dumps turn fs. reflexivity.
Qed.

(** With two cores or more the default is half of them, rounded down,
    and at least 1. *)
Lemma default_pool_size_from_two_cores (cpu_count : Z) :
  2 <= cpu_count ->
  nproc (parse_args cpu_count (mkArgv None None None)) = cpu_count / 2 /\
  1 <= nproc (parse_args cpu_count (mkArgv None None None)).
Proof.
  intros H. cbn. split; [reflexivity|].
  apply Z.div_le_lower_bound; lia.
Qed.

(** ** Capture times that do not parse *)

Lemma parse_time_mismatch datestr :
  time_matches datestr = false ->
  parse_time datestr = Raise (mismatch_error datestr).
Proof.
  destruct datestr as [n|s|b]; try reflexivity.
  cbn [time_matches mismatch_error parse_time].
  unfold matches_pattern, strptime.
  destruct (compile_format false "%Y:%m:%d %H:%M:%S") as [r|];
    [|reflexivity].
  destruct (re_match r s [] (fun t g => Some (t, g))) as [[[|c t] g]|];
    (discriminate || reflexivity).
Qed.

(** C10, as the script has it: when the capture time is there, the
    result is never [None].  An exception of [parse_time] leaves
    [process_and_get_meta], with nothing logged and nothing written; that
    is so for a value that is not a string ([TypeError]) and for a string
    that the format, as [strptime] reads it, does not match to its end
    ([ValueError]). *)
Theorem unmatched_time_is_raised `{codec : ImageCodec}
    (md5 : list byte -> list byte) (args : Args)
    (f : Path) (fs : FS) (b : list byte) (im : Image)
    (exif : gmap Z ExifValue) (datestr : ExifValue) :
  node_at fs f = Some (File b) ->
  image_decode b = Some im ->
  getexif im = Some exif ->
  exif !! 0x0132 = Some datestr ->
  let process := process_and_get_meta md5 args in
  (forall e, parse_time datestr = Raise e ->
             process f fs = mkOutcome (Raise e) fs []) /\
  (time_matches datestr = false ->
   process f fs = mkOutcome (Raise (mismatch_error datestr)) fs []) /\
  res (process f fs) <> Ok None.
Proof.
  intros Hf Hb Hx Ht process.
  assert (Hraise : forall e, parse_time datestr = Raise e ->
                     process f fs = mkOutcome (Raise e) fs []).
  { intros e He. now apply process_bad_time with b im exif datestr. }
  split; [exact Hraise|]. split.
  - intros Hm. apply Hraise. now apply parse_time_mismatch.
  - destruct (parse_time datestr) as [t|e] eqn:He.
    + subst process. unfold process_and_get_meta, bind.
      rewrite (Processor_init_ok _ _ _ _ _ _ _ Hf Hb Hx Ht He).
      cbn [meta after_log].
      destruct (save _ _ _ _) as [[[]|e] fs' l]; cbn; discriminate.
    + rewrite (Hraise e eq_refl). discriminate.
Qed.

(** * The claims on the example files *)

Lemma save_file_by_content_hash_witness :
  meta Demo.a_processor = Some Demo.a_meta /\
  is_dir Demo.with_old_variant (parent Demo.xs_a_jpg) = true /\
  _save_file Raster.digest Demo.args Demo.a_processor Demo.xs_a_jpg
    Demo.a_image Demo.with_old_variant
  = mkOutcome (Ok tt)
      (<[Demo.xs_a_jpg := File (Raster.encode Demo.a_image true 85)]>
         Demo.with_old_variant)
      [mkLog INFO "assets/_generated/xs/a.jpg TRUNCATED";
       mkLog INFO
         "Saving assets/_generated/xs/a.jpg [2023-05-02T09:00:00+08:00]"].
Proof.
  assert (H1 : meta Demo.a_processor = Some Demo.a_meta) by reflexivity.
  assert (H2 : is_dir Demo.with_old_variant (parent Demo.xs_a_jpg) = true)
    by (vm_compute; reflexivity).
  split; [exact H1|]. split; [exact H2|].
  rewrite (save_file_by_content_hash (codec := Raster.codec) Raster.digest
             Demo.args Demo.a_processor Demo.xs_a_jpg Demo.a_image
             Demo.with_old_variant Demo.a_meta H1 H2).
  vm_compute. reflexivity.
Defined.


Lemma manifest_sorted_by_time_witness :
  Permutation [Some Demo.a_meta; None; Some Demo.b_meta]
              [None; Some Demo.b_meta; Some Demo.a_meta] /\
  NoDup (map time (not_none [Some Demo.a_meta; None; Some Demo.b_meta])) /\
  manifest [None; Some Demo.b_meta; Some Demo.a_meta]
  = manifest [Some Demo.a_meta; None; Some Demo.b_meta].
Proof.
  assert (H1 : Permutation [Some Demo.a_meta; None; Some Demo.b_meta]
                           [None; Some Demo.b_meta; Some Demo.a_meta]).
  { apply Permutation_trans with [None; Some Demo.a_meta; Some Demo.b_meta].
    - apply perm_swap.
    - apply perm_skip, perm_swap. }
  assert (H2 : NoDup (map time (not_none
                        [Some Demo.a_meta; None; Some Demo.b_meta]))).
  { cbn. apply NoDup_cons. split.
    - rewrite elem_of_cons, elem_of_nil. intros [E | []]. discriminate E.
    - apply NoDup_singleton. }
  split; [exact H1|]. split; [exact H2|].
  exact (proj2 (proj2 (proj2 (manifest_sorted_by_time
           [Some Demo.a_meta; None; Some Demo.b_meta]))) _ H1 H2).
Defined.


Lemma orientation_rotation_witness :
  node_at Demo.photos Demo.a_jpg = Some (File Demo.a_bytes) /\
  image_decode (ImageCodec := Raster.codec) Demo.a_bytes
  = Some Demo.a_decoded /\
  getexif (ImageCodec := Raster.codec) Demo.a_decoded = Some Demo.a_exif /\
  Demo.a_exif !! 0x0132 = Some (EStr "2023:05:02 09:00:00") /\
  parse_time (EStr "2023:05:02 09:00:00") = Ok "2023-05-02T09:00:00+08:00" /\
  exists p,
    Processor_init (codec := Raster.codec) Demo.a_jpg Demo.photos
    = mkOutcome (Ok p) Demo.photos [] /\
    dict_get "ori" (imgs p)
    = Some (rotate (ImageCodec := Raster.codec) Demo.a_decoded 270 true).
Proof.
  assert (H1 : node_at Demo.photos Demo.a_jpg = Some (File Demo.a_bytes))
    by (vm_compute; reflexivity).
  assert (H2 : image_decode (ImageCodec := Raster.codec) Demo.a_bytes
               = Some Demo.a_decoded) by (vm_compute; reflexivity).
  assert (H3 : getexif (ImageCodec := Raster.codec) Demo.a_decoded
               = Some Demo.a_exif) by reflexivity.
  assert (H4 : Demo.a_exif !! 0x0132 = Some (EStr "2023:05:02 09:00:00"))
    by (vm_compute; reflexivity).
  assert (H5 : parse_time (EStr "2023:05:02 09:00:00")
               = Ok "2023-05-02T09:00:00+08:00") by (vm_compute; reflexivity).
  repeat (split; [assumption|]).
  exact (orientation_rotation (codec := Raster.codec) Demo.a_jpg Demo.photos
           Demo.a_bytes Demo.a_decoded Demo.a_exif _ _ H1 H2 H3 H4 H5).
Defined.

Lemma hw_after_rotation_witness :
  res (process_and_get_meta (codec := Raster.codec) Raster.digest Demo.args
         Demo.a_jpg Demo.photos) = Ok (Some Demo.a_meta) /\
  exists b im exif,
    node_at Demo.photos Demo.a_jpg = Some (File b) /\
    image_decode (ImageCodec := Raster.codec) b = Some im /\
    getexif im = Some exif /\
    hw Demo.a_meta = (height (oriented exif im), width (oriented exif im)) /\
    (exif !! 0x0112 = Some (EInt 6) ->
     hw Demo.a_meta = (width im, height im)).
Proof.
  assert (H1 : res (process_and_get_meta (codec := Raster.codec)
                      Raster.digest Demo.args Demo.a_jpg Demo.photos)
               = Ok (Some Demo.a_meta)) by (vm_compute; reflexivity).
  split; [exact H1|].
  exact (hw_after_rotation (codec := Raster.codec) Raster.digest Demo.args
           Demo.a_jpg Demo.photos Demo.a_meta H1).
Defined.

Lemma unmatched_time_is_raised_witness :
  node_at Demo.dashed Demo.a_jpg
  = Some (File (Demo.photo x03 x04 x01 "2023-05-01 10:00:00")) /\
  image_decode (ImageCodec := Raster.codec)
    (Demo.photo x03 x04 x01 "2023-05-01 10:00:00")
  = Some Demo.dashed_decoded /\
  getexif (ImageCodec := Raster.codec) Demo.dashed_decoded
  = Some Demo.dashed_exif /\
  Demo.dashed_exif !! 0x0132 = Some (EStr "2023-05-01 10:00:00") /\
  time_matches (EStr "2023-05-01 10:00:00") = false /\
  process_and_get_meta (codec := Raster.codec) Raster.digest Demo.args
    Demo.a_jpg Demo.dashed
  = mkOutcome (Raise ValueError) Demo.dashed [].
Proof.
  assert (H1 : node_at Demo.dashed Demo.a_jpg
               = Some (File (Demo.photo x03 x04 x01 "2023-05-01 10:00:00")))
    by (vm_compute; reflexivity).
  assert (H2 : image_decode (ImageCodec := Raster.codec)
                 (Demo.photo x03 x04 x01 "2023-05-01 10:00:00")
               = Some Demo.dashed_decoded) by (vm_compute; reflexivity).
  assert (H3 : getexif (ImageCodec := Raster.codec) Demo.dashed_decoded
               = Some Demo.dashed_exif) by reflexivity.
  assert (H4 : Demo.dashed_exif !! 0x0132
               = Some (EStr "2023-05-01 10:00:00"))
    by (vm_compute; reflexivity).
  assert (H5 : time_matches (EStr "2023-05-01 10:00:00") = false)
    by (vm_compute; reflexivity).
  repeat (split; [assumption|]).
  exact (proj1 (proj2 (unmatched_time_is_raised (codec := Raster.codec)
                         Raster.digest Demo.args Demo.a_jpg Demo.dashed
                         _ _ _ _ H1 H2 H3 H4)) H5).
Defined.

(** The entries of the example file system, for the hypotheses that
    range over all paths. *)
Lemma cluttered_entries k x :
  Demo.cluttered !! k = Some x ->
  (k, x) = (["assets"], Dir) \/
  (k, x) = (["source"; "assets"], Dir) \/
  (k, x) = (Demo.a_jpg, File Demo.a_bytes) \/
  (k, x) = (Demo.b_jpg, File Demo.b_bytes) \/
  (k, x) = (Demo.c_jpg, File Demo.c_bytes) \/
  (k, x) = (["_generated"; "assets"], Dir) \/
  (k, x) = (["xs"; "_generated"; "assets"], Dir) \/
  (k, x) = (["unrelated"; "xs"; "_generated"; "assets"], Dir).
Proof.
  unfold Demo.cluttered. intros H. apply elem_of_list_to_map_2 in H.
  repeat (apply elem_of_cons in H as [H | H]; [now left|]; right).
  apply elem_of_cons in H as [H | H]; [exact H|].
  now apply elem_of_nil in H.
Qed.

Lemma cluttered_consistent : consistent Demo.cluttered.
Proof.
  intros c p [x Hx].
  destruct (cluttered_entries _ _ Hx)
    as [E | [E | [E | [E | [E | [E | [E | E]]]]]]];
    injection E as _ -> _; vm_compute; reflexivity.
Qed.

Lemma cluttered_listing :
  jpg_entries ["source"; "assets"] Demo.cluttered
  = [Demo.c_jpg; Demo.b_jpg; Demo.a_jpg].
Proof. vm_compute. reflexivity. Qed.

Lemma cluttered_generated_free :
  generated_free (is_saved (codec := Raster.codec) Demo.cluttered ["assets"])
    Demo.cluttered ["assets"].
Proof.
  split; [|split; [|split]].
  - intros q x Hs Hq. destruct q as [|c q]; [discriminate Hq|].
    apply suffix_cons_inv in Hs as [E | Hs];
      [rewrite E in Hq; vm_compute in Hq; discriminate Hq|].
    apply suffix_cons_inv in Hs as [E | Hs];
      [rewrite E in Hq; vm_compute in Hq; discriminate Hq|].
    apply suffix_nil_inv in Hs. discriminate Hs.
  - intros n v x _ Hv Hq. unfold variant_names in Hv. cbn in Hv.
    rewrite !elem_of_cons, elem_of_nil in Hv.
    destruct Hv as [-> | [-> | [-> | []]]];
      vm_compute in Hq; discriminate Hq.
  - intros n v [Hn _] Hv Hq. rewrite cluttered_listing in Hn.
    unfold Demo.a_jpg, Demo.b_jpg, Demo.c_jpg in Hn.
    rewrite !elem_of_cons, elem_of_nil in Hn.
    unfold variant_names in Hv. cbn in Hv.
    rewrite !elem_of_cons, elem_of_nil in Hv.
    destruct Hn as [E | [E | [E | []]]]; injection E as ->;
      destruct Hv as [-> | [-> | [-> | []]]];
      vm_compute in Hq; discriminate Hq.
  - vm_compute. discriminate.
Qed.

Lemma cluttered_processable f :
  f ∈ jpg_entries ["source"; "assets"] Demo.cluttered ->
  processable (codec := Raster.codec) Demo.cluttered f.
Proof.
  rewrite cluttered_listing, !elem_of_cons, elem_of_nil.
  intros [-> | [-> | [-> | []]]].
  - exists Demo.c_bytes, Demo.c_decoded.
    split; [vm_compute; reflexivity|].
    split; [vm_compute; reflexivity|].
    left. vm_compute. reflexivity.
  - exists Demo.b_bytes, Demo.b_decoded.
    split; [vm_compute; reflexivity|].
    split; [vm_compute; reflexivity|].
    right. exists Demo.b_exif, (EStr "2023:05:01 10:00:00"),
             "2023-05-01T10:00:00+08:00".
    split; [vm_compute; reflexivity|].
    split; vm_compute; reflexivity.
  - exists Demo.a_bytes, Demo.a_decoded.
    split; [vm_compute; reflexivity|].
    split; [vm_compute; reflexivity|].
    right. exists Demo.a_exif, (EStr "2023:05:02 09:00:00"),
             "2023-05-02T09:00:00+08:00".
    split; [vm_compute; reflexivity|].
    split; vm_compute; reflexivity.
Qed.

Lemma batch_writes_manifest_witness :
  1 <= nproc Demo.args /\
  consistent Demo.cluttered /\
  generated_free (is_saved (codec := Raster.codec) Demo.cluttered ["assets"])
    Demo.cluttered ["assets"] /\
  (forall f, f ∈ jpg_entries ["source"; "assets"] Demo.cluttered ->
             processable (codec := Raster.codec) Demo.cluttered f) /\
  (exists f, f ∈ jpg_entries ["source"; "assets"] Demo.cluttered /\
             is_Some (meta_of (codec := Raster.codec) Demo.cluttered f)) /\
  exists fs' l,
    main (codec := Raster.codec) Raster.digest Raster.dumps Demo.args
      (fun i => i) Demo.cluttered = mkOutcome (Ok tt) fs' l /\
    node_at fs' ["metas.json"; "_generated"; "assets"]
    = Some (File (Raster.dumps
                    (manifest
                       (map (meta_of (codec := Raster.codec) Demo.cluttered)
                          (jpg_entries ["source"; "assets"]
                             Demo.cluttered))))).
Proof.
  assert (H1 : 1 <= nproc Demo.args) by (cbn; lia).
  assert (H5 : exists f,
             f ∈ jpg_entries ["source"; "assets"] Demo.cluttered /\
             is_Some (meta_of (codec := Raster.codec) Demo.cluttered f)).
  { exists Demo.a_jpg. split.
    - rewrite cluttered_listing. repeat constructor.
    - exists Demo.a_meta. vm_compute. reflexivity. }
  split; [exact H1|]. split; [exact cluttered_consistent|].
  split; [exact cluttered_generated_free|].
  split; [exact cluttered_processable|]. split; [exact H5|].
  exact (batch_writes_manifest (codec := Raster.codec) Raster.digest
           Raster.dumps Demo.args (fun i => i) Demo.cluttered H1
           cluttered_consistent cluttered_generated_free
           cluttered_processable (or_intror H5)).
Defined.

(** On the example the manifest lists [b.jpg], taken on May 1, before
    [a.jpg], taken on May 2; [c.jpg] is not in it. *)
Lemma photos_manifest :
  manifest (map (meta_of (codec := Raster.codec) Demo.photos)
              (jpg_entries ["source"; "assets"] Demo.photos))
  = [Demo.b_meta; Demo.a_meta].
Proof. vm_compute. reflexivity. Qed.

(** * Further properties of the script *)

(** ** More on [parse_time] *)

Section MoreFields.

Context {R : Type}.
Implicit Types (k : string -> Groups -> option R) (g : Groups).

(** The directive for seconds takes the leap seconds 60 and 61. *)
Lemma match_S_leap n rest g k x r :
  directive "S" = Some r -> 60 <= n <= 61 ->
  k rest (("S"%char, fmt_d0 2 n) :: g) = Some x ->
  re_match (Grp "S" r) (fmt_d0 2 n ++ rest)%string g k = Some x.
Proof.
  intros Hd Hn Hk. injection Hd as <-.
  apply re_match_group; [|exact Hk].
  clear Hk. intros k' Hk'.
  assert (n = 60 \/ n = 61) as [-> | ->] by lia.
  - cbv. rewrite Hk'. reflexivity.
  - cbv. rewrite Hk'. reflexivity.
Qed.

Lemma match_S_any n rest g k x r :
  directive "S" = Some r -> 0 <= n <= 61 ->
  k rest (("S"%char, fmt_d0 2 n) :: g) = Some x ->
  re_match (Grp "S" r) (fmt_d0 2 n ++ rest)%string g k = Some x.
Proof.
  intros Hd Hn Hk. destruct (Z_le_gt_dec n 59).
  - apply match_S; auto. lia.
  - apply match_S_leap; auto. lia.
Qed.

End MoreFields.

(** The format on a zero-padded capture time followed by [rest]: the
    six groups, and [rest] left over. *)
Lemma match_exif_time y mo d h mi s rest r :
  compile_format false "%Y:%m:%d %H:%M:%S" = Some r ->
  in_format y mo d h mi s ->
  re_match r (exif_time y mo d h mi s ++ rest) [] (fun t g => Some (t, g))
  = Some (rest,
          [("S"%char, fmt_d0 2 s); ("M"%char, fmt_d0 2 mi);
           ("H"%char, fmt_d0 2 h); ("d"%char, fmt_d0 2 d);
           ("m"%char, fmt_d0 2 mo); ("Y"%char, fmt_d0 4 y)]).
Proof.
  intros Hr (Hy & Hmo & Hd & Hh & Hmi & Hs).
  change (compile_format false "%Y:%m:%d %H:%M:%S") with
    (match directive "Y", directive "m", directive "d",
           directive "H", directive "M", directive "S" with
     | Some rY, Some rm, Some rd, Some rH, Some rM, Some rS =>
         Some (Cat (Grp "Y" rY) (Cat (Lit ":") (Cat (Grp "m" rm)
              (Cat (Lit ":") (Cat (Grp "d" rd) (Cat (Plus is_space)
              (Cat (Grp "H" rH) (Cat (Lit ":") (Cat (Grp "M" rM)
              (Cat (Lit ":") (Cat (Grp "S" rS) Eps)))))))))))
     | _, _, _, _, _, _ => None
     end) in Hr.
  destruct (directive "Y") as [rY|] eqn:EY; [|discriminate EY].
  destruct (directive "m") as [rm|] eqn:Em; [|discriminate Em].
  destruct (directive "d") as [rd|] eqn:Ed; [|discriminate Ed].
  destruct (directive "H") as [rH|] eqn:EH; [|discriminate EH].
  destruct (directive "M") as [rM|] eqn:EM; [|discriminate EM].
  destruct (directive "S") as [rS|] eqn:ES; [|discriminate ES].
  injection Hr as <-.
  unfold exif_time. rewrite !str_app_assoc.
  rewrite re_match_cat. apply match_Y; [assumption | lia |].
  cbv beta. rewrite re_match_cat, re_match_lit, re_match_cat.
  apply match_m; [assumption | lia |].
  cbv beta. rewrite re_match_cat, re_match_lit, re_match_cat.
  apply match_d; [assumption | lia |].
  cbv beta. rewrite re_match_cat.
  apply match_blank; [lia|].
  rewrite re_match_cat. apply match_H; [assumption | lia |].
  cbv beta. rewrite re_match_cat, re_match_lit, re_match_cat.
  apply match_M; [assumption | lia |].
  cbv beta. rewrite re_match_cat, re_match_lit, re_match_cat.
  apply match_S_any; [assumption | lia |].
  reflexivity.
Qed.

Lemma datetime_new_cases y mo d h mi s :
  (valid_fields y mo d h mi s /\
   datetime_new y mo d h mi s 0 = Ok (mkDatetime y mo d h mi s 0 None)) \/
  (~ valid_fields y mo d h mi s /\
   datetime_new y mo d h mi s 0 = Raise ValueError).
Proof.
  unfold datetime_new, valid_fields.
  repeat match goal with
  | |- context [negb (?a && ?b)] =>
      let Ha := fresh in let Hb := fresh in
      destruct a eqn:Ha; destruct b eqn:Hb; cbn [negb andb];
      try (right; split; [|reflexivity];
           rewrite ?Z.leb_le, ?Z.leb_gt in *; lia)
  end.
  left. split; [|reflexivity]. rewrite ?Z.leb_le in *. lia.
Qed.

(** [strptime] on a zero-padded capture time is the range check of the
    [datetime] constructor. *)
Lemma strptime_zero_padded y mo d h mi s :
  in_format y mo d h mi s ->
  strptime (exif_time y mo d h mi s) "%Y:%m:%d %H:%M:%S"
  = datetime_new y mo d h mi s 0.
Proof.
  intros Hf. pose proof Hf as (Hy & Hmo & Hd & Hh & Hmi & Hs).
  unfold strptime.
  destruct (compile_format false "%Y:%m:%d %H:%M:%S") as [r|] eqn:Hr;
    [|discriminate Hr].
  rewrite <- (str_app_nil_r (exif_time y mo d h mi s)).
  rewrite (match_exif_time _ _ _ _ _ _ "" r Hr Hf).
  unfold field. cbn [group Ascii.eqb Bool.eqb].
  rewrite (py_int_fmt4 y) by lia.
  rewrite !py_int_fmt2 by lia.
  reflexivity.
Qed.

(** X1: a zero-padded capture time that is not a date and a time of day
    of the calendar (year 0, 30 February, second 60) makes [parse_time]
    raise [ValueError]. *)
Theorem parse_time_rejects_impossible_dates y mo d h mi s :
  in_format y mo d h mi s ->
  ~ valid_fields y mo d h mi s ->
  parse_time (EStr (exif_time y mo d h mi s)) = Raise ValueError.
Proof.
  intros Hf Hn. unfold parse_time.
  rewrite (strptime_zero_padded _ _ _ _ _ _ Hf).
  destruct (datetime_new_cases y mo d h mi s) as [[Hv _] | [_ ->]];
    [contradiction | reflexivity].
Qed.

Lemma parse_time_rejects_impossible_dates_witness :
  in_format 2023 2 30 10 0 0 /\
  ~ valid_fields 2023 2 30 10 0 0 /\
  parse_time (EStr "2023:02:30 10:00:00") = Raise ValueError.
Proof.
  assert (H1 : in_format 2023 2 30 10 0 0) by (unfold in_format; lia).
  assert (H2 : ~ valid_fields 2023 2 30 10 0 0).
  { unfold valid_fields. intros (_ & _ & H & _). vm_compute in H.
    destruct H as [_ H]. apply H. reflexivity. }
  split; [exact H1|]. split; [exact H2|].
  exact (parse_time_rejects_impossible_dates 2023 2 30 10 0 0 H1 H2).
Defined.

(** X2: anything after the seconds makes [parse_time] raise
    [ValueError]: the match does not reach the end of the string. *)
Theorem parse_time_rejects_trailing_text y mo d h mi s c rest :
  in_format y mo d h mi s ->
  parse_time (EStr (exif_time y mo d h mi s ++ String c rest))
  = Raise ValueError.
Proof.
  intros Hf. unfold parse_time, strptime.
  destruct (compile_format false "%Y:%m:%d %H:%M:%S") as [r|] eqn:Hr;
    [|discriminate Hr].
  now rewrite (match_exif_time _ _ _ _ _ _ (String c rest) r Hr Hf).
Qed.

Lemma parse_time_rejects_trailing_text_witness :
  in_format 2023 5 1 10 0 0 /\
  parse_time (EStr "2023:05:01 10:00:00Z") = Raise ValueError.
Proof.
  assert (H1 : in_format 2023 5 1 10 0 0) by (unfold in_format; lia).
  split; [exact H1|].
  exact (parse_time_rejects_trailing_text 2023 5 1 10 0 0 "Z" "" H1).
Defined.

Lemma fmt2_length n : 0 <= n <= 99 -> String.length (fmt_d0 2 n) = 2%nat.
Proof.
  intros Hn. destruct (fmt2_chars n Hn) as (c1 & c2 & -> & _). reflexivity.
Qed.

Lemma fmt4_length n : 0 <= n <= 9999 -> String.length (fmt_d0 4 n) = 4%nat.
Proof.
  intros Hn. destruct (fmt4_chars n Hn) as (c1 & c2 & c3 & c4 & -> & _).
  reflexivity.
Qed.

Lemma iso_time_length y mo d h mi s :
  valid_fields y mo d h mi s ->
  String.length (iso_time y mo d h mi s) = 25%nat.
Proof.
  intros (Hy & Hmo & Hd & Hh & Hmi & Hs).
  pose proof (days_in_month_le y mo).
  unfold iso_time. rewrite !str_length_app.
  rewrite fmt4_length by lia. rewrite !fmt2_length by lia. reflexivity.
Qed.

Lemma isoformat_plus8 y mo d h mi s :
  isoformat (replace_tzinfo (mkDatetime y mo d h mi s 0 None)
               (Some (8 * 3600)))
  = iso_time y mo d h mi s.
Proof.
  unfold isoformat, replace_tzinfo, format_time, iso_time.
  cbn [year month day hour minute second microsecond tzinfo].
  change (0 =? 0) with true. cbv iota.
  change (format_offset (Some (8 * 3600))) with "+08:00".
  rewrite !str_app_assoc. reflexivity.
Qed.

(** X3: whatever [parse_time] returns is a date and a time of day of the
    calendar, written [YYYY-MM-DDTHH:MM:SS+08:00]: 25 characters, every
    field zero-padded, always the offset of UTC+8. *)
Theorem parse_time_returns_iso8601 (datestr : ExifValue) (t : string) :
  parse_time datestr = Ok t ->
  exists y mo d h mi s,
    valid_fields y mo d h mi s /\
    t = iso_time y mo d h mi s /\
    String.length t = 25%nat.
Proof.
  destruct datestr as [n|str|b]; try discriminate.
  unfold parse_time, strptime.
  destruct (compile_format false "%Y:%m:%d %H:%M:%S") as [r|];
    [|discriminate].
  destruct (re_match r str [] (fun t g => Some (t, g))) as [[[|c rest] g]|];
    try discriminate.
  destruct (field "Y" 1900 g) as [y|]; [|discriminate].
  destruct (field "m" 1 g) as [mo|]; [|discriminate].
  destruct (field "d" 1 g) as [d|]; [|discriminate].
  destruct (field "H" 0 g) as [h|]; [|discriminate].
  destruct (field "M" 0 g) as [mi|]; [|discriminate].
  destruct (field "S" 0 g) as [s|]; [|discriminate].
  cbn [rbind].
  destruct (datetime_new_cases y mo d h mi s) as [[Hv ->] | [_ ->]];
    [|discriminate].
  cbn [rbind tzinfo]. rewrite isoformat_plus8. intros [= <-].
  exists y, mo, d, h, mi, s. split; [exact Hv|]. split; [reflexivity|].
  now apply iso_time_length.
Qed.

Lemma parse_time_returns_iso8601_witness :
  parse_time (EStr "2023:05:01 10:00:00") = Ok "2023-05-01T10:00:00+08:00" /\
  exists y mo d h mi s,
    valid_fields y mo d h mi s /\
    "2023-05-01T10:00:00+08:00" = iso_time y mo d h mi s /\
    String.length "2023-05-01T10:00:00+08:00" = 25%nat.
Proof.
  assert (H1 : parse_time (EStr "2023:05:01 10:00:00")
               = Ok "2023-05-01T10:00:00+08:00") by (vm_compute; reflexivity).
  split; [exact H1|].
  exact (parse_time_returns_iso8601 _ _ H1).
Defined.

(** ** The order of the times *)

Lemma compare_app (a1 a2 r1 r2 : string) :
  String.length a1 = String.length a2 ->
  String.compare (a1 ++ r1) (a2 ++ r2)
  = then_cmp (String.compare a1 a2) (String.compare r1 r2).
Proof.
  revert a2. induction a1 as [|c1 a1 IH]; intros [|c2 a2] Hl;
    try discriminate Hl.
  - reflexivity.
  - cbn [String.append String.compare].
    destruct (Ascii.compare c1 c2); cbn [then_cmp]; [|reflexivity ..].
    apply IH. now injection Hl.
Qed.

Lemma then_cmp_Eq_r c : then_cmp c Eq = c.
Proof. now destruct c. Qed.

Lemma fmt2_compare n m :
  0 <= n <= 99 -> 0 <= m <= 99 ->
  String.compare (fmt_d0 2 n) (fmt_d0 2 m) = (n ?= m).
Proof.
  intros Hn Hm.
  assert (H : forallb two_digits_ordered
                (list_prod (map Z.of_nat (seq 0 100))
                           (map Z.of_nat (seq 0 100))) = true)
    by (vm_compute; reflexivity).
  rewrite forallb_forall in H. specialize (H (n, m)).
  unfold two_digits_ordered in H. cbn [fst snd] in H.
  assert (Hin : forall z, 0 <= z <= 99 ->
                  In z (map Z.of_nat (seq 0 100))).
  { intros z Hz. apply in_map_iff. exists (Z.to_nat z).
    split; [lia|]. apply in_seq. lia. }
  specialize (H (proj2 (in_prod_iff _ _ n m) (conj (Hin n Hn) (Hin m Hm)))).
  destruct (String.compare (fmt_d0 2 n) (fmt_d0 2 m)), (n ?= m);
    (reflexivity || discriminate H).
Qed.

Lemma fmt4_split n :
  0 <= n <= 9999 ->
  fmt_d0 4 n = (fmt_d0 2 (n / 100) ++ fmt_d0 2 (n mod 100))%string.
Proof.
  intros Hn. apply String.eqb_eq.
  apply (Z_range_forallb four_is_two_two 10000); [|lia].
  vm_compute. reflexivity.
Qed.

Lemma fmt4_compare n m :
  0 <= n <= 9999 -> 0 <= m <= 9999 ->
  String.compare (fmt_d0 4 n) (fmt_d0 4 m) = (n ?= m).
Proof.
  intros Hn Hm.
  pose proof (Z.mod_pos_bound n 100 ltac:(lia)) as Hrn.
  pose proof (Z.mod_pos_bound m 100 ltac:(lia)) as Hrm.
  pose proof (Z.div_mod n 100 ltac:(lia)) as En.
  pose proof (Z.div_mod m 100 ltac:(lia)) as Em.
  assert (Hqn : 0 <= n / 100 <= 99) by lia.
  assert (Hqm : 0 <= m / 100 <= 99) by lia.
  rewrite (fmt4_split n Hn), (fmt4_split m Hm).
  rewrite compare_app by (rewrite !fmt2_length by lia; reflexivity).
  rewrite !fmt2_compare by lia.
  destruct (Z.compare_spec (n / 100) (m / 100)) as [E | L | L];
    cbn [then_cmp].
  - destruct (Z.compare_spec (n mod 100) (m mod 100)) as [E' | L' | L'];
      symmetry.
    + apply Z.compare_eq_iff. lia.
    + apply Z.compare_lt_iff. lia.
    + apply Z.compare_gt_iff. lia.
  - symmetry. apply Z.compare_lt_iff. lia.
  - symmetry. apply Z.compare_gt_iff. lia.
Qed.

Lemma compare_same_head c (r1 r2 : string) :
  String.compare (String c "" ++ r1) (String c "" ++ r2)
  = String.compare r1 r2.
Proof.
  cbn [String.append String.compare]. unfold Ascii.compare.
  now rewrite N.compare_refl.
Qed.

Lemma iso_time_compare y1 mo1 d1 h1 mi1 s1 y2 mo2 d2 h2 mi2 s2 :
  valid_fields y1 mo1 d1 h1 mi1 s1 ->
  valid_fields y2 mo2 d2 h2 mi2 s2 ->
  String.compare (iso_time y1 mo1 d1 h1 mi1 s1) (iso_time y2 mo2 d2 h2 mi2 s2)
  = chrono_compare y1 mo1 d1 h1 mi1 s1 y2 mo2 d2 h2 mi2 s2.
Proof.
  intros (Hy1 & Hmo1 & Hd1 & Hh1 & Hmi1 & Hs1)
         (Hy2 & Hmo2 & Hd2 & Hh2 & Hmi2 & Hs2).
  pose proof (days_in_month_le y1 mo1). pose proof (days_in_month_le y2 mo2).
  unfold iso_time, chrono_compare.
  rewrite compare_app by (rewrite !fmt4_length by lia; reflexivity).
  rewrite fmt4_compare by lia. f_equal.
  rewrite compare_same_head.
  rewrite compare_app by (rewrite !fmt2_length by lia; reflexivity).
  rewrite fmt2_compare by lia. f_equal.
  rewrite compare_same_head.
  rewrite compare_app by (rewrite !fmt2_length by lia; reflexivity).
  rewrite fmt2_compare by lia. f_equal.
  rewrite compare_same_head.
  rewrite compare_app by (rewrite !fmt2_length by lia; reflexivity).
  rewrite fmt2_compare by lia. f_equal.
  rewrite compare_same_head.
  rewrite compare_app by (rewrite !fmt2_length by lia; reflexivity).
  rewrite fmt2_compare by lia. f_equal.
  rewrite compare_same_head.
  rewrite compare_app by (rewrite !fmt2_length by lia; reflexivity).
  rewrite fmt2_compare by lia.
  change (String.compare "+08:00" "+08:00") with Eq.
  apply then_cmp_Eq_r.
Qed.

(** X5: on the times that [parse_time] returns, the order of the strings,
    which [sorted] uses, is the order of the instants: year, then month,
    day, hour, minute, second. *)
Theorem time_strings_sort_chronologically
    y1 mo1 d1 h1 mi1 s1 y2 mo2 d2 h2 mi2 s2 :
  valid_fields y1 mo1 d1 h1 mi1 s1 ->
  valid_fields y2 mo2 d2 h2 mi2 s2 ->
  String.compare (iso_time y1 mo1 d1 h1 mi1 s1) (iso_time y2 mo2 d2 h2 mi2 s2)
  = chrono_compare y1 mo1 d1 h1 mi1 s1 y2 mo2 d2 h2 mi2 s2 /\
  (String.ltb (iso_time y1 mo1 d1 h1 mi1 s1) (iso_time y2 mo2 d2 h2 mi2 s2)
   = true <->
   chrono_compare y1 mo1 d1 h1 mi1 s1 y2 mo2 d2 h2 mi2 s2 = Lt).
Proof.
  intros H1 H2. pose proof (iso_time_compare _ _ _ _ _ _ _ _ _ _ _ _ H1 H2)
    as E.
  split; [exact E|]. unfold String.ltb. rewrite E.
  destruct (chrono_compare _ _ _ _ _ _ _ _ _ _ _ _);
    split; (reflexivity || discriminate).
Qed.

Lemma time_strings_sort_chronologically_witness :
  valid_fields 2023 5 1 10 0 0 /\
  valid_fields 2023 5 2 9 0 0 /\
  String.ltb "2023-05-01T10:00:00+08:00" "2023-05-02T09:00:00+08:00" = true.
Proof.
  assert (H1 : valid_fields 2023 5 1 10 0 0).
  { unfold valid_fields. vm_compute. intuition discriminate. }
  assert (H2 : valid_fields 2023 5 2 9 0 0).
  { unfold valid_fields. vm_compute. intuition discriminate. }
  split; [exact H1|]. split; [exact H2|].
  exact (proj2 (proj2 (time_strings_sort_chronologically
                         2023 5 1 10 0 0 2023 5 2 9 0 0 H1 H2)) eq_refl).
Defined.

(** ** What the run leaves alone *)

Lemma source_not_generated (a q : Path) n v :
  ("source" :: a) `suffix_of` q ->
  ~ q `suffix_of` (n :: v :: "_generated" :: a).
Proof.
  intros Hs Hq.
  assert (H : ("source" :: a) `suffix_of` (n :: v :: "_generated" :: a))
    by (etrans; eassumption).
  apply suffix_cons_inv in H as [E | H].
  { apply (f_equal length) in E. simpl in E. lia. }
  apply suffix_cons_inv in H as [E | H].
  { apply (f_equal length) in E. simpl in E. lia. }
  apply suffix_cons_inv in H as [E | H].
  { injection E as E. discriminate E. }
  apply suffix_length in H. simpl in H. lia.
Qed.

Section Untouched.

Context `{codec : ImageCodec}.
Variable md5 : list byte -> list byte.
Variable json_dumps : list PhotoMeta -> list byte.
Variable args : Args.
Variable turn : nat -> nat.

Lemma main_preserves_source q :
  ("source" :: assets_dir args) `suffix_of` q ->
  preserves q (main md5 json_dumps args turn).
Proof.
  intros Hq fs. unfold main, bind at 1, Pool.
  destruct (nproc args <? 1); [reflexivity|]. cbn [ret after_log].
  unfold bind at 1, glob_jpg. cbn [after_log].
  rewrite !fs_after_after_log.
  refine (preserves_bind q
            (Pool_map (nproc args) turn (process_and_get_meta md5 args)
               (jpg_entries ("source" :: assets_dir args) fs)) _ _ _ fs).
  - apply Pool_map_preserves. intros f Hf.
    destruct (jpg_entries_source _ _ _ Hf) as [n ->].
    apply preserves_process. cbn [path_name parent tail].
    intros v. now apply source_not_generated.
  - intros metas.
    apply preserves_bind; [apply preserves_logger_info|]. intros _.
    apply preserves_bind; [apply preserves_logger_info|]. intros _.
    apply preserves_write_bytes. intros ->.
    apply suffix_cons_inv in Hq as [E | Hq].
    { apply (f_equal length) in E. simpl in E. lia. }
    apply suffix_cons_inv in Hq as [E | Hq].
    { injection E as E. discriminate E. }
    apply suffix_length in Hq. simpl in Hq. lia.
Qed.

End Untouched.

(** X7: whatever the run does and however it ends, the source directory
    and everything below it are after the run what they were before. *)
Theorem run_leaves_source_untouched `{codec : ImageCodec}
    (md5 : list byte -> list byte)
    (json_dumps : list PhotoMeta -> list byte) (args : Args)
    (turn : nat -> nat) (fs : FS) (q : Path) :
  ("source" :: assets_dir args) `suffix_of` q ->
  node_at (fs_after (main md5 json_dumps args turn fs)) q = node_at fs q.
Proof. intros Hq. now apply main_preserves_source. Qed.

Lemma run_leaves_source_untouched_witness :
  ("source" :: assets_dir Demo.args) `suffix_of` Demo.a_jpg /\
  node_at (fs_after (main (codec := Raster.codec) Raster.digest Raster.dumps
                       Demo.args (fun i => i) Demo.photos)) Demo.a_jpg
  = node_at Demo.photos Demo.a_jpg.
Proof.
  assert (H1 : ("source" :: assets_dir Demo.args) `suffix_of` Demo.a_jpg)
    by (exists ["a.jpg"]; reflexivity).
  split; [exact H1|].
  exact (run_leaves_source_untouched (codec := Raster.codec) Raster.digest
           Raster.dumps Demo.args (fun i => i) Demo.photos Demo.a_jpg H1).
Defined.

(** ** Nothing is removed *)

Lemma persists_refl fs : persists fs fs.
Proof. intros q. destruct (node_at fs q) as [[b|]|]; eauto. Qed.

Lemma persists_trans fs1 fs2 fs3 :
  persists fs1 fs2 -> persists fs2 fs3 -> persists fs1 fs3.
Proof.
  intros H12 H23 q. specialize (H12 q). specialize (H23 q).
  destruct (node_at fs1 q) as [[b|]|]; [| |exact I].
  - destruct H12 as [b' E]. now rewrite E in H23.
  - now rewrite H12 in H23.
Qed.

Lemma persists_insert_dir fs p :
  p <> [] -> node_at fs p = None -> persists fs (<[p := Dir]> fs).
Proof.
  intros Hp Hn q. rewrite node_at_insert by exact Hp.
  destruct (decide (p = q)) as [<-|]; [now rewrite Hn|].
  destruct (node_at fs q) as [[b|]|]; eauto.
Qed.

Lemma persists_insert_file fs p b :
  p <> [] -> node_at fs p <> Some Dir -> persists fs (<[p := File b]> fs).
Proof.
  intros Hp Hn q. rewrite node_at_insert by exact Hp.
  destruct (decide (p = q)) as [<-|].
  - destruct (node_at fs p) as [[b'|]|]; [eauto | contradiction | exact I].
  - destruct (node_at fs q) as [[b'|]|]; eauto.
Qed.

Lemma keeps_ret {A : Type} (a : A) : keeps (ret a).
Proof. intros fs. apply persists_refl. Qed.

Lemma keeps_raise {A : Type} e : keeps (@raise A e).
Proof. intros fs. apply persists_refl. Qed.

Lemma keeps_lift {A : Type} (r : Result A) : keeps (lift r).
Proof. intros fs. apply persists_refl. Qed.

Lemma keeps_logger_info msg : keeps (logger_info msg).
Proof. intros fs. apply persists_refl. Qed.

Lemma keeps_logger_error msg : keeps (logger_error msg).
Proof. intros fs. apply persists_refl. Qed.

Lemma keeps_path_exists p : keeps (path_exists p).
Proof. intros fs. apply persists_refl. Qed.

Lemma keeps_glob_jpg dir : keeps (glob_jpg dir).
Proof. intros fs. apply persists_refl. Qed.

Lemma keeps_Pool n : keeps (Pool n).
Proof. intros fs. unfold Pool. destruct (n <? 1); apply persists_refl. Qed.

Lemma keeps_read_bytes p : keeps (read_bytes p).
Proof.
  intros fs. unfold read_bytes.
  destruct (node_at fs p) as [[|]|]; apply persists_refl.
Qed.

Lemma keeps_bind {A B : Type} (m : M A) (f : A -> M B) :
  keeps m -> (forall a, keeps (f a)) -> keeps (bind m f).
Proof.
  intros Hm Hf fs. unfold bind. specialize (Hm fs).
  destruct (m fs) as [[a|e] fs1 l1]; cbn in *; [|exact Hm].
  rewrite fs_after_after_log. eapply persists_trans; [exact Hm | apply Hf].
Qed.

Lemma keeps_write_bytes p b : keeps (write_bytes p b).
Proof.
  intros fs. unfold write_bytes.
  destruct (node_at fs p) as [[old|]|] eqn:Hp;
    destruct (node_at fs (parent p)) as [[|]|]; cbn;
    try apply persists_refl;
    (apply persists_insert_file;
     [intros ->; discriminate Hp | rewrite Hp; discriminate]).
Qed.

Lemma keeps_os_mkdir p : keeps (os_mkdir p).
Proof.
  intros fs. unfold os_mkdir.
  destruct (node_at fs p) as [x|] eqn:Hp; [apply persists_refl|].
  destruct (node_at fs (parent p)) as [[|]|]; cbn;
    try apply persists_refl.
  apply persists_insert_dir; [intros ->; discriminate Hp | exact Hp].
Qed.

Lemma keeps_mkdir_exist_ok p : keeps (mkdir_exist_ok p).
Proof.
  intros fs. unfold mkdir_exist_ok.
  pose proof (keeps_os_mkdir p fs) as H.
  destruct (os_mkdir p fs) as [[[]|e] fs1 l1]; cbn in *; [exact H|].
  destruct e; try exact H; destruct (is_dir fs p); cbn;
    (exact H || apply persists_refl).
Qed.

Lemma keeps_mkdir_parents p : keeps (mkdir_parents p).
Proof.
  induction p as [|c par IH]; intros fs.
  - apply persists_refl.
  - unfold mkdir_parents; fold mkdir_parents.
    pose proof (keeps_os_mkdir (c :: par) fs) as H.
    destruct (os_mkdir (c :: par) fs) as [[[]|e] fs1 l1]; cbn in *;
      [exact H|].
    destruct e;
      try (destruct (is_dir fs (c :: par)); cbn;
           (exact H || apply persists_refl); fail).
    apply (keeps_bind (mkdir_parents par)
             (fun _ => mkdir_exist_ok (c :: par))).
    + exact IH.
    + intros _. apply keeps_mkdir_exist_ok.
Qed.

Lemma keeps_for_each {A : Type} (f : A -> M unit) l :
  (forall x, keeps (f x)) -> keeps (for_each f l).
Proof.
  intros Hf. induction l as [|x l IH]; cbn [for_each].
  - apply keeps_ret.
  - apply keeps_bind; [apply Hf | intros _; exact IH].
Qed.

Lemma keeps_Pool_map {A B : Type} processes turn (f : A -> M B) l :
  (forall x, keeps (f x)) -> keeps (Pool_map processes turn f l).
Proof.
  intros Hf fs.
  apply (Pool_map_respects processes turn f l persists).
  - apply persists_refl.
  - apply persists_trans.
  - intros x fs1 _. apply Hf.
Qed.

Section Keeps.

Context `{codec : ImageCodec}.
Variable md5 : list byte -> list byte.
Variable json_dumps : list PhotoMeta -> list byte.
Variable args : Args.
Variable turn : nat -> nat.

Lemma keeps_save_file self dest image :
  keeps (_save_file md5 args self dest image).
Proof.
  unfold _save_file. cbv zeta.
  assert (Hsaving : keeps
    (let* time := match meta self with
                  | Some m => ret (time m)
                  | None => raise TypeError
                  end in
     exec logger_info
       ("Saving " ++ path_str dest ++ " [" ++ time ++ "]") in
     write_bytes dest (save_jpeg image true (quality args)))).
  { apply keeps_bind.
    - destruct (meta self); [apply keeps_ret | apply keeps_raise].
    - intros t. apply keeps_bind; [apply keeps_logger_info|].
      intros _. apply keeps_write_bytes. }
  apply keeps_bind; [apply keeps_path_exists|].
  intros [|]; [|exact Hsaving].
  apply keeps_bind; [apply keeps_read_bytes|].
  intros local. destruct (decide _); [apply keeps_logger_info|].
  apply keeps_bind; [apply keeps_logger_info|].
  intros _. exact Hsaving.
Qed.

Lemma keeps_save self : keeps (save md5 args self).
Proof.
  unfold save. apply keeps_for_each. intros [v img].
  apply keeps_bind; [apply keeps_mkdir_parents|].
  intros _. apply keeps_save_file.
Qed.

Lemma keeps_open_image self : keeps (open_image self).
Proof.
  intros fs. rewrite open_image_eq. cbv zeta.
  repeat match goal with
  | |- context [match ?x with _ => _ end] => destruct x
  end; apply persists_refl.
Qed.

Lemma keeps_process f : keeps (process_and_get_meta md5 args f).
Proof.
  unfold process_and_get_meta, Processor_init.
  apply keeps_bind; [apply keeps_open_image|]. intros p.
  apply keeps_bind; [|intros _; apply keeps_ret].
  destruct (meta p); [apply keeps_save | apply keeps_ret].
Qed.

Lemma keeps_main : keeps (main md5 json_dumps args turn).
Proof.
  unfold main.
  apply keeps_bind; [apply keeps_Pool|]. intros _.
  apply keeps_bind; [apply keeps_glob_jpg|]. intros files.
  apply keeps_bind.
  { apply keeps_Pool_map. intros f. apply keeps_process. }
  intros metas.
  apply keeps_bind; [apply keeps_logger_info|]. intros _.
  apply keeps_bind; [apply keeps_logger_info|]. intros _.
  apply keeps_write_bytes.
Qed.

End Keeps.

(** X9: the run removes nothing, however it ends: what was a directory
    before is a directory after, what was a file is a file (only the
    bytes of a variant or of the manifest can change). *)
Theorem run_removes_nothing `{codec : ImageCodec}
    (md5 : list byte -> list byte)
    (json_dumps : list PhotoMeta -> list byte) (args : Args)
    (turn : nat -> nat) (fs : FS) (q : Path) :
  match node_at fs q with
  | Some Dir =>
      node_at (fs_after (main md5 json_dumps args turn fs)) q = Some Dir
  | Some (File _) =>
      exists b,
        node_at (fs_after (main md5 json_dumps args turn fs)) q
        = Some (File b)
  | None => True
  end.
Proof. exact (keeps_main md5 json_dumps args turn fs q). Qed.

(** ** The variants of a photo, and a second run *)

Lemma mkdir_exist_ok_is_dir p fs fs' l :
  mkdir_exist_ok p fs = mkOutcome (Ok tt) fs' l -> is_dir fs' p = true.
Proof.
  unfold mkdir_exist_ok, os_mkdir.
  destruct (node_at fs p) as [x|] eqn:Hp.
  - destruct (is_dir fs p) eqn:Hd; [|discriminate].
    intros [= <- <-]. exact Hd.
  - assert (Hne : p <> []) by (intros ->; discriminate Hp).
    destruct (node_at fs (parent p)) as [[b|]|].
    + unfold is_dir. rewrite Hp. discriminate.
    + intros [= <- <-]. unfold is_dir.
      rewrite node_at_insert by exact Hne. now rewrite decide_True.
    + destruct (missing_error fs (parent p)); try discriminate;
        unfold is_dir; rewrite Hp; discriminate.
Qed.

(** When [mkdir(parents=True, exist_ok=True)] returns, the directory is
    there. *)
Lemma mkdir_parents_is_dir p fs fs' l :
  mkdir_parents p fs = mkOutcome (Ok tt) fs' l -> is_dir fs' p = true.
Proof.
  destruct p as [|c par]; [reflexivity|].
  unfold mkdir_parents; fold mkdir_parents. unfold os_mkdir.
  destruct (node_at fs (c :: par)) as [x|] eqn:Hp.
  - destruct (is_dir fs (c :: par)) eqn:Hd; [|discriminate].
    intros [= <- <-]. exact Hd.
  - destruct (node_at fs (parent (c :: par))) as [[b|]|].
    + unfold is_dir. rewrite Hp. discriminate.
    + intros [= <- <-]. unfold is_dir.
      rewrite node_at_insert by discriminate. now rewrite decide_True.
    + destruct (missing_error fs (parent (c :: par)));
        try (unfold is_dir; rewrite Hp; discriminate).
      intros E. apply bind_ok in E as ([] & fs1 & l1 & l2 & _ & E & _).
      now apply mkdir_exist_ok_is_dir in E.
Qed.

(** On a directory that is there it does nothing. *)
Lemma mkdir_parents_existing p fs :
  is_dir fs p = true -> mkdir_parents p fs = mkOutcome (Ok tt) fs [].
Proof.
  intros Hd. destruct p as [|c par]; [reflexivity|].
  unfold mkdir_parents; fold mkdir_parents. unfold os_mkdir.
  pose proof Hd as Hn. unfold is_dir in Hn.
  destruct (node_at fs (c :: par)) as [[|]|]; try discriminate Hn.
  now rewrite Hd.
Qed.

Section Twice.

Context `{codec : ImageCodec}.
Variable md5 : list byte -> list byte.
Variable args : Args.

Local Abbreviation process := (process_and_get_meta md5 args).
Local Abbreviation encoded img := (save_jpeg img true (quality args)).

(** One round of the loop of [save]. *)
Local Abbreviation round self a n v img :=
  (exec mkdir_parents (v :: "_generated" :: a) in
   _save_file md5 args self (n :: v :: "_generated" :: a) img).

Lemma saving_stores self dest image fs fs' l :
  (let* time := match meta self with
                | Some m => ret (time m)
                | None => raise TypeError
                end in
   exec logger_info ("Saving " ++ path_str dest ++ " [" ++ time ++ "]") in
   write_bytes dest (encoded image)) fs
  = mkOutcome (Ok tt) fs' l ->
  node_at fs' dest = Some (File (encoded image)).
Proof.
  intros E. apply bind_ok in E as (t & fs1 & l1 & l2 & E1 & E & _).
  assert (fs1 = fs) as ->.
  { destruct (meta self); [now injection E1 | discriminate E1]. }
  apply bind_ok in E as ([] & fs1 & l3 & l4 & E2 & E & _).
  injection E2 as <- _. revert E. unfold write_bytes.
  destruct (node_at fs dest) as [[old|]|] eqn:Hp;
    destruct (node_at fs (parent dest)) as [[b|]|]; try discriminate;
    intros [= <- <-];
    (rewrite node_at_insert by (intros ->; discriminate Hp));
    now rewrite decide_True.
Qed.

(** When the writer returns, the destination holds bytes with the digest
    of the encoded image. *)
Lemma save_file_stores self dest image fs fs' l :
  _save_file md5 args self dest image fs = mkOutcome (Ok tt) fs' l ->
  exists b, node_at fs' dest = Some (File b) /\
            md5 (encoded image) = md5 b.
Proof.
  unfold _save_file. cbv zeta. intros E.
  apply bind_ok in E as (found & fs1 & l1 & l2 & E1 & E & _).
  rewrite path_exists_eq in E1. injection E1 as <- <- _.
  destruct (node_at fs dest) as [[old|]|] eqn:Hd.
  - apply bind_ok in E as (local & fs1 & l3 & l4 & E1 & E & _).
    unfold read_bytes in E1. rewrite Hd in E1. injection E1 as <- <- _.
    destruct (decide (md5 (encoded image) = md5 old)) as [Heq|Hne].
    + injection E as <- _. eauto.
    + apply bind_ok in E as ([] & fs1 & l5 & l6 & E1 & E & _).
      injection E1 as <- _. apply saving_stores in E. eauto.
  - apply bind_ok in E as (local & fs1 & l3 & l4 & E1 & _).
    unfold read_bytes in E1. rewrite Hd in E1. discriminate E1.
  - apply saving_stores in E. eauto.
Qed.

(** On a destination that holds bytes with that digest it only logs. *)
Lemma save_file_skips self dest image fs b :
  node_at fs dest = Some (File b) ->
  md5 (encoded image) = md5 b ->
  _save_file md5 args self dest image fs
  = mkOutcome (Ok tt) fs [skipping_record dest].
Proof.
  intros Hd Hb. unfold _save_file. cbv zeta. unfold bind at 1.
  rewrite path_exists_eq, Hd. unfold bind at 1, read_bytes. rewrite Hd.
  rewrite decide_True by exact Hb. reflexivity.
Qed.

Lemma preserves_round q self a n v img :
  ~ q `suffix_of` (n :: v :: "_generated" :: a) ->
  preserves q (round self a n v img).
Proof.
  intros Hq. apply preserves_bind.
  - apply preserves_mkdir_parents. intros H. apply Hq.
    now apply suffix_cons_r.
  - intros _. apply preserves_save_file. intros ->. now apply Hq.
Qed.

Lemma round_stores self a n v img fs fs' l :
  round self a n v img fs = mkOutcome (Ok tt) fs' l ->
  stored md5 fs' a n v (encoded img).
Proof.
  intros E. apply bind_ok in E as ([] & fs1 & l1 & l2 & E1 & E2 & _).
  split.
  - apply mkdir_parents_is_dir in E1.
    assert (Hne : v :: "_generated" :: a <> n :: v :: "_generated" :: a).
    { intros E. apply (f_equal length) in E. simpl in E. lia. }
    pose proof (preserves_save_file md5 args _ self _ img Hne fs1) as H.
    rewrite E2 in H. cbn [fs_after] in H.
    unfold is_dir in *. now rewrite H.
  - eapply save_file_stores; eassumption.
Qed.

Lemma round_skips self a n v img fs :
  stored md5 fs a n v (encoded img) ->
  round self a n v img fs
  = mkOutcome (Ok tt) fs [skipping_record (n :: v :: "_generated" :: a)].
Proof.
  intros [Hd (b & Hb & Hh)]. unfold bind.
  rewrite (mkdir_parents_existing _ _ Hd). cbn [after_log].
  rewrite (save_file_skips _ _ _ _ _ Hb Hh). reflexivity.
Qed.

(** The round of one variant leaves the other variants as they are. *)
Lemma round_keeps_stored self a n v v' img bytes fs :
  v' <> v ->
  stored md5 fs a n v' bytes ->
  stored md5 (fs_after (round self a n v img fs)) a n v' bytes.
Proof.
  intros Hv [Hd (b & Hb & Hh)].
  assert (H1 : ~ (v' :: "_generated" :: a)
                 `suffix_of` (n :: v :: "_generated" :: a)).
  { intros H. apply suffix_cons_inv in H as [E | H].
    { apply (f_equal length) in E. simpl in E. lia. }
    apply suffix_cons_inv in H as [E | H].
    { injection E as E. contradiction. }
    apply suffix_length in H. simpl in H. lia. }
  assert (H2 : ~ (n :: v' :: "_generated" :: a)
                 `suffix_of` (n :: v :: "_generated" :: a)).
  { intros H. apply suffix_cons_inv in H as [E | H].
    { injection E as E. contradiction. }
    apply suffix_length in H. simpl in H. lia. }
  split.
  - unfold is_dir. rewrite (preserves_round _ self a n v img H1 fs).
    exact Hd.
  - exists b. rewrite (preserves_round _ self a n v img H2 fs). auto.
Qed.

(** When [save] returns, the three variants are there. *)
Lemma save_stores fp m i1 i2 i3 fs fs' l :
  save md5 args
    (mkProcessor fp (Some m) [("xs", i1); ("s", i2); ("ori", i3)]) fs
  = mkOutcome (Ok tt) fs' l ->
  let a := parent (parent fp) in
  let n := path_name fp in
  stored md5 fs' a n "xs" (encoded i1) /\
  stored md5 fs' a n "s" (encoded i2) /\
  stored md5 fs' a n "ori" (encoded i3).
Proof.
  unfold save. cbn [imgs file_path for_each]. intros E. cbv zeta.
  apply bind_ok in E as ([] & fs1 & l1 & k1 & E1 & E & _).
  apply bind_ok in E as ([] & fs2 & l2 & k2 & E2 & E & _).
  apply bind_ok in E as ([] & fs3 & l3 & k3 & E3 & E & _).
  injection E as <- _.
  pose proof (round_stores _ _ _ _ _ _ _ _ E1) as S1.
  pose proof (round_stores _ _ _ _ _ _ _ _ E2) as S2.
  pose proof (round_stores _ _ _ _ _ _ _ _ E3) as S3.
  assert (S12 : stored md5 fs2 (parent (parent fp)) (path_name fp) "xs"
                  (encoded i1)).
  { pose proof (round_keeps_stored
                  (mkProcessor fp (Some m)
                     [("xs", i1); ("s", i2); ("ori", i3)])
                  _ _ "s" "xs" i2 _ fs1 ltac:(discriminate) S1) as H.
    cbv beta iota zeta in E2. unfold path_name, parent in *.
    now rewrite E2 in H. }
  split; [|split; [|exact S3]].
  - pose proof (round_keeps_stored
                  (mkProcessor fp (Some m)
                     [("xs", i1); ("s", i2); ("ori", i3)])
                  _ _ "ori" "xs" i3 _ fs2 ltac:(discriminate) S12) as H.
    cbv beta iota zeta in E3. unfold path_name, parent in *.
    now rewrite E3 in H.
  - pose proof (round_keeps_stored
                  (mkProcessor fp (Some m)
                     [("xs", i1); ("s", i2); ("ori", i3)])
                  _ _ "ori" "s" i3 _ fs2 ltac:(discriminate) S2) as H.
    cbv beta iota zeta in E3. unfold path_name, parent in *.
    now rewrite E3 in H.
Qed.

(** What a returned record says about the file and about the output
    tree. *)
Lemma process_stores f fs m fs' l :
  process f fs = mkOutcome (Ok (Some m)) fs' l ->
  exists b im exif datestr,
    node_at fs f = Some (File b) /\
    image_decode b = Some im /\
    getexif im = Some exif /\
    exif !! 0x0132 = Some datestr /\
    parse_time datestr = Ok (time m) /\
    let o := oriented exif im in
    let a := parent (parent f) in
    let n := path_name f in
    m = mkMeta (height o, width o) (time m) n /\
    stored md5 fs' a n "xs" (encoded (thumbnail (copy o) (10, 10))) /\
    stored md5 fs' a n "s" (encoded (thumbnail (copy o) (800, 800))) /\
    stored md5 fs' a n "ori" (encoded o).
Proof.
  unfold process_and_get_meta, Processor_init. intros E.
  apply bind_ok in E as (p & fs1 & l1 & l2 & E1 & E & _).
  rewrite open_image_eq in E1. cbn [file_path] in E1. cbv zeta in E1.
  destruct (node_at fs f) as [[b|]|]; try discriminate E1.
  destruct (image_decode b) as [im|] eqn:Hb; [|discriminate E1].
  destruct (getexif im) as [exif|] eqn:Hx;
    [|injection E1 as <- <- _; apply bind_ok in E
        as ([] & fs2 & l3 & l4 & _ & E & _); discriminate E].
  destruct (exif !! 0x0132) as [datestr|] eqn:Ht;
    [|injection E1 as <- <- _; apply bind_ok in E
        as ([] & fs2 & l3 & l4 & _ & E & _); discriminate E].
  destruct (parse_time datestr) as [t|e] eqn:He; [|discriminate E1].
  injection E1 as <- <- _.
  apply bind_ok in E as ([] & fs2 & l3 & l4 & E2 & E & _).
  cbn [meta] in E2, E. injection E as <- <- _.
  exists b, im, exif, datestr. cbn [time].
  repeat (split; [first [reflexivity | assumption]|]).
  exact (save_stores _ _ _ _ _ _ _ _ E2).
Qed.

(** A photo of [a/source] that has just been processed is processed
    again without a change. *)
Lemma process_again a n fs m fs' l :
  process (n :: "source" :: a) fs = mkOutcome (Ok (Some m)) fs' l ->
  process (n :: "source" :: a) fs'
  = mkOutcome (Ok (Some m)) fs'
      [skipping_record (n :: "xs" :: "_generated" :: a);
       skipping_record (n :: "s" :: "_generated" :: a);
       skipping_record (n :: "ori" :: "_generated" :: a)].
Proof.
  intros E.
  pose proof (process_source md5 args a n n fs) as Hsrc.
  rewrite E in Hsrc. cbn [fs_after] in Hsrc.
  destruct (process_stores _ _ _ _ _ E)
    as (b & im & exif & datestr & Hf & Hb & Hx & Ht & He & Hm & S1 & S2 & S3).
  cbn [parent tail path_name] in Hm, S1, S2, S3.
  rewrite <- Hsrc in Hf.
  unfold process_and_get_meta. unfold bind at 1.
  rewrite (Processor_init_ok _ _ _ _ _ _ _ Hf Hb Hx Ht He).
  cbv zeta. cbn [after_log app meta]. unfold bind at 1.
  unfold save. cbn [imgs file_path for_each parent tail path_name].
  unfold bind at 1. rewrite (round_skips _ _ _ _ _ _ S1). cbn [after_log].
  unfold bind at 1. rewrite (round_skips _ _ _ _ _ _ S2). cbn [after_log].
  unfold bind at 1. rewrite (round_skips _ _ _ _ _ _ S3). cbn [after_log].
  unfold ret. cbn [after_log app]. now rewrite <- Hm.
Qed.

End Twice.

(** X10: when [process_and_get_meta] returns a record, the three variants
    of the photo are in the output tree: below [_generated] beside the
    directory of the photo there are the directories [xs], [s] and [ori],
    each with a file of the photo's name whose MD5 digest is that of the
    JPEG encoding, at the quality of the command line, of the 10 by 10
    thumbnail, the 800 by 800 thumbnail and the oriented image. *)
Theorem processed_photo_has_three_variants `{codec : ImageCodec}
    (md5 : list byte -> list byte) (args : Args)
    (f : Path) (fs fs' : FS) (m : PhotoMeta) (l : list LogRecord) :
  process_and_get_meta md5 args f fs = mkOutcome (Ok (Some m)) fs' l ->
  exists b im exif,
    node_at fs f = Some (File b) /\
    image_decode b = Some im /\
    getexif im = Some exif /\
    let o := oriented exif im in
    let a := parent (parent f) in
    let n := path_name f in
    stored md5 fs' a n "xs"
      (save_jpeg (thumbnail (copy o) (10, 10)) true (quality args)) /\
    stored md5 fs' a n "s"
      (save_jpeg (thumbnail (copy o) (800, 800)) true (quality args)) /\
    stored md5 fs' a n "ori" (save_jpeg o true (quality args)).
Proof.
  intros E.
  destruct (process_stores md5 args _ _ _ _ _ E)
    as (b & im & exif & datestr & Hf & Hb & Hx & _ & _ & _ & S).
  exists b, im, exif. auto.
Qed.

(** X11: processing a photo of the source directory a second time, on the
    file system the first time left, returns the same record, changes
    nothing and logs that the three variants are skipped. *)
Theorem second_run_skips_every_variant `{codec : ImageCodec}
    (md5 : list byte -> list byte) (args : Args)
    (a : Path) (n : string) (fs fs' : FS) (m : PhotoMeta)
    (l : list LogRecord) :
  process_and_get_meta md5 args (n :: "source" :: a) fs
  = mkOutcome (Ok (Some m)) fs' l ->
  process_and_get_meta md5 args (n :: "source" :: a) fs'
  = mkOutcome (Ok (Some m)) fs'
      [skipping_record (n :: "xs" :: "_generated" :: a);
       skipping_record (n :: "s" :: "_generated" :: a);
       skipping_record (n :: "ori" :: "_generated" :: a)].
Proof. apply process_again. Qed.

Lemma processed_photo_has_three_variants_witness :
  let o := process_and_get_meta (codec := Raster.codec) Raster.digest
             Demo.args Demo.a_jpg Demo.photos in
  o = mkOutcome (Ok (Some Demo.a_meta)) (fs_after o) (logged o) /\
  exists b im exif,
    node_at Demo.photos Demo.a_jpg = Some (File b) /\
    image_decode (ImageCodec := Raster.codec) b = Some im /\
    getexif im = Some exif /\
    let i := oriented exif im in
    let a := parent (parent Demo.a_jpg) in
    let n := path_name Demo.a_jpg in
    stored Raster.digest (fs_after o) a n "xs"
      (save_jpeg (thumbnail (copy i) (10, 10)) true (quality Demo.args)) /\
    stored Raster.digest (fs_after o) a n "s"
      (save_jpeg (thumbnail (copy i) (800, 800)) true (quality Demo.args)) /\
    stored Raster.digest (fs_after o) a n "ori"
      (save_jpeg i true (quality Demo.args)).
Proof.
  intros o.
  assert (H : o = mkOutcome (Ok (Some Demo.a_meta)) (fs_after o) (logged o))
    by (vm_compute; reflexivity).
  split; [exact H|].
  exact (processed_photo_has_three_variants (codec := Raster.codec)
           Raster.digest Demo.args Demo.a_jpg Demo.photos (fs_after o)
           Demo.a_meta (logged o) H).
Defined.

Lemma second_run_skips_every_variant_witness :
  let o := process_and_get_meta (codec := Raster.codec) Raster.digest
             Demo.args Demo.a_jpg Demo.photos in
  o = mkOutcome (Ok (Some Demo.a_meta)) (fs_after o) (logged o) /\
  process_and_get_meta (codec := Raster.codec) Raster.digest Demo.args
    Demo.a_jpg (fs_after o)
  = mkOutcome (Ok (Some Demo.a_meta)) (fs_after o)
      [skipping_record ["a.jpg"; "xs"; "_generated"; "assets"];
       skipping_record ["a.jpg"; "s"; "_generated"; "assets"];
       skipping_record ["a.jpg"; "ori"; "_generated"; "assets"]].
Proof.
  intros o.
  assert (H : o = mkOutcome (Ok (Some Demo.a_meta)) (fs_after o) (logged o))
    by (vm_compute; reflexivity).
  split; [exact H|].
  exact (second_run_skips_every_variant (codec := Raster.codec)
           Raster.digest Demo.args ["assets"] "a.jpg" Demo.photos
           (fs_after o) Demo.a_meta (logged o) H).
Defined.

(** ** The end of the run *)

Lemma not_none_length {A : Type} (l : list (option A)) :
  (length (not_none l) <= length l)%nat.
Proof.
  unfold not_none. induction l as [|[x|] l IH]; cbn in *; lia.
Qed.

Lemma manifest_length metas :
  (length (manifest metas) <= length metas)%nat.
Proof.
  unfold manifest. rewrite (Permutation_length (sorted_perm time _)).
  apply not_none_length.
Qed.

Lemma write_bytes_inv p b fs fs' l :
  write_bytes p b fs = mkOutcome (Ok tt) fs' l ->
  node_at fs' p = Some (File b) /\ l = [].
Proof.
  unfold write_bytes.
  destruct (node_at fs p) as [[old|]|] eqn:Hp;
    destruct (node_at fs (parent p)) as [[x|]|]; try discriminate;
    intros [= <- <-];
    (rewrite node_at_insert by (intros ->; discriminate Hp));
    now rewrite decide_True.
Qed.

Section Ending.

Context `{codec : ImageCodec}.
Variable md5 : list byte -> list byte.
Variable json_dumps : list PhotoMeta -> list byte.
Variable args : Args.
Variable turn : nat -> nat.

Local Abbreviation process := (process_and_get_meta md5 args).

(** What a run that returns has done. *)
Lemma main_returns fs fs' l :
  main md5 json_dumps args turn fs = mkOutcome (Ok tt) fs' l ->
  exists metas l0,
    res (Pool_map (nproc args) turn process
           (jpg_entries ("source" :: assets_dir args) fs) fs)
    = Ok metas /\
    length metas
    = length (jpg_entries ("source" :: assets_dir args) fs) /\
    l = l0 ++ [count_record
                 (length (jpg_entries ("source" :: assets_dir args) fs));
               manifest_record (assets_dir args)] /\
    node_at fs' ("metas.json" :: "_generated" :: assets_dir args)
    = Some (File (json_dumps (manifest metas))).
Proof.
  unfold main. intros E.
  apply bind_ok in E as ([] & fs1 & l1 & k1 & E1 & E & ->).
  unfold Pool in E1. destruct (nproc args <? 1); [discriminate E1|].
  injection E1 as <- <-.
  apply bind_ok in E as (files & fs2 & l2 & k2 & E2 & E & ->).
  injection E2 as <- <- <-.
  apply bind_ok in E as (metas & fs3 & l3 & k3 & E3 & E & ->).
  apply bind_ok in E as ([] & fs4 & l4 & k4 & E4 & E & ->).
  injection E4 as <- <-.
  apply bind_ok in E as ([] & fs5 & l5 & k5 & E5 & E & ->).
  injection E5 as <- <-.
  apply write_bytes_inv in E as [E ->].
  assert (Hlen : length metas
                 = length (jpg_entries ("source" :: assets_dir args) fs)).
  { apply (Pool_map_length (nproc args) turn process _ fs).
    now rewrite E3. }
  exists metas, l3. rewrite E3. split; [reflexivity|].
  split; [exact Hlen|]. split; [|exact E].
  unfold count_record, manifest_record. rewrite Hlen. reflexivity.
Qed.

Lemma manifest_not_variant a n v :
  ~ ("metas.json" :: "_generated" :: a)
    `suffix_of` (n :: v :: "_generated" :: a) \/ v = "metas.json".
Proof.
  destruct (decide (v = "metas.json")) as [->|Hv]; [now right|]. left.
  intros H. apply suffix_cons_inv in H as [E | H].
  { apply (f_equal length) in E. simpl in E. lia. }
  apply suffix_cons_inv in H as [E | H].
  { injection E as E. congruence. }
  apply suffix_length in H. simpl in H. lia.
Qed.

(** A photo of [a/source] leaves the manifest alone. *)
Lemma preserves_process_manifest a n :
  preserves ("metas.json" :: "_generated" :: a)
    (process (n :: "source" :: a)).
Proof.
  intros fs. unfold process_and_get_meta, Processor_init, bind.
  rewrite open_image_eq. cbn [file_path]. cbv zeta.
  destruct (node_at fs (n :: "source" :: a)) as [[b|]|]; try reflexivity.
  destruct (image_decode b) as [im|]; [|reflexivity].
  destruct (getexif im) as [exif|]; [|reflexivity].
  destruct (exif !! 0x0132) as [datestr|]; [|reflexivity].
  destruct (parse_time datestr) as [t|e]; [|reflexivity].
  cbn [meta after_log app].
  set (self := mkProcessor _ _ _).
  assert (H : node_at (fs_after (save md5 args self fs))
                ("metas.json" :: "_generated" :: a)
              = node_at fs ("metas.json" :: "_generated" :: a)).
  { unfold save. subst self.
    cbn [imgs file_path for_each parent tail path_name].
    assert (Hv : forall v, v <> "metas.json" ->
              ~ ("metas.json" :: "_generated" :: a)
                `suffix_of` (n :: v :: "_generated" :: a)).
    { intros v Hv. now destruct (manifest_not_variant a n v). }
    apply preserves_bind;
      [apply preserves_round; apply Hv; discriminate | intros _].
    apply preserves_bind;
      [apply preserves_round; apply Hv; discriminate | intros _].
    apply preserves_bind;
      [apply preserves_round; apply Hv; discriminate | intros _].
    apply preserves_ret. }
  destruct (save md5 args self fs) as [[[]|e] fs1 l1]; exact H.
Qed.

Lemma main_unfold fs :
  main md5 json_dumps args turn fs =
  if nproc args <? 1 then mkOutcome (Raise ValueError) fs []
  else
    (let* metas :=
       Pool_map (nproc args) turn process
         (jpg_entries ("source" :: assets_dir args) fs) in
     exec logger_info
       (str_of_Z (Z.of_nat (length metas)) ++ " photos processed") in
     exec logger_info
       ("Saving meta to "
        ++ path_str ("metas.json" :: "_generated" :: assets_dir args)) in
     write_bytes ("metas.json" :: "_generated" :: assets_dir args)
       (json_dumps (manifest metas))) fs.
Proof.
  unfold main, bind at 1, Pool.
  destruct (nproc args <? 1); [reflexivity|].
  cbn [ret after_log]. unfold bind at 1, glob_jpg. cbn [after_log].
  now rewrite !after_log_nil.
Qed.

Lemma main_aborts fs f :
  f ∈ jpg_entries ("source" :: assets_dir args) fs ->
  ~ processable fs f ->
  (exists e, res (main md5 json_dumps args turn fs) = Raise e) /\
  node_at (fs_after (main md5 json_dumps args turn fs))
    ("metas.json" :: "_generated" :: assets_dir args)
  = node_at fs ("metas.json" :: "_generated" :: assets_dir args).
Proof.
  intros Hin Hn. rewrite main_unfold.
  destruct (nproc args <? 1); [split; [eauto | reflexivity]|].
  set (files := jpg_entries ("source" :: assets_dir args) fs) in *.
  assert (Hsrc : Forall (fun g => exists n', g = n' :: "source"
                                     :: assets_dir args) files).
  { apply Forall_forall. intros g Hg.
    exact (jpg_entries_source _ _ _ Hg). }
  destruct (jpg_entries_source _ _ _ Hin) as [n ->].
  destruct (Pool_map_unprocessable md5 args (assets_dir args) n
              (nproc args) turn files fs Hin Hsrc Hn) as [e He].
  assert (Hp : preserves ("metas.json" :: "_generated" :: assets_dir args)
                 (Pool_map (nproc args) turn process files)).
  { apply Pool_map_preserves. intros g Hg.
    rewrite Forall_forall in Hsrc. destruct (Hsrc g Hg) as [n' ->].
    apply preserves_process_manifest. }
  specialize (Hp fs).
  match goal with
  | |- context [bind ?m ?k fs] =>
      destruct (bind_raises m k fs e He) as [Hr Hfs]
  end.
  rewrite Hr, Hfs. split; [eauto | exact Hp].
Qed.

Lemma main_without_records fs :
  1 <= nproc args ->
  consistent fs ->
  is_dir fs (assets_dir args) = true ->
  node_at fs ("_generated" :: assets_dir args) = None ->
  (forall f, f ∈ jpg_entries ("source" :: assets_dir args) fs ->
     exists b im,
       node_at fs f = Some (File b) /\ image_decode b = Some im /\
       lacks_time im) ->
  exists skips,
    Permutation skips
      (map skip_record (jpg_entries ("source" :: assets_dir args) fs)) /\
    main md5 json_dumps args turn fs
    = mkOutcome (Raise FileNotFoundError) fs
        (skips
         ++ [count_record
               (length (jpg_entries ("source" :: assets_dir args) fs));
             manifest_record (assets_dir args)]).
Proof.
  intros Hn Hc Ha Hg Hall.
  destruct (Pool_map_quiet (nproc args) turn process
              (jpg_entries ("source" :: assets_dir args) fs)
              (fun _ => None) skip_record fs) as (skips & E & Hperm).
  { intros f Hf. destruct (Hall f Hf) as (b & im & Hnode & Hb & Hl).
    exact (process_skipped md5 args _ _ _ _ Hnode Hb Hl). }
  exists skips. split; [exact Hperm|].
  rewrite main_unfold. rewrite (proj2 (Z.ltb_ge _ _)) by lia.
  unfold bind at 1. rewrite E. cbn [after_log].
  unfold bind, logger_info. cbn [after_log].
  assert (Hm : node_at fs ("metas.json" :: "_generated" :: assets_dir args)
               = None).
  { destruct (node_at fs ("metas.json" :: "_generated" :: assets_dir args))
      as [x|] eqn:Hx; [|reflexivity].
    assert (Hd : is_dir fs ("_generated" :: assets_dir args) = true)
      by (apply (Hc "metas.json"); cbn [node_at] in Hx; eauto).
    unfold is_dir in Hd. rewrite Hg in Hd. discriminate Hd. }
  unfold write_bytes. rewrite Hm. cbn [parent tail]. rewrite Hg.
  cbn [missing_error]. unfold is_dir in Ha.
  destruct (node_at fs (assets_dir args)) as [[|]|]; try discriminate Ha.
  cbn [after_log app]. unfold count_record, manifest_record.
  rewrite length_map. reflexivity.
Qed.

End Ending.

(** X12: when the run returns, the last two records of its log are the
    count and the announcement of the manifest.  The count is the number
    of files that the listing of the source directory gave, those skipped
    for lack of a capture time included, so the manifest can hold fewer
    records than the count says, never more. *)
Theorem run_counts_every_listed_file `{codec : ImageCodec}
    (md5 : list byte -> list byte)
    (json_dumps : list PhotoMeta -> list byte) (args : Args)
    (turn : nat -> nat) (fs fs' : FS) (l : list LogRecord) :
  main md5 json_dumps args turn fs = mkOutcome (Ok tt) fs' l ->
  let a := assets_dir args in
  let files := jpg_entries ("source" :: a) fs in
  exists metas l0,
    res (Pool_map (nproc args) turn (process_and_get_meta md5 args) files fs)
    = Ok metas /\
    length metas = length files /\
    l = l0 ++ [count_record (length files); manifest_record a] /\
    node_at fs' ("metas.json" :: "_generated" :: a)
    = Some (File (json_dumps (manifest metas))) /\
    (length (manifest metas) <= length files)%nat.
Proof.
  intros E a files.
  destruct (main_returns md5 json_dumps args turn fs fs' l E)
    as (metas & l0 & Hr & Hlen & Hl & Hm).
  exists metas, l0. repeat (split; [assumption|]).
  fold a files in Hlen. rewrite <- Hlen. apply manifest_length.
Qed.

Lemma run_counts_every_listed_file_witness :
  let o := main (codec := Raster.codec) Raster.digest Raster.dumps
             Demo.args (fun i => i) Demo.photos in
  o = mkOutcome (Ok tt) (fs_after o) (logged o) /\
  exists metas l0,
    res (Pool_map 2 (fun i => i)
           (process_and_get_meta (codec := Raster.codec)
              Raster.digest Demo.args)
           (jpg_entries ["source"; "assets"] Demo.photos) Demo.photos)
    = Ok metas /\
    length metas = length (jpg_entries ["source"; "assets"] Demo.photos) /\
    logged o
    = l0 ++ [count_record
               (length (jpg_entries ["source"; "assets"] Demo.photos));
             manifest_record ["assets"]] /\
    node_at (fs_after o) ["metas.json"; "_generated"; "assets"]
    = Some (File (Raster.dumps (manifest metas))) /\
    (length (manifest metas)
     <= length (jpg_entries ["source"; "assets"] Demo.photos))%nat.
Proof.
  intros o.
  assert (H : o = mkOutcome (Ok tt) (fs_after o) (logged o))
    by (vm_compute; reflexivity).
  split; [exact H|].
  exact (run_counts_every_listed_file (codec := Raster.codec) Raster.digest
           Raster.dumps Demo.args (fun i => i) Demo.photos (fs_after o)
           (logged o) H).
Defined.

(** X13: one listed file that cannot be processed, because it is a
    directory, or not an image, or because its capture time does not
    parse, ends the run with an exception, whatever the order in which
    the tasks get done, and the manifest is left as it was: it is not
    written, and an older one is not updated. *)
Theorem unprocessable_file_aborts_run `{codec : ImageCodec}
    (md5 : list byte -> list byte)
    (json_dumps : list PhotoMeta -> list byte) (args : Args)
    (turn : nat -> nat) (fs : FS) (f : Path) :
  let a := assets_dir args in
  f ∈ jpg_entries ("source" :: a) fs ->
  ~ processable fs f ->
  (exists e, res (main md5 json_dumps args turn fs) = Raise e) /\
  node_at (fs_after (main md5 json_dumps args turn fs))
    ("metas.json" :: "_generated" :: a)
  = node_at fs ("metas.json" :: "_generated" :: a).
Proof. intros a. apply main_aborts. Qed.

Lemma unprocessable_file_aborts_run_witness :
  Demo.a_jpg ∈ jpg_entries ["source"; "assets"] Demo.corrupt /\
  ~ processable (codec := Raster.codec) Demo.corrupt Demo.a_jpg /\
  (exists e,
     res (main (codec := Raster.codec) Raster.digest Raster.dumps
            Demo.args (fun i => i) Demo.corrupt) = Raise e) /\
  node_at (fs_after (main (codec := Raster.codec) Raster.digest Raster.dumps
                       Demo.args (fun i => i) Demo.corrupt))
    ["metas.json"; "_generated"; "assets"]
  = node_at Demo.corrupt ["metas.json"; "_generated"; "assets"].
Proof.
  assert (H1 : Demo.a_jpg ∈ jpg_entries ["source"; "assets"] Demo.corrupt).
  { replace (jpg_entries ["source"; "assets"] Demo.corrupt)
      with [Demo.a_jpg] by (vm_compute; reflexivity).
    apply elem_of_cons. left. reflexivity. }
  assert (H2 : ~ processable (codec := Raster.codec) Demo.corrupt
                 Demo.a_jpg).
  { intros (b & im & Hf & Hb & _). vm_compute in Hf.
    injection Hf as <-. vm_compute in Hb. discriminate Hb. }
  split; [exact H1|]. split; [exact H2|].
  exact (unprocessable_file_aborts_run (codec := Raster.codec) Raster.digest
           Raster.dumps Demo.args (fun i => i) Demo.corrupt Demo.a_jpg
           H1 H2).
Defined.

(** X14: the script never makes [_generated] for the manifest: only
    saving a variant makes it.  When the assets directory is there, no
    listed photo has a capture time (in particular when the source
    directory has no [.jpg]) and [_generated] is not there, the run logs
    a skip for every photo, in the order in which the tasks get done,
    then the count and the announcement, changes nothing, and ends with
    [FileNotFoundError]. *)
Theorem run_without_records_needs_output_directory `{codec : ImageCodec}
    (md5 : list byte -> list byte)
    (json_dumps : list PhotoMeta -> list byte) (args : Args)
    (turn : nat -> nat) (fs : FS) :
  let a := assets_dir args in
  let files := jpg_entries ("source" :: a) fs in
  1 <= nproc args ->
  consistent fs ->
  is_dir fs a = true ->
  node_at fs ("_generated" :: a) = None ->
  (forall f, f ∈ files ->
     exists b im,
       node_at fs f = Some (File b) /\ image_decode b = Some im /\
       lacks_time im) ->
  exists skips,
    Permutation skips (map skip_record files) /\
    main md5 json_dumps args turn fs
    = mkOutcome (Raise FileNotFoundError) fs
        (skips ++ [count_record (length files); manifest_record a]).
Proof. intros a files. apply main_without_records. Qed.

Lemma untimed_consistent : consistent Demo.untimed.
Proof.
  intros c p [x Hx]. unfold Demo.untimed in Hx.
  apply elem_of_list_to_map_2 in Hx.
  rewrite !elem_of_cons, elem_of_nil in Hx.
  destruct Hx as [E | [E | [E | []]]]; injection E as _ -> _;
    vm_compute; reflexivity.
Qed.

Lemma run_without_records_needs_output_directory_witness :
  exists skips,
    Permutation skips
      (map skip_record (jpg_entries ["source"; "assets"] Demo.untimed)) /\
    main (codec := Raster.codec) Raster.digest Raster.dumps
      Demo.args (fun i => i) Demo.untimed
    = mkOutcome (Raise FileNotFoundError) Demo.untimed
        (skips
         ++ [count_record
               (length (jpg_entries ["source"; "assets"] Demo.untimed));
             manifest_record ["assets"]]).
Proof.
  apply (run_without_records_needs_output_directory (codec := Raster.codec)
           Raster.digest Raster.dumps Demo.args (fun i => i) Demo.untimed).
  - vm_compute. discriminate.
  - exact untimed_consistent.
  - vm_compute. reflexivity.
  - vm_compute. reflexivity.
  - intros f Hf.
    replace (jpg_entries ("source" :: assets_dir Demo.args) Demo.untimed)
      with [Demo.c_jpg] in Hf by (vm_compute; reflexivity).
    apply elem_of_cons in Hf as [-> | Hf]; [|now apply elem_of_nil in Hf].
    exists Demo.c_bytes, Demo.c_decoded.
    split; [vm_compute; reflexivity|].
    split; [vm_compute; reflexivity|].
    vm_compute. reflexivity.
Defined.

(** ** Only the output tree changes *)

Lemma adds_only_same {A : Type} (m : M A) :
  (forall fs, fs_after (m fs) = fs) -> adds_only m.
Proof. intros H fs q _. now rewrite H. Qed.

Lemma adds_only_bind {A B : Type} (m : M A) (f : A -> M B) :
  adds_only m -> (forall a, adds_only (f a)) -> adds_only (bind m f).
Proof.
  intros Hm Hf fs q Hq. unfold bind. specialize (Hm fs q Hq).
  destruct (m fs) as [[a|e] fs1 l1]; cbn [fs_after] in *; [|exact Hm].
  rewrite fs_after_after_log, Hf; [exact Hm | now rewrite Hm].
Qed.

Lemma adds_only_os_mkdir p : adds_only (os_mkdir p).
Proof.
  intros fs q Hq. unfold os_mkdir.
  destruct (node_at fs p) as [x|] eqn:Hp; [reflexivity|].
  destruct (node_at fs (parent p)) as [[b|]|]; cbn [fs_after];
    try reflexivity.
  rewrite node_at_insert by (intros ->; discriminate Hp).
  rewrite decide_False; [reflexivity|]. intros ->. contradiction.
Qed.

Lemma adds_only_mkdir_exist_ok p : adds_only (mkdir_exist_ok p).
Proof.
  intros fs q Hq. unfold mkdir_exist_ok.
  pose proof (adds_only_os_mkdir p fs q Hq) as H.
  destruct (os_mkdir p fs) as [[[]|e] fs1 l1]; cbn [fs_after] in *;
    [exact H|].
  destruct e; try exact H; destruct (is_dir fs p); cbn [fs_after];
    (exact H || reflexivity).
Qed.

(** [mkdir(parents=True, exist_ok=True)] changes nothing that is
    there. *)
Lemma adds_only_mkdir_parents p : adds_only (mkdir_parents p).
Proof.
  induction p as [|c par IH]; intros fs q Hq.
  - reflexivity.
  - unfold mkdir_parents; fold mkdir_parents.
    pose proof (adds_only_os_mkdir (c :: par) fs q Hq) as H.
    destruct (os_mkdir (c :: par) fs) as [[[]|e] fs1 l1];
      cbn [fs_after] in *; [exact H|].
    destruct e;
      try (destruct (is_dir fs (c :: par)); cbn [fs_after];
           (exact H || reflexivity); fail).
    apply (adds_only_bind (mkdir_parents par)
             (fun _ => mkdir_exist_ok (c :: par))); [exact IH| |exact Hq].
    intros _. apply adds_only_mkdir_exist_ok.
Qed.

Lemma below_adds_only {A : Type} g (m : M A) :
  adds_only m -> changes_only_below g m.
Proof. intros H fs q _ Hq. now apply H. Qed.

Lemma below_preserves {A : Type} g (m : M A) :
  (forall q, ~ g `suffix_of` q -> preserves q m) -> changes_only_below g m.
Proof. intros H fs q Hg _. now apply H. Qed.

Lemma below_bind {A B : Type} g (m : M A) (f : A -> M B) :
  changes_only_below g m ->
  (forall fs a, res (m fs) = Ok a -> changes_only_below g (f a)) ->
  changes_only_below g (bind m f).
Proof.
  intros Hm Hf fs q Hg Hq. unfold bind.
  specialize (Hm fs q Hg Hq). specialize (Hf fs).
  destruct (m fs) as [[a|e] fs1 l1]; cbn [fs_after res] in *; [|exact Hm].
  rewrite fs_after_after_log, (Hf a eq_refl fs1 q Hg); [exact Hm|].
  now rewrite Hm.
Qed.

Lemma below_for_each {A : Type} g (f : A -> M unit) l :
  (forall x, changes_only_below g (f x)) ->
  changes_only_below g (for_each f l).
Proof.
  intros Hf. induction l as [|x l IH]; cbn [for_each].
  - apply below_preserves. intros q _. apply preserves_ret.
  - apply below_bind; [apply Hf | intros _ _ _; exact IH].
Qed.

Lemma below_Pool_map {A B : Type} g processes turn (f : A -> M B) l :
  (forall x, x ∈ l -> changes_only_below g (f x)) ->
  changes_only_below g (Pool_map processes turn f l).
Proof.
  intros Hf fs.
  apply (Pool_map_respects processes turn f l
           (fun fs1 fs2 =>
              forall q, ~ g `suffix_of` q -> node_at fs1 q <> None ->
                        node_at fs2 q = node_at fs1 q)).
  - reflexivity.
  - intros fs1 fs2 fs3 H12 H23 q Hg Hq.
    rewrite H23, H12; auto. now rewrite H12.
  - intros x fs1 Hx q. now apply Hf.
Qed.

Section Below.

Context `{codec : ImageCodec}.
Variable md5 : list byte -> list byte.
Variable json_dumps : list PhotoMeta -> list byte.
Variable args : Args.
Variable turn : nat -> nat.

Local Abbreviation process := (process_and_get_meta md5 args).

Lemma below_save self :
  changes_only_below ("_generated" :: parent (parent (file_path self)))
    (save md5 args self).
Proof.
  unfold save. apply below_for_each. intros [v img].
  apply below_bind.
  - apply below_adds_only, adds_only_mkdir_parents.
  - intros _ _ _. apply below_preserves. intros q Hq.
    apply preserves_save_file. intros ->. apply Hq.
    exists [path_name (file_path self); v]. reflexivity.
Qed.

Lemma below_process f :
  changes_only_below ("_generated" :: parent (parent f)) (process f).
Proof.
  unfold process_and_get_meta, Processor_init.
  apply below_bind.
  - apply below_preserves. intros q _. apply preserves_open_image.
  - intros fs p Hp. apply file_path_open_image in Hp. cbn [file_path] in Hp.
    apply below_bind.
    + destruct (meta p).
      * rewrite <- Hp. apply below_save.
      * apply below_preserves. intros q _. apply preserves_ret.
    + intros _ _ _. apply below_preserves. intros q _. apply preserves_ret.
Qed.

Lemma below_main :
  changes_only_below ("_generated" :: assets_dir args)
    (main md5 json_dumps args turn).
Proof.
  unfold main.
  apply below_bind.
  { apply below_preserves. intros q _ fs. unfold Pool.
    destruct (nproc args <? 1); reflexivity. }
  intros _ _ _. apply below_bind.
  { apply below_preserves. intros q _ fs. reflexivity. }
  intros fs files Hfiles. injection Hfiles as <-.
  apply below_bind.
  { apply below_Pool_map. intros f Hf.
    destruct (jpg_entries_source _ _ _ Hf) as [n ->].
    apply (below_process (n :: "source" :: assets_dir args)). }
  intros _ metas _.
  apply below_bind.
  { apply below_preserves. intros q _. apply preserves_logger_info. }
  intros _ _ _. apply below_bind.
  { apply below_preserves. intros q _. apply preserves_logger_info. }
  intros _ _ _. apply below_preserves. intros q Hq.
  apply preserves_write_bytes. intros ->. apply Hq.
  exists ["metas.json"]. reflexivity.
Qed.

End Below.

(** X8: the run changes nothing that is there and not below
    [_generated]: every file and directory outside the output tree is
    after the run what it was before, however the run ends.  (Outside
    the output tree the run can only add the directories that are missing
    on the way to it.) *)
Theorem run_changes_only_output_tree `{codec : ImageCodec}
    (md5 : list byte -> list byte)
    (json_dumps : list PhotoMeta -> list byte) (args : Args)
    (turn : nat -> nat) (fs : FS) (q : Path) :
  ~ ("_generated" :: assets_dir args) `suffix_of` q ->
  node_at fs q <> None ->
  node_at (fs_after (main md5 json_dumps args turn fs)) q = node_at fs q.
Proof. apply below_main. Qed.

Lemma run_changes_only_output_tree_witness :
  ~ ("_generated" :: assets_dir Demo.args) `suffix_of` ["assets"] /\
  node_at Demo.photos ["assets"] <> None /\
  node_at (fs_after (main (codec := Raster.codec) Raster.digest Raster.dumps
                       Demo.args (fun i => i) Demo.photos)) ["assets"]
  = node_at Demo.photos ["assets"].
Proof.
  assert (H1 : ~ ("_generated" :: assets_dir Demo.args)
                 `suffix_of` ["assets"]).
  { intros H. apply suffix_length in H. simpl in H. lia. }
  assert (H2 : node_at Demo.photos ["assets"] <> None)
    by (vm_compute; discriminate).
  split; [exact H1|]. split; [exact H2|].
  exact (run_changes_only_output_tree (codec := Raster.codec) Raster.digest
           Raster.dumps Demo.args (fun i => i) Demo.photos ["assets"] H1 H2).
Defined.

(** ** Fields without a leading zero *)

Lemma py_int_str n : 0 <= n <= 59 -> py_int (str_of_Z n) = Ok n.
Proof.
  intros Hn.
  assert (H : reads_back n = true).
  { apply (Z_range_forallb reads_back 60); [|lia]. vm_compute. reflexivity. }
  unfold reads_back in H.
  destruct (py_int (str_of_Z n)) as [m|]; [|discriminate H].
  apply Z.eqb_eq in H. now subst.
Qed.

Section LooseFields.

Context {R : Type}.
Implicit Types (k : string -> Groups -> option R) (g : Groups).

Ltac nat_value n :=
  let m := fresh "m" in
  let Hm := fresh "Hm" in
  assert (exists m, n = Z.of_nat m)
    as [m Hm] by (exists (Z.to_nat n); lia);
  subst n.

Ltac this_case H :=
  first [ exfalso; lia
        | cbv; exact H
        | cbv; cbv in H; rewrite H; reflexivity ].

Lemma match_m_loose n rest g k x r :
  directive "m" = Some r -> 1 <= n <= 12 ->
  k (":" ++ rest)%string (("m"%char, str_of_Z n) :: g) = Some x ->
  re_match (Grp "m" r) (str_of_Z n ++ ":" ++ rest)%string g k = Some x.
Proof.
  intros Hd Hn Hk. injection Hd as <-.
  apply re_match_group; [|exact Hk].
  clear Hk. intros k' Hk'. nat_value n.
  do 13 (destruct m as [|m]; [this_case Hk'|]). lia.
Qed.

Lemma match_d_loose n rest g k x r :
  directive "d" = Some r -> 1 <= n <= 31 ->
  k (" " ++ rest)%string (("d"%char, str_of_Z n) :: g) = Some x ->
  re_match (Grp "d" r) (str_of_Z n ++ " " ++ rest)%string g k = Some x.
Proof.
  intros Hd Hn Hk. injection Hd as <-.
  apply re_match_group; [|exact Hk].
  clear Hk. intros k' Hk'. nat_value n.
  do 32 (destruct m as [|m]; [this_case Hk'|]). lia.
Qed.

Lemma match_H_loose n rest g k x r :
  directive "H" = Some r -> 0 <= n <= 23 ->
  k (":" ++ rest)%string (("H"%char, str_of_Z n) :: g) = Some x ->
  re_match (Grp "H" r) (str_of_Z n ++ ":" ++ rest)%string g k = Some x.
Proof.
  intros Hd Hn Hk. injection Hd as <-.
  apply re_match_group; [|exact Hk].
  clear Hk. intros k' Hk'. nat_value n.
  do 24 (destruct m as [|m]; [this_case Hk'|]). lia.
Qed.

Lemma match_M_loose n rest g k x r :
  directive "M" = Some r -> 0 <= n <= 59 ->
  k (":" ++ rest)%string (("M"%char, str_of_Z n) :: g) = Some x ->
  re_match (Grp "M" r) (str_of_Z n ++ ":" ++ rest)%string g k = Some x.
Proof.
  intros Hd Hn Hk. injection Hd as <-.
  apply re_match_group; [|exact Hk].
  clear Hk. intros k' Hk'. nat_value n.
  do 60 (destruct m as [|m]; [this_case Hk'|]). lia.
Qed.

Lemma match_S_loose n g k x r :
  directive "S" = Some r -> 0 <= n <= 59 ->
  k EmptyString (("S"%char, str_of_Z n) :: g) = Some x ->
  re_match (Grp "S" r) (str_of_Z n ++ "")%string g k = Some x.
Proof.
  intros Hd Hn Hk. injection Hd as <-.
  apply re_match_group; [|exact Hk].
  clear Hk. intros k' Hk'. nat_value n.
  do 60 (destruct m as [|m]; [this_case Hk'|]). lia.
Qed.

(** The blank of the format, in front of an hour. *)
Lemma match_blank_loose n rest g k x :
  0 <= n <= 23 ->
  k (str_of_Z n ++ rest)%string g = Some x ->
  re_match (Plus is_space) (" " ++ str_of_Z n ++ rest)%string g k = Some x.
Proof.
  intros Hn Hk. nat_value n.
  do 24 (destruct m as [|m]; [this_case Hk|]). lia.
Qed.

End LooseFields.

Lemma strptime_loose_time y mo d h mi s :
  valid_fields y mo d h mi s ->
  strptime (loose_time y mo d h mi s) "%Y:%m:%d %H:%M:%S"
  = Ok (mkDatetime y mo d h mi s 0 None).
Proof.
  intros Hv. pose proof Hv as (Hy & Hmo & Hd & Hh & Hmi & Hs).
  pose proof (days_in_month_le y mo) as Hdm.
  unfold strptime.
  change (compile_format false "%Y:%m:%d %H:%M:%S") with
    (match directive "Y", directive "m", directive "d",
           directive "H", directive "M", directive "S" with
     | Some rY, Some rm, Some rd, Some rH, Some rM, Some rS =>
         Some (Cat (Grp "Y" rY) (Cat (Lit ":") (Cat (Grp "m" rm)
              (Cat (Lit ":") (Cat (Grp "d" rd) (Cat (Plus is_space)
              (Cat (Grp "H" rH) (Cat (Lit ":") (Cat (Grp "M" rM)
              (Cat (Lit ":") (Cat (Grp "S" rS) Eps)))))))))))
     | _, _, _, _, _, _ => None
     end).
  destruct (directive "Y") as [rY|] eqn:EY; [|discriminate EY].
  destruct (directive "m") as [rm|] eqn:Em; [|discriminate Em].
  destruct (directive "d") as [rd|] eqn:Ed; [|discriminate Ed].
  destruct (directive "H") as [rH|] eqn:EH; [|discriminate EH].
  destruct (directive "M") as [rM|] eqn:EM; [|discriminate EM].
  destruct (directive "S") as [rS|] eqn:ES; [|discriminate ES].
  assert (re_match
    (Cat (Grp "Y" rY) (Cat (Lit ":") (Cat (Grp "m" rm)
      (Cat (Lit ":") (Cat (Grp "d" rd) (Cat (Plus is_space)
      (Cat (Grp "H" rH) (Cat (Lit ":") (Cat (Grp "M" rM)
      (Cat (Lit ":") (Cat (Grp "S" rS) Eps)))))))))))
    (loose_time y mo d h mi s) []
    (fun t g => Some (t, g))
    = Some (EmptyString,
            [("S"%char, str_of_Z s); ("M"%char, str_of_Z mi);
             ("H"%char, str_of_Z h); ("d"%char, str_of_Z d);
             ("m"%char, str_of_Z mo); ("Y"%char, fmt_d0 4 y)])) as ->.
  { unfold loose_time.
    rewrite re_match_cat. apply match_Y; [assumption | lia |].
    cbv beta. rewrite re_match_cat, re_match_lit, re_match_cat.
    apply match_m_loose; [assumption | lia |].
    cbv beta. rewrite re_match_cat, re_match_lit, re_match_cat.
    apply match_d_loose; [assumption | lia |].
    cbv beta. rewrite re_match_cat.
    apply match_blank_loose; [lia|].
    rewrite re_match_cat. apply match_H_loose; [assumption | lia |].
    cbv beta. rewrite re_match_cat, re_match_lit, re_match_cat.
    apply match_M_loose; [assumption | lia |].
    cbv beta. rewrite re_match_cat, re_match_lit, re_match_cat.
    rewrite <- (str_app_nil_r (str_of_Z s)) at 1.
    apply match_S_loose; [assumption | lia |].
    reflexivity. }
  unfold field. cbn [group Ascii.eqb Bool.eqb].
  rewrite (py_int_fmt4 y) by lia.
  rewrite !py_int_str by lia.
  cbn [rbind]. now apply datetime_new_ok.
Qed.

(** X4: the pattern is not of fixed width: a capture time whose month,
    day, hour, minute and second are written without the leading zero is
    parsed as well, and gives the same ISO 8601 string as the zero-padded
    writing. *)
Theorem parse_time_accepts_unpadded_fields y mo d h mi s :
  valid_fields y mo d h mi s ->
  parse_time (EStr (loose_time y mo d h mi s))
  = Ok (iso_time y mo d h mi s).
Proof.
  intros Hv. unfold parse_time.
  rewrite (strptime_loose_time _ _ _ _ _ _ Hv). cbn [rbind tzinfo].
  now rewrite isoformat_plus8.
Qed.

Lemma parse_time_accepts_unpadded_fields_witness :
  valid_fields 2023 5 1 9 0 0 /\
  parse_time (EStr "2023:5:1 9:0:0") = Ok "2023-05-01T09:00:00+08:00".
Proof.
  assert (H : valid_fields 2023 5 1 9 0 0).
  { unfold valid_fields. vm_compute. intuition discriminate. }
  split; [exact H|].
  exact (parse_time_accepts_unpadded_fields 2023 5 1 9 0 0 H).
Defined.

(** A capture time in the pattern has 19 characters. *)
Lemma exif_time_length y mo d h mi s :
  in_format y mo d h mi s -> String.length (exif_time y mo d h mi s) = 19%nat.
Proof.
  intros (Hy & Hmo & Hd & Hh & Hmi & Hs). unfold exif_time.
  rewrite !str_length_app, fmt4_length by lia.
  rewrite !fmt2_length by lia. reflexivity.
Qed.

(** C10 as stated fails: a capture time that is not in the pattern
    [YYYY:MM:DD HH:MM:SS], here [2023:5:1 9:0:0] with fields of one
    digit, is parsed all the same, and the photo is processed like any
    other: a record is returned and no exception is raised. *)
Lemma unpadded_time_is_processed :
  (forall y mo d h mi s,
     in_format y mo d h mi s -> exif_time y mo d h mi s <> "2023:5:1 9:0:0") /\
  (exists b im exif,
     node_at Demo.unpadded Demo.a_jpg = Some (File b) /\
     image_decode (ImageCodec := Raster.codec) b = Some im /\
     getexif im = Some exif /\
     exif !! 0x0132 = Some (EStr "2023:5:1 9:0:0")) /\
  res (process_and_get_meta (codec := Raster.codec) Raster.digest Demo.args
         Demo.a_jpg Demo.unpadded)
  = Ok (Some (mkMeta (3, 4) "2023-05-01T09:00:00+08:00" "a.jpg")).
Proof.
  split; [|split].
  - intros y mo d h mi s Hf E. apply (f_equal String.length) in E.
    rewrite exif_time_length in E by exact Hf. discriminate E.
  - eexists _, _, _. repeat split; vm_compute; reflexivity.
  - vm_compute. reflexivity.
Qed.
